(** * Binary framing protocol (server/binary_protocol.py)

    A shallow embedding of the host-side codec: the CRC-16 checksum, the
    typed payload builder and parser, and the frame encoder and decoder,
    together with the properties the protocol description states about
    them.

    Conventions of the embedding.
    - A Python [bytes] value is a [list byte]; a Python [int] is a [Z].
    - A Python call that may raise is a [result]: [Ok v] for a normal
      return, [Raise e] for an exception that reaches the caller.
    - [None] / a value is an [option] inside [Ok].
    - A [bytearray] is a mutable object: it lives in a store ([heap]) and
      is named by its location; methods of [PayloadBuilder] thread the
      store. *)

From Stdlib Require Import ZArith Lia List FunInd.
From Stdlib Require Import Strings.Byte.
From stdpp Require Import base option list gmap.
Import ListNotations.

Local Open Scope Z_scope.

(** ** Python values and exceptions *)

Inductive exn : Set :=
| ValueError          (* bytearray.append out of range, explicit raise *)
| StructError         (* struct.error *)
| IndexError          (* sequence index out of range *)
| OverflowError       (* float too large for the 'f' format *)
| UnicodeEncodeError  (* lone surrogate in str.encode('utf-8') *)
| ReferenceError.     (* a location that names no object: cannot occur for
                         locations obtained from a constructor *)

Inductive result (A : Type) : Type :=
| Ok (a : A)
| Raise (e : exn).
Arguments Ok {A} a.
Arguments Raise {A} e.

#[global] Instance result_ret : MRet result := fun A a => Ok a.
#[global] Instance result_bind : MBind result := fun A B f r =>
  match r with
  | Ok a => f a
  | Raise e => Raise e
  end.

Definition returns {A} (r : result A) : Prop := exists v, r = Ok v.
Definition raises {A} (r : result A) : Prop := exists e, r = Raise e.

(** [len(x)] *)
Definition len {A} (l : list A) : Z := Z.of_nat (length l).

(** The integer value of a byte, and the byte of an integer in range(256). *)
Definition byte_to_Z (b : byte) : Z := Z.of_N (Byte.to_N b).

Definition byte_of_Z (z : Z) : option byte :=
  if 0 <=? z then Byte.of_N (Z.to_N z) else None.

(** The byte holding the low eight bits of [z]. *)
Definition byte_of_low8 (z : Z) : byte :=
  match byte_of_Z (Z.land z 0xFF) with
  | Some b => b
  | None => x00
  end.

(** [seq[i]] for an integer index: a negative index counts from the end,
    an index outside the sequence raises IndexError. *)
Definition py_getitem (l : list byte) (i : Z) : result Z :=
  let j := if i <? 0 then i + len l else i in
  if (j <? 0) || (len l <=? j) then Raise IndexError
  else match l !! Z.to_nat j with
       | Some b => Ok (byte_to_Z b)
       | None => Raise IndexError
       end.

(** Slice bounds as Python adjusts them: a negative bound counts from the
    end, then the bound is clamped to [0, len]. *)
Definition py_clamp (n i : Z) : Z :=
  let j := if i <? 0 then i + n else i in
  Z.max 0 (Z.min n j).

(** [seq[lo:hi]]; never raises, empty when the adjusted bounds cross. *)
Definition py_slice {A} (l : list A) (lo hi : Z) : list A :=
  let a := py_clamp (len l) lo in
  let b := py_clamp (len l) hi in
  take (Z.to_nat (b - a)) (drop (Z.to_nat a) l).

(** [bytearray.append(v)]: ValueError unless [v] is in range(256). *)
Definition bytearray_append (buf : list byte) (v : Z) : result (list byte) :=
  match byte_of_Z v with
  | Some b => Ok (buf ++ [b])
  | None => Raise ValueError
  end.

(** ** The struct module, big-endian formats *)

Definition pack_H (v : Z) : result (list byte) :=
  if (0 <=? v) && (v <=? 0xFFFF)
  then Ok [byte_of_low8 (Z.shiftr v 8); byte_of_low8 v]
  else Raise StructError.

Definition pack_h (v : Z) : result (list byte) :=
  if (-0x8000 <=? v) && (v <=? 0x7FFF)
  then Ok [byte_of_low8 (Z.shiftr v 8); byte_of_low8 v]
  else Raise StructError.

Definition pack_i (v : Z) : result (list byte) :=
  if (-0x80000000 <=? v) && (v <=? 0x7FFFFFFF)
  then Ok [byte_of_low8 (Z.shiftr v 24); byte_of_low8 (Z.shiftr v 16);
           byte_of_low8 (Z.shiftr v 8); byte_of_low8 v]
  else Raise StructError.

(** [struct.unpack(fmt, buf)[0]]: struct.error unless [buf] has exactly
    the size of the format. *)
Definition unpack_H (buf : list byte) : result Z :=
  match buf with
  | [b0; b1] => Ok (256 * byte_to_Z b0 + byte_to_Z b1)
  | _ => Raise StructError
  end.

Definition unpack_h (buf : list byte) : result Z :=
  match buf with
  | [b0; b1] =>
      let u := 256 * byte_to_Z b0 + byte_to_Z b1 in
      Ok (if 0x8000 <=? u then u - 0x10000 else u)
  | _ => Raise StructError
  end.

Definition unpack_i (buf : list byte) : result Z :=
  match buf with
  | [b0; b1; b2; b3] =>
      let u := 16777216 * byte_to_Z b0 + 65536 * byte_to_Z b1
               + 256 * byte_to_Z b2 + byte_to_Z b3 in
      Ok (if 0x80000000 <=? u then u - 0x100000000 else u)
  | _ => Raise StructError
  end.

(** ** Protocol constants *)

Definition PROTO_START_BYTE : Z := 0xAA.
Definition PROTO_MAX_PAYLOAD : Z := 1024.

Definition CMD_PING : Z := 0x01.
Definition CMD_LED_SET : Z := 0x10.
Definition CMD_LED_BLINK : Z := 0x11.
Definition CMD_ENCODER_READ : Z := 0x30.
Definition CMD_ENCODER_DATA : Z := 0x31.
Definition CMD_OLED_CLEAR : Z := 0x40.
Definition CMD_OLED_TEXT : Z := 0x41.

(** ** Checksum: crc16_ccitt *)

(** One pass of the inner loop body. *)
Definition crc16_round (crc : Z) : Z :=
  let crc := if negb (Z.land crc 0x8000 =? 0)
             then Z.lxor (Z.shiftl crc 1) 0x1021
             else Z.shiftl crc 1 in
  Z.land crc 0xFFFF.

(** One pass of the outer loop body: [crc ^= byte << 8], then
    [for _ in range(8)]. *)
Definition crc16_byte (crc : Z) (byte : byte) : Z :=
  let crc := Z.lxor crc (Z.shiftl (byte_to_Z byte) 8) in
  Nat.iter 8 crc16_round crc.

Definition crc16_ccitt (data : list byte) : Z :=
  fold_left crc16_byte data 0xFFFF.

(** The reference definition, following the wording of the protocol
    description (CRC-16/CCITT-FALSE): a 16-bit register; the byte is
    XORed into the high byte; each round doubles the register, XORs the
    polynomial in when the high bit was set, and keeps 16 bits. *)
Module CCITT_FALSE.
Definition init : Z := 65535.
Definition poly : Z := 4129.

Definition high_bit (reg : Z) : bool := Z.testbit reg 15.

Definition round (reg : Z) : Z :=
  if high_bit reg then (Z.lxor (2 * reg) poly) mod 2 ^ 16
  else (2 * reg) mod 2 ^ 16.

Definition feed (reg : Z) (b : byte) : Z :=
  let reg := Z.lxor reg (byte_to_Z b * 2 ^ 8) in
  round (round (round (round (round (round (round (round reg))))))).

Fixpoint run (reg : Z) (data : list byte) : Z :=
  match data with
  | [] => reg
  | b :: rest => run (feed reg b) rest
  end.

Definition checksum (data : list byte) : Z := run init data.
End CCITT_FALSE.

(** ** Frame codec *)

Definition encode_frame (command_id : Z) (payload : list byte)
  : result (list byte) :=
  if PROTO_MAX_PAYLOAD <? len payload then Raise ValueError else
  let length := len payload in
  let crc_data := [] in
  crc_data ← bytearray_append crc_data command_id;
  packed ← pack_H length;
  let crc_data := crc_data ++ packed in
  let crc_data := crc_data ++ payload in
  let crc := crc16_ccitt crc_data in
  let frame := [] in
  frame ← bytearray_append frame PROTO_START_BYTE;
  frame ← bytearray_append frame command_id;
  packed ← pack_H length;
  let frame := frame ++ packed in
  let frame := frame ++ payload in
  packed ← pack_H crc;
  let frame := frame ++ packed in
  Ok frame.

Definition decode_frame (data : list byte) : result (option (Z * list byte)) :=
  if len data <? 6 then Ok None else
  first ← py_getitem data 0;
  if negb (first =? PROTO_START_BYTE) then Ok None else
  command_id ← py_getitem data 1;
  length ← unpack_H (py_slice data 2 4);
  if len data <? 6 + length then Ok None else
  let payload := py_slice data 4 (4 + length) in
  received_crc ← unpack_H (py_slice data (4 + length) (6 + length));
  let crc_data := py_slice data 1 (4 + length) in
  let calculated_crc := crc16_ccitt crc_data in
  if negb (received_crc =? calculated_crc) then Ok None else
  Ok (Some (command_id, payload)).

(** ** Text: str.encode('utf-8') and bytes.decode('utf-8', errors='replace')

    A [str] is the list of its code points. The encoder rejects what has
    no UTF-8 form: a surrogate (U+D800..U+DFFF), which a Python [str] may
    hold, and a value outside U+0000..U+10FFFF, which it cannot. *)

Definition REPLACEMENT_CHARACTER : Z := 0xFFFD.

Definition utf8_encode_char (c : Z) : result (list byte) :=
  if c <? 0 then Raise UnicodeEncodeError
  else if c <? 0x80 then Ok [byte_of_low8 c]
  else if c <? 0x800 then
    Ok [byte_of_low8 (0xC0 + c / 64); byte_of_low8 (0x80 + c mod 64)]
  else if c <? 0x10000 then
    if (0xD800 <=? c) && (c <=? 0xDFFF) then Raise UnicodeEncodeError
    else Ok [byte_of_low8 (0xE0 + c / 4096);
             byte_of_low8 (0x80 + (c / 64) mod 64);
             byte_of_low8 (0x80 + c mod 64)]
  else if c <? 0x110000 then
    Ok [byte_of_low8 (0xF0 + c / 262144);
        byte_of_low8 (0x80 + (c / 4096) mod 64);
        byte_of_low8 (0x80 + (c / 64) mod 64);
        byte_of_low8 (0x80 + c mod 64)]
  else Raise UnicodeEncodeError.

Fixpoint utf8_encode (s : list Z) : result (list byte) :=
  match s with
  | [] => Ok []
  | c :: rest =>
      head ← utf8_encode_char c;
      tail ← utf8_encode rest;
      Ok (head ++ tail)
  end.

Definition is_continuation (ch : Z) : bool := (0x80 <=? ch) && (ch <? 0xC0).

(** The decoder never fails: an invalid start byte, a lead byte with its
    valid continuation bytes followed by an invalid one, and a sequence
    cut short by the end of the data each become one U+FFFD, and decoding
    resumes after the bytes replaced. *)
Function utf8_decode_replace (s : list byte) {struct s} : list Z :=
  match s with
  | [] => []
  | b1 :: s1 =>
    let ch := byte_to_Z b1 in
    if ch <? 0x80 then ch :: utf8_decode_replace s1
    else if ch <? 0xC2 then REPLACEMENT_CHARACTER :: utf8_decode_replace s1
    else if ch <? 0xE0 then
      match s1 with
      | [] => [REPLACEMENT_CHARACTER]
      | b2 :: s2 =>
        let ch2 := byte_to_Z b2 in
        if negb (is_continuation ch2)
        then REPLACEMENT_CHARACTER :: utf8_decode_replace s1
        else (ch * 64 + ch2 - (0xC0 * 64 + 0x80)) :: utf8_decode_replace s2
      end
    else if ch <? 0xF0 then
      match s1 with
      | [] => [REPLACEMENT_CHARACTER]
      | b2 :: s2 =>
        let ch2 := byte_to_Z b2 in
        if negb (is_continuation ch2)
           || (if ch2 <? 0xA0 then ch =? 0xE0 else ch =? 0xED)
        then REPLACEMENT_CHARACTER :: utf8_decode_replace s1
        else
          match s2 with
          | [] => [REPLACEMENT_CHARACTER]
          | b3 :: s3 =>
            let ch3 := byte_to_Z b3 in
            if negb (is_continuation ch3)
            then REPLACEMENT_CHARACTER :: utf8_decode_replace s2
            else (ch * 4096 + ch2 * 64 + ch3
                  - (0xE0 * 4096 + 0x80 * 64 + 0x80))
                 :: utf8_decode_replace s3
          end
      end
    else if ch <? 0xF5 then
      match s1 with
      | [] => [REPLACEMENT_CHARACTER]
      | b2 :: s2 =>
        let ch2 := byte_to_Z b2 in
        if negb (is_continuation ch2)
           || (if ch2 <? 0x90 then ch =? 0xF0 else ch =? 0xF4)
        then REPLACEMENT_CHARACTER :: utf8_decode_replace s1
        else
          match s2 with
          | [] => [REPLACEMENT_CHARACTER]
          | b3 :: s3 =>
            let ch3 := byte_to_Z b3 in
            if negb (is_continuation ch3)
            then REPLACEMENT_CHARACTER :: utf8_decode_replace s2
            else
              match s3 with
              | [] => [REPLACEMENT_CHARACTER]
              | b4 :: s4 =>
                let ch4 := byte_to_Z b4 in
                if negb (is_continuation ch4)
                then REPLACEMENT_CHARACTER :: utf8_decode_replace s3
                else (ch * 262144 + ch2 * 4096 + ch3 * 64 + ch4
                      - (0xF0 * 262144 + 0x80 * 4096 + 0x80 * 64 + 0x80))
                     :: utf8_decode_replace s4
              end
          end
      end
    else REPLACEMENT_CHARACTER :: utf8_decode_replace s1
  end.

(** ** Floats

    [struct.pack('>f', v)] and [struct.unpack('>f', b)] convert between a
    Python float and its IEEE-754 single-precision bytes. The codec never
    inspects a float, so the conversion is an interface: [encode_f32]
    gives the four bytes of a float, or nothing when the float is too
    large for single precision; [decode_f32] reads four bytes back. *)

Class FloatCodec := {
  pyfloat : Type;
  encode_f32 : pyfloat -> option (list byte);
  decode_f32 : list byte -> pyfloat;
  encode_f32_length : forall v bs, encode_f32 v = Some bs -> length bs = 4%nat
}.

(** Floats taken as their single-precision bit patterns: the codec used
    in closed examples. *)
Definition f32_bits : FloatCodec.
Proof.
  refine {|
    pyfloat := byte * byte * byte * byte;
    encode_f32 := fun '(a, b, c, d) => Some [a; b; c; d];
    decode_f32 := fun buf =>
      match buf with
      | [a; b; c; d] => (a, b, c, d)
      | _ => (x00, x00, x00, x00)
      end
  |}.
  intros [[[a b] c] d] bs Hbs. injection Hbs as <-. reflexivity.
Defined.

Definition pack_f `{FC : FloatCodec} (v : pyfloat) : result (list byte) :=
  match encode_f32 v with
  | Some bs => Ok bs
  | None => Raise OverflowError
  end.

Definition unpack_f `{FC : FloatCodec} (buf : list byte) : result pyfloat :=
  match buf with
  | [_; _; _; _] => Ok (decode_f32 buf)
  | _ => Raise StructError
  end.

(** ** Methods: state and exceptions

    A method body runs over the state it may mutate and either returns or
    raises; the state after an exception is the state reached when it was
    raised. *)

Definition ST (S A : Type) : Type := S -> result A * S.

#[global] Instance ST_ret {S} : MRet (ST S) := fun A a s => (Ok a, s).
#[global] Instance ST_bind {S} : MBind (ST S) := fun A B f m s =>
  match m s with
  | (Ok a, s') => f a s'
  | (Raise e, s') => (Raise e, s')
  end.

(** A call that can raise but touches no state. *)
Definition lift {S A} (r : result A) : ST S A := fun s => (r, s).

(** ** The store of bytearray objects *)

Abbreviation loc := positive.
Abbreviation heap := (gmap loc (list byte)).

Module Bytearray.
(** [bytearray()] *)
Definition new : ST heap loc := fun h =>
  let l := fresh (dom h) in (Ok l, <[l := []]> h).

Definition contents (l : loc) : ST heap (list byte) := fun h =>
  match h !! l with
  | Some buf => (Ok buf, h)
  | None => (Raise ReferenceError, h)
  end.

Definition put (l : loc) (buf : list byte) : ST heap unit := fun h =>
  (Ok tt, <[l := buf]> h).

(** [len(b)] *)
Definition length (l : loc) : ST heap Z :=
  buf ← contents l; mret (len buf).

(** [b.append(v)] *)
Definition append (l : loc) (v : Z) : ST heap unit :=
  buf ← contents l;
  buf' ← lift (bytearray_append buf v);
  put l buf'.

(** [b.extend(data)] *)
Definition extend (l : loc) (data : list byte) : ST heap unit :=
  buf ← contents l;
  put l (buf ++ data).

(** [bytes(b)]: a new immutable value holding a copy of the contents. *)
Definition to_bytes (l : loc) : ST heap (list byte) := contents l.
End Bytearray.

(** ** PayloadBuilder *)

Module PayloadBuilder.
Record t := { buffer : loc; max_size : Z }.

(** [__init__] *)
Definition new (max_size : Z) : ST heap t :=
  l ← Bytearray.new;
  mret {| buffer := l; max_size := max_size |}.

Definition add_uint8 (self : t) (value : Z) : ST heap bool :=
  n ← Bytearray.length (buffer self);
  if max_size self <? n + 1 then mret false else
  _ ← Bytearray.append (buffer self) (Z.land value 0xFF);
  mret true.

Definition add_int16 (self : t) (value : Z) : ST heap bool :=
  n ← Bytearray.length (buffer self);
  if max_size self <? n + 2 then mret false else
  packed ← lift (pack_h value);
  _ ← Bytearray.extend (buffer self) packed;
  mret true.

Definition add_uint16 (self : t) (value : Z) : ST heap bool :=
  n ← Bytearray.length (buffer self);
  if max_size self <? n + 2 then mret false else
  packed ← lift (pack_H value);
  _ ← Bytearray.extend (buffer self) packed;
  mret true.

Definition add_int32 (self : t) (value : Z) : ST heap bool :=
  n ← Bytearray.length (buffer self);
  if max_size self <? n + 4 then mret false else
  packed ← lift (pack_i value);
  _ ← Bytearray.extend (buffer self) packed;
  mret true.

Definition add_float `{FC : FloatCodec} (self : t) (value : pyfloat)
  : ST heap bool :=
  n ← Bytearray.length (buffer self);
  if max_size self <? n + 4 then mret false else
  packed ← lift (pack_f value);
  _ ← Bytearray.extend (buffer self) packed;
  mret true.

Definition add_string (self : t) (value : list Z) : ST heap bool :=
  encoded ← lift (utf8_encode value);
  n ← Bytearray.length (buffer self);
  if max_size self <? n + 1 + len encoded then mret false else
  if 255 <? len encoded then mret false else
  _ ← Bytearray.append (buffer self) (len encoded);
  _ ← Bytearray.extend (buffer self) encoded;
  mret true.

Definition add_bytes (self : t) (data : list byte) : ST heap bool :=
  n ← Bytearray.length (buffer self);
  if max_size self <? n + len data then mret false else
  _ ← Bytearray.extend (buffer self) data;
  mret true.

Definition get_payload (self : t) : ST heap (list byte) :=
  Bytearray.to_bytes (buffer self).

(** The seven append operations as one family of calls. *)
Inductive call `{FC : FloatCodec} :=
| Add_uint8 (value : Z)
| Add_uint16 (value : Z)
| Add_int16 (value : Z)
| Add_int32 (value : Z)
| Add_float (value : pyfloat)
| Add_string (value : list Z)
| Add_bytes (data : list byte).

Definition run `{FC : FloatCodec} (c : call) (self : t) : ST heap bool :=
  match c with
  | Add_uint8 v => add_uint8 self v
  | Add_uint16 v => add_uint16 self v
  | Add_int16 v => add_int16 self v
  | Add_int32 v => add_int32 self v
  | Add_float v => add_float self v
  | Add_string v => add_string self v
  | Add_bytes d => add_bytes self d
  end.

(** The number of bytes a call adds to the buffer when it succeeds:
    the width of a fixed-width value, one length byte and the UTF-8
    bytes of a string, the bytes of a raw span. *)
Definition appended_size `{FC : FloatCodec} (c : call) : result Z :=
  match c with
  | Add_uint8 _ => Ok 1
  | Add_uint16 _ | Add_int16 _ => Ok 2
  | Add_int32 _ | Add_float _ => Ok 4
  | Add_string v => encoded ← utf8_encode v; Ok (1 + len encoded)
  | Add_bytes d => Ok (len d)
  end.
End PayloadBuilder.

(** ** PayloadParser *)

Module PayloadParser.
Record t := { buffer : list byte; position : Z }.

(** [__init__] *)
Definition new (payload : list byte) : t :=
  {| buffer := payload; position := 0 |}.

Definition get_buffer : ST t (list byte) := fun self => (Ok (buffer self), self).
Definition get_position : ST t Z := fun self => (Ok (position self), self).
Definition set_position (p : Z) : ST t unit := fun self =>
  (Ok tt, {| buffer := buffer self; position := p |}).

Definition remaining : ST t Z :=
  buf ← get_buffer; pos ← get_position; mret (len buf - pos).

Definition read_uint8 : ST t (option Z) :=
  buf ← get_buffer; pos ← get_position;
  if len buf <? pos + 1 then mret None else
  value ← lift (py_getitem buf pos);
  _ ← set_position (pos + 1);
  mret (Some value).

Definition read_int16 : ST t (option Z) :=
  buf ← get_buffer; pos ← get_position;
  if len buf <? pos + 2 then mret None else
  value ← lift (unpack_h (py_slice buf pos (pos + 2)));
  _ ← set_position (pos + 2);
  mret (Some value).

Definition read_uint16 : ST t (option Z) :=
  buf ← get_buffer; pos ← get_position;
  if len buf <? pos + 2 then mret None else
  value ← lift (unpack_H (py_slice buf pos (pos + 2)));
  _ ← set_position (pos + 2);
  mret (Some value).

Definition read_int32 : ST t (option Z) :=
  buf ← get_buffer; pos ← get_position;
  if len buf <? pos + 4 then mret None else
  value ← lift (unpack_i (py_slice buf pos (pos + 4)));
  _ ← set_position (pos + 4);
  mret (Some value).

Definition read_float `{FC : FloatCodec} : ST t (option pyfloat) :=
  buf ← get_buffer; pos ← get_position;
  if len buf <? pos + 4 then mret None else
  value ← lift (unpack_f (py_slice buf pos (pos + 4)));
  _ ← set_position (pos + 4);
  mret (Some value).

Definition read_string : ST t (option (list Z)) :=
  length ← read_uint8;
  match length with
  | None => mret None
  | Some length =>
    buf ← get_buffer; pos ← get_position;
    if len buf <? pos + length then mret None else
    let value := utf8_decode_replace (py_slice buf pos (pos + length)) in
    _ ← set_position (pos + length);
    mret (Some value)
  end.

Definition read_bytes (length : Z) : ST t (option (list byte)) :=
  buf ← get_buffer; pos ← get_position;
  if len buf <? pos + length then mret None else
  let value := py_slice buf pos (pos + length) in
  _ ← set_position (pos + length);
  mret (Some value).

(** The seven read operations as one family of calls, and the values
    they return. *)
Inductive call :=
| Read_uint8 | Read_uint16 | Read_int16 | Read_int32
| Read_float | Read_string | Read_bytes (length : Z).

Inductive value `{FC : FloatCodec} :=
| Int (v : Z)
| Float (v : pyfloat)
| Str (v : list Z)
| Bytes (v : list byte).

Definition run `{FC : FloatCodec} (c : call) : ST t (option value) :=
  match c with
  | Read_uint8 => v ← read_uint8; mret (Int <$> v)
  | Read_uint16 => v ← read_uint16; mret (Int <$> v)
  | Read_int16 => v ← read_int16; mret (Int <$> v)
  | Read_int32 => v ← read_int32; mret (Int <$> v)
  | Read_float => v ← read_float; mret (Float <$> v)
  | Read_string => v ← read_string; mret (Str <$> v)
  | Read_bytes n => v ← read_bytes n; mret (Bytes <$> v)
  end.

(** The number of bytes a fixed-size read consumes; [read_string]
    consumes one byte more than the length byte it finds. *)
Definition width (c : call) : option Z :=
  match c with
  | Read_uint8 => Some 1
  | Read_uint16 | Read_int16 => Some 2
  | Read_int32 | Read_float => Some 4
  | Read_string => None
  | Read_bytes n => Some n
  end.

Definition advance (self : t) (n : Z) : t :=
  {| buffer := buffer self; position := position self + n |}.
End PayloadParser.

(** ** Command builders and response parsers *)

Definition build_ping : result (list byte) := encode_frame CMD_PING [].

Definition build_led_blink (duration_ms : Z) : ST heap (list byte) :=
  builder ← PayloadBuilder.new PROTO_MAX_PAYLOAD;
  _ ← PayloadBuilder.add_uint16 builder duration_ms;
  payload ← PayloadBuilder.get_payload builder;
  lift (encode_frame CMD_LED_BLINK payload).

Definition build_oled_text (x y : Z) (text : list Z) : ST heap (list byte) :=
  builder ← PayloadBuilder.new PROTO_MAX_PAYLOAD;
  _ ← PayloadBuilder.add_uint8 builder x;
  _ ← PayloadBuilder.add_uint8 builder y;
  _ ← PayloadBuilder.add_string builder text;
  payload ← PayloadBuilder.get_payload builder;
  lift (encode_frame CMD_OLED_TEXT payload).

Record encoder_data := {
  position : Z;
  velocity : Z;
  button_pressed : bool
}.

Definition parse_encoder_data (payload : list byte)
  : result (option encoder_data) :=
  let parser := PayloadParser.new payload in
  fst ((position ← PayloadParser.read_int16;
        velocity ← PayloadParser.read_uint8;
        button ← PayloadParser.read_uint8;
        match position with
        | None => mret None
        | Some position =>
            mret (Some {| position := position;
                          velocity := match velocity with
                                      | Some v => v
                                      | None => 0
                                      end;
                          button_pressed := match button with
                                            | Some b => b =? 1
                                            | None => false
                                            end |})
        end) parser).

(** ** The wire format

    The layout of a frame as the protocol description tabulates it:
    offset 0 the start marker, offset 1 the command id, offsets 2 and 3
    the payload length N (big-endian), offsets 4 .. 4+N the payload,
    offsets 4+N and 5+N the checksum (big-endian) of bytes [1 .. 4+N).
    These are read off a buffer by position alone, with no checks. *)
Module Wire.
Definition byte_at (data : list byte) (offset : nat) : Z :=
  byte_to_Z (nth offset data x00).

Definition start_marker (data : list byte) : Z := byte_at data 0.
Definition command_id (data : list byte) : Z := byte_at data 1.
Definition declared_length (data : list byte) : Z :=
  256 * byte_at data 2 + byte_at data 3.
Definition payload (data : list byte) : list byte :=
  firstn (Z.to_nat (declared_length data)) (skipn 4 data).
Definition checksum (data : list byte) : Z :=
  let n := Z.to_nat (declared_length data) in
  256 * byte_at data (4 + n) + byte_at data (5 + n).
Definition checksummed (data : list byte) : list byte :=
  firstn (3 + Z.to_nat (declared_length data)) (skipn 1 data).

(** The four ways a buffer fails to hold a frame. *)
Definition malformed (data : list byte) : Prop :=
  len data < 6
  \/ start_marker data <> 0xAA
  \/ len data < 6 + declared_length data
  \/ crc16_ccitt (checksummed data) <> checksum data.
End Wire.

(** ** The rest of the vocabulary *)

(** [CommandID], an IntEnum: the members and their wire values. *)
Inductive CommandID : Set :=
| PING | PONG | ERROR | ACK
| LED_SET | LED_BLINK | LED_PATTERN
| SENSOR_READ | SENSOR_DATA | SENSOR_CONFIG
| ENCODER_READ | ENCODER_DATA | ENCODER_RESET
| OLED_CLEAR | OLED_TEXT | OLED_PIXEL | OLED_LINE | OLED_RECT | OLED_BITMAP
| DATA_UINT8 | DATA_INT16 | DATA_INT32 | DATA_FLOAT | DATA_STRING
| DATA_ARRAY.

Definition CommandID_value (c : CommandID) : Z :=
  match c with
  | PING => 0x01 | PONG => 0x02 | ERROR => 0x03 | ACK => 0x04
  | LED_SET => 0x10 | LED_BLINK => 0x11 | LED_PATTERN => 0x12
  | SENSOR_READ => 0x20 | SENSOR_DATA => 0x21 | SENSOR_CONFIG => 0x22
  | ENCODER_READ => 0x30 | ENCODER_DATA => 0x31 | ENCODER_RESET => 0x32
  | OLED_CLEAR => 0x40 | OLED_TEXT => 0x41 | OLED_PIXEL => 0x42
  | OLED_LINE => 0x43 | OLED_RECT => 0x44 | OLED_BITMAP => 0x45
  | DATA_UINT8 => 0x50 | DATA_INT16 => 0x51 | DATA_INT32 => 0x52
  | DATA_FLOAT => 0x53 | DATA_STRING => 0x54 | DATA_ARRAY => 0x55
  end.

Definition build_led_set (state : bool) : ST heap (list byte) :=
  builder ← PayloadBuilder.new PROTO_MAX_PAYLOAD;
  _ ← PayloadBuilder.add_uint8 builder (if state then 1 else 0);
  payload ← PayloadBuilder.get_payload builder;
  lift (encode_frame CMD_LED_SET payload).

Definition build_oled_clear : result (list byte) :=
  encode_frame CMD_OLED_CLEAR [].

Definition build_encoder_read : result (list byte) :=
  encode_frame CMD_ENCODER_READ [].

Record sensor_data := {
  sensor_id : Z;
  value : Z
}.

Definition parse_sensor_data (payload : list byte)
  : result (option sensor_data) :=
  let parser := PayloadParser.new payload in
  fst ((sensor_id ← PayloadParser.read_uint8;
        value ← PayloadParser.read_int16;
        match sensor_id, value with
        | Some sensor_id, Some value =>
            mret (Some {| sensor_id := sensor_id; value := value |})
        | _, _ => mret None
        end) parser).

(** ** Sequences of calls *)

(** The states of the store a builder can be brought to by calls of its
    methods, whatever they return or raise. *)
Inductive builder_steps `{FC : FloatCodec} (self : PayloadBuilder.t)
  : heap -> heap -> Prop :=
| steps_none (h : heap) : builder_steps self h h
| steps_append (h h1 h2 : heap) (c : PayloadBuilder.call) (r : result bool) :
    builder_steps self h h1 ->
    PayloadBuilder.run c self h1 = (r, h2) ->
    builder_steps self h h2
| steps_get_payload (h h1 h2 : heap) (r : result (list byte)) :
    builder_steps self h h1 ->
    PayloadBuilder.get_payload self h1 = (r, h2) ->
    builder_steps self h h2.

(** The read that mirrors an append, and the value it is to find. *)
Definition reader `{FC : FloatCodec} (c : PayloadBuilder.call)
  : PayloadParser.call :=
  match c with
  | PayloadBuilder.Add_uint8 _ => PayloadParser.Read_uint8
  | PayloadBuilder.Add_uint16 _ => PayloadParser.Read_uint16
  | PayloadBuilder.Add_int16 _ => PayloadParser.Read_int16
  | PayloadBuilder.Add_int32 _ => PayloadParser.Read_int32
  | PayloadBuilder.Add_float _ => PayloadParser.Read_float
  | PayloadBuilder.Add_string _ => PayloadParser.Read_string
  | PayloadBuilder.Add_bytes d => PayloadParser.Read_bytes (len d)
  end.

Definition read_back `{FC : FloatCodec} (c : PayloadBuilder.call)
  : option PayloadParser.value :=
  match c with
  | PayloadBuilder.Add_uint8 v => Some (PayloadParser.Int (v mod 256))
  | PayloadBuilder.Add_uint16 v => Some (PayloadParser.Int v)
  | PayloadBuilder.Add_int16 v => Some (PayloadParser.Int v)
  | PayloadBuilder.Add_int32 v => Some (PayloadParser.Int v)
  | PayloadBuilder.Add_float v =>
      (fun bs => PayloadParser.Float (decode_f32 bs)) <$> encode_f32 v
  | PayloadBuilder.Add_string v => Some (PayloadParser.Str v)
  | PayloadBuilder.Add_bytes d => Some (PayloadParser.Bytes d)
  end.

(** ** The bytes of a value *)

(** The integer a byte sequence spells, most significant byte first. *)
Definition big_endian (bs : list byte) : Z :=
  fold_left (fun acc b => 256 * acc + byte_to_Z b) bs 0.

(** What the bytes of an appended value are, by format: a fixed-width
    integer is its two's-complement representation on that many bytes,
    big-endian, and has to be a value of the format ([add_uint8] takes
    any integer and keeps its low eight bits); a float is its
    single-precision bytes; a string is one length byte followed by its
    UTF-8 bytes, at most 255 of them; a byte span is itself. *)
Definition value_bytes `{FC : FloatCodec} (c : PayloadBuilder.call)
    (written : list byte) : Prop :=
  match c with
  | PayloadBuilder.Add_uint8 v =>
      len written = 1 /\ big_endian written = v mod 2 ^ 8
  | PayloadBuilder.Add_uint16 v =>
      len written = 2 /\ big_endian written = v /\ 0 <= v < 2 ^ 16
  | PayloadBuilder.Add_int16 v =>
      len written = 2 /\ big_endian written = v mod 2 ^ 16
      /\ - 2 ^ 15 <= v < 2 ^ 15
  | PayloadBuilder.Add_int32 v =>
      len written = 4 /\ big_endian written = v mod 2 ^ 32
      /\ - 2 ^ 31 <= v < 2 ^ 31
  | PayloadBuilder.Add_float v => encode_f32 v = Some written
  | PayloadBuilder.Add_string v =>
      exists n encoded,
        utf8_encode v = Ok encoded /\ len encoded <= 255
        /\ byte_to_Z n = len encoded /\ written = n :: encoded
  | PayloadBuilder.Add_bytes d => written = d
  end.

(** A code point that UTF-8 can encode: U+0000..U+10FFFF without the
    surrogates U+D800..U+DFFF. *)
Definition is_scalar_value (c : Z) : bool :=
  ((0 <=? c) && (c <? 0xD800)) || ((0xDFFF <? c) && (c <=? 0x10FFFF)).

(** ** One round of the checksum, backwards *)

(** The register before a round, from the register after it: the low bit
    after the round tells whether the polynomial was XORed in. *)
Definition crc16_unround (crc : Z) : Z :=
  if Z.odd crc then Z.shiftr (Z.lxor crc 0x1021) 1 + 0x8000
  else Z.shiftr crc 1.

(** * Properties *)

(** ** Bytes and integers *)

Lemma byte_to_Z_range (b : byte) : 0 <= byte_to_Z b < 256.
Proof.
  unfold byte_to_Z. pose proof (Byte.to_N_bounded b). lia.
Qed.

Lemma byte_of_to_Z (b : byte) : byte_of_Z (byte_to_Z b) = Some b.
Proof.
  unfold byte_of_Z, byte_to_Z.
  destruct (Z.leb_spec 0 (Z.of_N (Byte.to_N b))); [| lia].
  rewrite N2Z.id. apply Byte.of_to_N.
Qed.

Lemma byte_to_of_Z (z : Z) (b : byte) : byte_of_Z z = Some b -> byte_to_Z b = z.
Proof.
  unfold byte_of_Z, byte_to_Z.
  destruct (Z.leb_spec 0 z); [| discriminate].
  intros Hb. apply Byte.to_of_N in Hb. rewrite Hb. lia.
Qed.

Lemma byte_of_Z_in_range (z : Z) :
  0 <= z < 256 -> exists b, byte_of_Z z = Some b /\ byte_to_Z b = z.
Proof.
  intros Hz. destruct (byte_of_Z z) as [b |] eqn:Hb.
  - exists b. split; [reflexivity | now apply byte_to_of_Z].
  - exfalso. unfold byte_of_Z in Hb.
    destruct (Z.leb_spec 0 z); [| lia].
    apply Byte.of_N_None_iff in Hb. lia.
Qed.

Lemma byte_of_Z_out_of_range (z : Z) :
  ~ 0 <= z < 256 -> byte_of_Z z = None.
Proof.
  intros Hz. unfold byte_of_Z. destruct (Z.leb_spec 0 z); [| reflexivity].
  apply Byte.of_N_None_iff. lia.
Qed.

Lemma land_255 (z : Z) : Z.land z 0xFF = z mod 256.
Proof. change 0xFF with (Z.ones 8). rewrite Z.land_ones by lia. reflexivity. Qed.

Lemma byte_to_Z_low8 (z : Z) : byte_to_Z (byte_of_low8 z) = z mod 256.
Proof.
  unfold byte_of_low8. rewrite land_255.
  destruct (byte_of_Z_in_range (z mod 256)) as (b & Hb & Hv).
  - apply Z.mod_pos_bound. lia.
  - rewrite Hb. exact Hv.
Qed.

Lemma byte_to_Z_low8_small (z : Z) :
  0 <= z < 256 -> byte_to_Z (byte_of_low8 z) = z.
Proof. intros Hz. rewrite byte_to_Z_low8. apply Z.mod_small. exact Hz. Qed.

Lemma byte_of_low8_to_Z (b : byte) : byte_of_low8 (byte_to_Z b) = b.
Proof.
  unfold byte_of_low8. rewrite land_255.
  rewrite Z.mod_small by apply byte_to_Z_range.
  now rewrite byte_of_to_Z.
Qed.

Lemma byte_to_Z_inj (a b : byte) : byte_to_Z a = byte_to_Z b -> a = b.
Proof.
  intros H. rewrite <- (byte_of_low8_to_Z a), <- (byte_of_low8_to_Z b).
  now rewrite H.
Qed.

(** ** The checksum *)

Lemma land_high_bit (c : Z) :
  (Z.land c 0x8000 =? 0) = negb (Z.testbit c 15).
Proof.
  assert (H : Z.land c 0x8000 = if Z.testbit c 15 then 0x8000 else 0).
  { apply Z.bits_inj'. intros n Hn.
    rewrite Z.land_spec. change 0x8000 with (2 ^ 15).
    destruct (Z.testbit c 15) eqn:Hc.
    - rewrite Z.pow2_bits_eqb by lia.
      destruct (Z.eqb_spec 15 n) as [<- | Hne].
      + now rewrite Hc.
      + apply andb_false_r.
    - rewrite Z.bits_0, Z.pow2_bits_eqb by lia.
      destruct (Z.eqb_spec 15 n) as [<- | Hne].
      + now rewrite Hc.
      + apply andb_false_r. }
  rewrite H. now destruct (Z.testbit c 15).
Qed.

Lemma crc16_round_ref (c : Z) : crc16_round c = CCITT_FALSE.round c.
Proof.
  unfold crc16_round, CCITT_FALSE.round, CCITT_FALSE.high_bit, CCITT_FALSE.poly.
  rewrite land_high_bit, negb_involutive.
  change 0xFFFF with (Z.ones 16).
  rewrite !Z.land_ones by lia.
  rewrite Z.shiftl_mul_pow2 by lia.
  change (2 ^ 1) with 2. rewrite (Z.mul_comm c 2).
  now destruct (Z.testbit c 15).
Qed.

Lemma crc16_round_range (c : Z) : 0 <= crc16_round c < 65536.
Proof.
  unfold crc16_round. change 0xFFFF with (Z.ones 16).
  rewrite Z.land_ones by lia. apply Z.mod_pos_bound. lia.
Qed.

Lemma crc16_byte_ref (c : Z) (b : byte) : crc16_byte c b = CCITT_FALSE.feed c b.
Proof.
  unfold crc16_byte, CCITT_FALSE.feed. simpl Nat.iter.
  rewrite Z.shiftl_mul_pow2 by lia.
  now rewrite !crc16_round_ref.
Qed.

Lemma crc16_byte_range (c : Z) (b : byte) : 0 <= crc16_byte c b < 65536.
Proof. unfold crc16_byte. simpl Nat.iter. apply crc16_round_range. Qed.

Lemma crc16_fold_ref (data : list byte) (c : Z) :
  fold_left crc16_byte data c = CCITT_FALSE.run c data.
Proof.
  revert c. induction data as [| b rest IH]; intros c; simpl.
  - reflexivity.
  - rewrite IH. now rewrite crc16_byte_ref.
Qed.

Lemma crc16_fold_range (data : list byte) (c : Z) :
  0 <= c < 65536 -> 0 <= fold_left crc16_byte data c < 65536.
Proof.
  revert c. induction data as [| b rest IH]; intros c Hc; simpl.
  - exact Hc.
  - apply IH, crc16_byte_range.
Qed.

Lemma crc16_ccitt_range (data : list byte) : 0 <= crc16_ccitt data < 65536.
Proof. apply crc16_fold_range. lia. Qed.

(** The published check value of CRC-16/CCITT-FALSE: the checksum of the
    ASCII digits 1 to 9 is 0x29B1. *)
Example crc16_ccitt_check_value :
  crc16_ccitt [x31; x32; x33; x34; x35; x36; x37; x38; x39] = 0x29B1.
Proof. reflexivity. Qed.

(** C3. [crc16_ccitt] is a total function of its input bytes: on every
    byte sequence, the empty one included, it yields a 16-bit value, and
    that value is the one the CRC-16/CCITT-FALSE reference definition
    gives (register 0xFFFF at the start, byte XORed into the high byte,
    eight rounds of shift-left with the conditional XOR of 0x1021, 16 bits
    kept after every round, nothing reflected, no final XOR). *)
Theorem crc16_ccitt_is_ccitt_false (data : list byte) :
  crc16_ccitt data = CCITT_FALSE.checksum data
  /\ 0 <= crc16_ccitt data < 2 ^ 16
  /\ crc16_ccitt [] = 0xFFFF.
Proof.
  split; [| split].
  - apply crc16_fold_ref.
  - apply crc16_ccitt_range.
  - reflexivity.
Qed.

(** ** Sequences: lengths, indexing, slices *)

Lemma len_nil {A} : len (@nil A) = 0.
Proof. reflexivity. Qed.

Lemma len_cons {A} (x : A) (l : list A) : len (x :: l) = 1 + len l.
Proof. unfold len. simpl length. lia. Qed.

Lemma len_app {A} (l1 l2 : list A) : len (l1 ++ l2) = len l1 + len l2.
Proof. unfold len. rewrite length_app. lia. Qed.

Lemma len_nonneg {A} (l : list A) : 0 <= len l.
Proof. unfold len. lia. Qed.

Create Rewrite HintDb len.
#[global] Hint Rewrite @len_nil @len_cons @len_app : len.

Ltac len_lia :=
  autorewrite with len in *;
  repeat match goal with
         | |- context [len ?l] =>
             lazymatch goal with
             | _ : 0 <= len l |- _ => fail
             | _ => pose proof (len_nonneg l)
             end
         | _ : context [len ?l] |- _ =>
             lazymatch goal with
             | _ : 0 <= len l |- _ => fail
             | _ => pose proof (len_nonneg l)
             end
         end;
  lia.

Lemma py_clamp_inside (n i : Z) : 0 <= i <= n -> py_clamp n i = i.
Proof.
  intros Hi. unfold py_clamp.
  destruct (Z.ltb_spec i 0); lia.
Qed.

Lemma py_slice_inside {A} (l : list A) (lo hi : Z) :
  0 <= lo -> lo <= hi -> hi <= len l ->
  py_slice l lo hi = take (Z.to_nat (hi - lo)) (drop (Z.to_nat lo) l).
Proof.
  intros Hlo Hle Hhi. unfold py_slice.
  now rewrite !py_clamp_inside by lia.
Qed.

Lemma py_slice_app_mid {A} (pre mid post : list A) (lo hi : Z) :
  lo = len pre -> hi = len pre + len mid ->
  py_slice (pre ++ mid ++ post) lo hi = mid.
Proof.
  intros -> ->. rewrite py_slice_inside by len_lia.
  replace (Z.to_nat (len pre)) with (length pre) by (unfold len; lia).
  replace (Z.to_nat (len pre + len mid - len pre)) with (length mid)
    by (unfold len; lia).
  rewrite drop_app_length. apply take_app_length.
Qed.

Lemma py_slice_length {A} (l : list A) (lo hi : Z) :
  0 <= lo -> lo <= hi -> hi <= len l -> len (py_slice l lo hi) = hi - lo.
Proof.
  intros Hlo Hle Hhi. rewrite py_slice_inside by assumption.
  unfold len in *. rewrite length_take, length_drop. lia.
Qed.

Lemma py_getitem_lookup (l : list byte) (i : Z) (b : byte) :
  0 <= i -> l !! Z.to_nat i = Some b -> py_getitem l i = Ok (byte_to_Z b).
Proof.
  intros Hi Hb. unfold py_getitem.
  pose proof (lookup_lt_Some _ _ _ Hb) as Hlt.
  destruct (Z.ltb_spec i 0); [lia |].
  destruct (Z.ltb_spec i 0); [lia |].
  destruct (Z.leb_spec (len l) i); [unfold len in *; lia |].
  simpl. now rewrite Hb.
Qed.

Lemma py_getitem_inside (l : list byte) (i : Z) :
  0 <= i < len l -> exists b, l !! Z.to_nat i = Some b /\ py_getitem l i = Ok (byte_to_Z b).
Proof.
  intros Hi.
  destruct (lookup_lt_is_Some_2 l (Z.to_nat i)) as [b Hb];
    [unfold len in *; lia |].
  exists b. split; [exact Hb | apply py_getitem_lookup; [lia | exact Hb]].
Qed.

(** ** struct: packing and unpacking *)

Lemma pack_H_bytes (v : Z) :
  0 <= v <= 0xFFFF ->
  exists b0 b1, pack_H v = Ok [b0; b1] /\ 256 * byte_to_Z b0 + byte_to_Z b1 = v.
Proof.
  intros Hv. unfold pack_H.
  destruct (Z.leb_spec 0 v); [| lia].
  destruct (Z.leb_spec v 0xFFFF); [| lia].
  simpl. eexists _, _. split; [reflexivity |].
  rewrite !byte_to_Z_low8, Z.shiftr_div_pow2 by lia.
  change (2 ^ 8) with 256. Z.div_mod_to_equations. lia.
Qed.

Lemma unpack_pack_H (v : Z) :
  0 <= v <= 0xFFFF -> (pack_H v ≫= unpack_H) = Ok v.
Proof.
  intros Hv. destruct (pack_H_bytes v Hv) as (b0 & b1 & -> & Hval).
  simpl. now rewrite Hval.
Qed.

Lemma pack_h_bytes (v : Z) :
  -0x8000 <= v <= 0x7FFF ->
  exists b0 b1, pack_h v = Ok [b0; b1]
    /\ 256 * byte_to_Z b0 + byte_to_Z b1 = v mod 0x10000.
Proof.
  intros Hv. unfold pack_h.
  destruct (Z.leb_spec (-0x8000) v); [| lia].
  destruct (Z.leb_spec v 0x7FFF); [| lia].
  simpl. eexists _, _. split; [reflexivity |].
  rewrite !byte_to_Z_low8, Z.shiftr_div_pow2 by lia.
  change (2 ^ 8) with 256. Z.div_mod_to_equations. lia.
Qed.

Lemma unpack_pack_h (v : Z) :
  -0x8000 <= v <= 0x7FFF -> (pack_h v ≫= unpack_h) = Ok v.
Proof.
  intros Hv. destruct (pack_h_bytes v Hv) as (b0 & b1 & -> & Hval).
  simpl. rewrite Hval. f_equal.
  destruct (Z.leb_spec 0x8000 (v mod 0x10000)); Z.div_mod_to_equations; lia.
Qed.

(** ** Frames *)

Lemma result_bind_Ok {A B} (a : A) (f : A -> result B) : (Ok a ≫= f) = f a.
Proof. reflexivity. Qed.

Lemma result_bind_Raise {A B} (e : exn) (f : A -> result B) :
  (Raise e ≫= f) = Raise e.
Proof. reflexivity. Qed.

(** What [decode_frame] does on a buffer laid out as four header bytes, a
    payload of the declared length, two checksum bytes and anything
    after them. *)
Lemma decode_frame_layout (b0 b1 b2 b3 : byte) (payload : list byte)
    (c0 c1 : byte) (extra : list byte) :
  256 * byte_to_Z b2 + byte_to_Z b3 = len payload ->
  decode_frame (b0 :: b1 :: b2 :: b3 :: payload ++ c0 :: c1 :: extra)
  = Ok (if (byte_to_Z b0 =? PROTO_START_BYTE)
           && (256 * byte_to_Z c0 + byte_to_Z c1
               =? crc16_ccitt (b1 :: b2 :: b3 :: payload))
        then Some (byte_to_Z b1, payload)
        else None).
Proof.
  intros HL. unfold decode_frame.
  set (data := b0 :: b1 :: b2 :: b3 :: payload ++ c0 :: c1 :: extra).
  assert (Hlen : len data = 6 + len payload + len extra)
    by (subst data; len_lia).
  destruct (Z.ltb_spec (len data) 6); [len_lia |].
  rewrite (py_getitem_lookup data 0 b0) by (reflexivity || lia).
  rewrite result_bind_Ok.
  destruct (Z.eqb_spec (byte_to_Z b0) PROTO_START_BYTE) as [H0 | H0];
    [| reflexivity].
  cbn [negb andb].
  rewrite (py_getitem_lookup data 1 b1) by (reflexivity || lia).
  rewrite result_bind_Ok.
  replace (py_slice data 2 4) with [b2; b3]
    by (symmetry; apply (py_slice_app_mid [b0; b1] [b2; b3]); reflexivity).
  cbn [unpack_H]. rewrite result_bind_Ok, HL.
  destruct (Z.ltb_spec (len data) (6 + len payload)); [len_lia |].
  replace (py_slice data (4 + len payload) (6 + len payload)) with [c0; c1]
    by (symmetry;
        apply (py_slice_app_mid (b0 :: b1 :: b2 :: b3 :: payload) [c0; c1]
                 extra); len_lia).
  cbn [unpack_H]. rewrite result_bind_Ok.
  replace (py_slice data 1 (4 + len payload)) with (b1 :: b2 :: b3 :: payload)
    by (symmetry;
        apply (py_slice_app_mid [b0] (b1 :: b2 :: b3 :: payload)
                 (c0 :: c1 :: extra)); len_lia).
  replace (py_slice data 4 (4 + len payload)) with payload
    by (symmetry;
        apply (py_slice_app_mid [b0; b1; b2; b3] payload
                 (c0 :: c1 :: extra)); len_lia).
  now destruct (_ =? _).
Qed.

Lemma decode_frame_short (data : list byte) :
  len data < 6 -> decode_frame data = Ok None.
Proof.
  intros H. unfold decode_frame.
  destruct (Z.ltb_spec (len data) 6); [reflexivity | lia].
Qed.

Lemma decode_frame_truncated (data : list byte) :
  6 <= len data -> len data < 6 + Wire.declared_length data ->
  decode_frame data = Ok None.
Proof.
  intros H6 HL.
  destruct data as [| b0 [| b1 [| b2 [| b3 rest]]]];
    try (exfalso; len_lia).
  unfold Wire.declared_length, Wire.byte_at in HL. cbn [nth] in HL.
  unfold decode_frame.
  set (data := b0 :: b1 :: b2 :: b3 :: rest) in *.
  destruct (Z.ltb_spec (len data) 6); [lia |].
  rewrite (py_getitem_lookup data 0 b0) by (reflexivity || lia).
  rewrite result_bind_Ok.
  destruct (negb (byte_to_Z b0 =? PROTO_START_BYTE)); [reflexivity |].
  rewrite (py_getitem_lookup data 1 b1) by (reflexivity || lia).
  rewrite result_bind_Ok.
  replace (py_slice data 2 4) with [b2; b3]
    by (symmetry; apply (py_slice_app_mid [b0; b1] [b2; b3]); reflexivity).
  cbn [unpack_H]. rewrite result_bind_Ok.
  destruct (Z.ltb_spec (len data) (6 + (256 * byte_to_Z b2 + byte_to_Z b3)));
    [reflexivity | lia].
Qed.

(** A buffer long enough for its declared length splits into header,
    payload, checksum and rest. *)
Lemma buffer_layout (data : list byte) :
  6 <= len data -> 6 + Wire.declared_length data <= len data ->
  exists b0 b1 b2 b3 payload c0 c1 extra,
    data = b0 :: b1 :: b2 :: b3 :: payload ++ c0 :: c1 :: extra
    /\ 256 * byte_to_Z b2 + byte_to_Z b3 = len payload.
Proof.
  intros H6 HL.
  destruct data as [| b0 [| b1 [| b2 [| b3 rest]]]];
    try (exfalso; len_lia).
  unfold Wire.declared_length, Wire.byte_at in HL. cbn [nth] in HL.
  set (L := 256 * byte_to_Z b2 + byte_to_Z b3) in *.
  assert (HL0 : 0 <= L)
    by (pose proof (byte_to_Z_range b2); pose proof (byte_to_Z_range b3);
        subst L; lia).
  assert (Hrest : L + 2 <= len rest) by len_lia.
  pose proof (take_drop (Z.to_nat L) rest) as Hsplit.
  assert (Htake : len (take (Z.to_nat L) rest) = L)
    by (unfold len in *; rewrite length_take; lia).
  assert (Hdrop : 2 <= len (drop (Z.to_nat L) rest))
    by (unfold len in *; rewrite length_drop; lia).
  destruct (drop (Z.to_nat L) rest) as [| c0 [| c1 extra]];
    try (exfalso; len_lia).
  exists b0, b1, b2, b3, (take (Z.to_nat L) rest), c0, c1, extra.
  split; [now rewrite Hsplit | now rewrite Htake].
Qed.

(** The wire-format fields of a buffer with that layout. *)
Lemma wire_fields_layout (b0 b1 b2 b3 : byte) (payload : list byte)
    (c0 c1 : byte) (extra : list byte) :
  256 * byte_to_Z b2 + byte_to_Z b3 = len payload ->
  let data := b0 :: b1 :: b2 :: b3 :: payload ++ c0 :: c1 :: extra in
  Wire.start_marker data = byte_to_Z b0
  /\ Wire.command_id data = byte_to_Z b1
  /\ Wire.declared_length data = len payload
  /\ Wire.payload data = payload
  /\ Wire.checksum data = 256 * byte_to_Z c0 + byte_to_Z c1
  /\ Wire.checksummed data = b1 :: b2 :: b3 :: payload.
Proof.
  intros HL data.
  assert (HD : Wire.declared_length data = len payload) by exact HL.
  assert (Hn : Z.to_nat (len payload) = length payload)
    by (unfold len; lia).
  repeat split; try reflexivity; try exact HL.
  - unfold Wire.payload. rewrite HD, Hn. subst data. cbn [skipn].
    apply take_app_length.
  - unfold Wire.checksum. rewrite HD, Hn. unfold Wire.byte_at. subst data.
    cbn [nth Nat.add].
    rewrite !app_nth2 by lia.
    replace (length payload - length payload)%nat with 0%nat by lia.
    replace (S (length payload) - length payload)%nat with 1%nat by lia.
    reflexivity.
  - unfold Wire.checksummed. rewrite HD, Hn. subst data. cbn [skipn Nat.add firstn].
    do 3 f_equal. apply take_app_length.
Qed.

Lemma decode_frame_cases (data : list byte) :
  (Wire.malformed data /\ decode_frame data = Ok None)
  \/ (~ Wire.malformed data
      /\ decode_frame data
         = Ok (Some (Wire.command_id data, Wire.payload data))).
Proof.
  destruct (Z.lt_ge_cases (len data) 6) as [H6 | H6].
  { left. split; [now left | now apply decode_frame_short]. }
  destruct (Z.lt_ge_cases (len data) (6 + Wire.declared_length data))
    as [HL | HL].
  { left. split; [now right; right; left | now apply decode_frame_truncated]. }
  destruct (buffer_layout data H6 HL)
    as (b0 & b1 & b2 & b3 & payload & c0 & c1 & extra & -> & Hdecl).
  destruct (wire_fields_layout b0 b1 b2 b3 payload c0 c1 extra Hdecl)
    as (Hs & Hc & Hd & Hp & Hk & Hr).
  rewrite (decode_frame_layout _ _ _ _ _ _ _ _ Hdecl).
  unfold Wire.malformed. rewrite Hs, Hc, Hd, Hp, Hk, Hr.
  unfold PROTO_START_BYTE.
  destruct (Z.eqb_spec (byte_to_Z b0) 0xAA) as [E0 | E0];
    [| left; split; [tauto | reflexivity]].
  destruct (Z.eqb_spec (256 * byte_to_Z c0 + byte_to_Z c1)
              (crc16_ccitt (b1 :: b2 :: b3 :: payload))) as [E1 | E1].
  - right. split; [| reflexivity].
    intros [H | [H | [H | H]]]; lia.
  - left. split; [| reflexivity].
    right; right; right. intros H. now apply E1.
Qed.

(** C2. [decode_frame] never raises. It returns [None] exactly when the
    input is malformed: fewer than 6 bytes, or a first byte other than
    0xAA, or a declared payload length N with 6 + N beyond the end of the
    buffer, or a CRC-16 of bytes [1 .. 4+N) that differs from the two
    big-endian checksum bytes after the payload. In every other case it
    returns the command id and the payload. *)
Theorem decode_frame_rejects_exactly_malformed (data : list byte) :
  returns (decode_frame data)
  /\ (decode_frame data = Ok None <-> Wire.malformed data)
  /\ (~ Wire.malformed data ->
      decode_frame data = Ok (Some (Wire.command_id data, Wire.payload data))).
Proof.
  destruct (decode_frame_cases data) as [[Hm Hd] | [Hm Hd]]; rewrite Hd.
  - split; [now eexists |]. split; [tauto | tauto].
  - split; [now eexists |]. split; [| reflexivity].
    split; [discriminate | tauto].
Qed.

Lemma decode_frame_rejects_exactly_malformed_witness :
  let ping := [xaa; x01; x00; x00; xfb; xac] in
  ~ Wire.malformed ping
  /\ decode_frame ping = Ok (Some (Wire.command_id ping, Wire.payload ping))
  /\ Wire.malformed [xaa; x01; x00]
  /\ decode_frame [xaa; x01; x00] = Ok None.
Proof.
  intros ping.
  assert (Hwf : ~ Wire.malformed ping)
    by (intros [H | [H | [H | H]]]; vm_compute in H;
        (discriminate H || now apply H)).
  assert (Hbad : Wire.malformed [xaa; x01; x00]) by (left; reflexivity).
  split; [exact Hwf |]. split; [| split; [exact Hbad |]].
  - apply (decode_frame_rejects_exactly_malformed ping), Hwf.
  - apply (decode_frame_rejects_exactly_malformed [xaa; x01; x00]), Hbad.
Defined.

Lemma bytearray_append_in_range (buf : list byte) (v : Z) :
  0 <= v < 256 ->
  exists b, bytearray_append buf v = Ok (buf ++ [b]) /\ byte_to_Z b = v.
Proof.
  intros Hv. unfold bytearray_append.
  destruct (byte_of_Z_in_range v Hv) as (b & -> & Hb). now exists b.
Qed.

(** The frame [encode_frame] builds for an in-range command id and a
    payload within the limit. *)
Lemma encode_frame_layout (command_id : Z) (payload : list byte) :
  0 <= command_id < 256 -> len payload <= PROTO_MAX_PAYLOAD ->
  exists b1 b2 b3 c0 c1,
    encode_frame command_id payload
    = Ok (xaa :: b1 :: b2 :: b3 :: payload ++ [c0; c1])
    /\ byte_to_Z b1 = command_id
    /\ 256 * byte_to_Z b2 + byte_to_Z b3 = len payload
    /\ 256 * byte_to_Z c0 + byte_to_Z c1
       = crc16_ccitt (b1 :: b2 :: b3 :: payload).
Proof.
  intros Hid Hlen. unfold PROTO_MAX_PAYLOAD in Hlen.
  pose proof (len_nonneg payload) as Hnn.
  unfold encode_frame, PROTO_MAX_PAYLOAD, PROTO_START_BYTE.
  destruct (Z.ltb_spec 1024 (len payload)); [lia |].
  destruct (bytearray_append_in_range [] command_id Hid) as (b1 & -> & Hb1).
  rewrite result_bind_Ok.
  destruct (pack_H_bytes (len payload)) as (b2 & b3 & -> & Hb23); [lia |].
  rewrite result_bind_Ok.
  change (bytearray_append [] 170) with (Ok (A := list byte) [xaa]).
  rewrite result_bind_Ok.
  destruct (bytearray_append_in_range [xaa] command_id Hid)
    as (b1' & -> & Hb1').
  rewrite result_bind_Ok.
  assert (b1' = b1) as -> by (apply byte_to_Z_inj; congruence).
  rewrite result_bind_Ok.
  cbn [app].
  destruct (pack_H_bytes (crc16_ccitt (b1 :: b2 :: b3 :: payload)))
    as (c0 & c1 & -> & Hc);
    [pose proof (crc16_ccitt_range (b1 :: b2 :: b3 :: payload)); lia |].
  rewrite result_bind_Ok.
  now exists b1, b2, b3, c0, c1.
Qed.

(** C1. For every command id that fits in one byte and every payload of
    at most 1024 bytes, [encode_frame] returns a frame and [decode_frame]
    of that frame returns the original command id and payload. *)
Theorem decode_encode_frame (command_id : Z) (payload : list byte) :
  0 <= command_id < 256 -> len payload <= 1024 ->
  exists frame,
    encode_frame command_id payload = Ok frame
    /\ decode_frame frame = Ok (Some (command_id, payload)).
Proof.
  intros Hid Hlen.
  destruct (encode_frame_layout command_id payload Hid Hlen)
    as (b1 & b2 & b3 & c0 & c1 & Henc & Hb1 & Hb23 & Hcrc).
  eexists. split; [exact Henc |].
  rewrite (decode_frame_layout xaa b1 b2 b3 payload c0 c1 [] Hb23).
  rewrite Hcrc, Hb1, !Z.eqb_refl. reflexivity.
Qed.

Lemma decode_encode_frame_witness :
  0 <= CMD_PING < 256 /\ len (@nil byte) <= 1024
  /\ exists frame,
       encode_frame CMD_PING [] = Ok frame
       /\ decode_frame frame = Ok (Some (CMD_PING, [])).
Proof.
  split; [unfold CMD_PING; lia |].
  split; [vm_compute; discriminate |].
  apply (decode_encode_frame CMD_PING []).
  - unfold CMD_PING; lia.
  - vm_compute; discriminate.
Defined.

(** C10. [decode_frame] does not require the buffer to end with the
    frame: when a buffer decodes to a command id and payload, the same
    buffer followed by any further bytes decodes to the same pair. *)
Theorem decode_frame_ignores_trailing_bytes
    (data extra : list byte) (frame : Z * list byte) :
  decode_frame data = Ok (Some frame) ->
  decode_frame (data ++ extra) = Ok (Some frame).
Proof.
  intros Hdec.
  destruct (decode_frame_cases data) as [[_ Hnone] | [Hwf _]];
    [congruence |].
  assert (H6 : 6 <= len data) by (unfold Wire.malformed in Hwf; lia).
  assert (HL : 6 + Wire.declared_length data <= len data)
    by (unfold Wire.malformed in Hwf; lia).
  destruct (buffer_layout data H6 HL)
    as (b0 & b1 & b2 & b3 & payload & c0 & c1 & rest & -> & Hdecl).
  rewrite (decode_frame_layout _ _ _ _ _ _ _ _ Hdecl) in Hdec.
  change ((b0 :: b1 :: b2 :: b3 :: payload ++ c0 :: c1 :: rest) ++ extra)
    with (b0 :: b1 :: b2 :: b3 :: (payload ++ c0 :: c1 :: rest) ++ extra).
  rewrite <- app_assoc. cbn [app].
  rewrite (decode_frame_layout _ _ _ _ _ _ _ _ Hdecl).
  exact Hdec.
Qed.

Lemma decode_frame_ignores_trailing_bytes_witness :
  decode_frame [xaa; x01; x00; x00; xfb; xac] = Ok (Some (1, []))
  /\ decode_frame ([xaa; x01; x00; x00; xfb; xac] ++ [xde; xad; xbe; xef])
     = Ok (Some (1, [])).
Proof.
  split; [reflexivity |].
  apply (decode_frame_ignores_trailing_bytes
           [xaa; x01; x00; x00; xfb; xac] [xde; xad; xbe; xef] (1, [])).
  reflexivity.
Defined.

(** C4 as stated fails: a payload of 1025 bytes makes [encode_frame]
    raise; it does not return to its caller. *)
Lemma encode_frame_oversized_does_not_return :
  PROTO_MAX_PAYLOAD < len (replicate 1025 x00)
  /\ raises (encode_frame CMD_PING (replicate 1025 x00))
  /\ ~ returns (encode_frame CMD_PING (replicate 1025 x00)).
Proof.
  split; [reflexivity |].
  assert (H : encode_frame CMD_PING (replicate 1025 x00) = Raise ValueError)
    by (vm_compute; reflexivity).
  rewrite H. split; [now exists ValueError |].
  intros [v Hv]. discriminate.
Qed.

(** C4, amended. For every payload longer than 1024 bytes and every
    command id, [encode_frame] raises ValueError: the oversized payload
    is reported to the caller as an exception, and no frame is built. *)
Theorem encode_frame_oversized_raises (command_id : Z) (payload : list byte) :
  PROTO_MAX_PAYLOAD < len payload ->
  encode_frame command_id payload = Raise ValueError.
Proof.
  intros H. unfold encode_frame.
  destruct (Z.ltb_spec PROTO_MAX_PAYLOAD (len payload)); [reflexivity | lia].
Qed.

Lemma encode_frame_oversized_raises_witness :
  PROTO_MAX_PAYLOAD < len (replicate 1025 xff)
  /\ encode_frame CMD_LED_SET (replicate 1025 xff) = Raise ValueError.
Proof.
  split; [reflexivity |].
  apply (encode_frame_oversized_raises CMD_LED_SET (replicate 1025 xff)).
  reflexivity.
Defined.

(** ** Text *)

Lemma is_continuation_true (ch : Z) :
  0x80 <= ch < 0xC0 -> is_continuation ch = true.
Proof.
  intros H. unfold is_continuation.
  destruct (Z.leb_spec 0x80 ch); [| lia].
  destruct (Z.ltb_spec ch 0xC0); [reflexivity | lia].
Qed.

Ltac decide_ltb :=
  repeat match goal with
         | |- context [?a <? ?b] => destruct (Z.ltb_spec a b); try lia
         | |- context [?a =? ?b] => destruct (Z.eqb_spec a b); try lia
         end.

Lemma utf8_decode_1 (b1 : byte) (s : list byte) :
  byte_to_Z b1 < 0x80 ->
  utf8_decode_replace (b1 :: s) = byte_to_Z b1 :: utf8_decode_replace s.
Proof.
  intros H1. rewrite utf8_decode_replace_equation.
  destruct (Z.ltb_spec (byte_to_Z b1) 0x80); [reflexivity | lia].
Qed.

Lemma utf8_decode_2 (b1 b2 : byte) (s : list byte) :
  0xC2 <= byte_to_Z b1 < 0xE0 -> 0x80 <= byte_to_Z b2 < 0xC0 ->
  utf8_decode_replace (b1 :: b2 :: s)
  = (byte_to_Z b1 * 64 + byte_to_Z b2 - (0xC0 * 64 + 0x80))
    :: utf8_decode_replace s.
Proof.
  intros H1 H2. rewrite utf8_decode_replace_equation.
  rewrite (is_continuation_true _ H2). cbn [negb].
  decide_ltb. reflexivity.
Qed.

Lemma utf8_decode_3 (b1 b2 b3 : byte) (s : list byte) :
  0xE0 <= byte_to_Z b1 < 0xF0 ->
  0x80 <= byte_to_Z b2 < 0xC0 -> 0x80 <= byte_to_Z b3 < 0xC0 ->
  (byte_to_Z b1 = 0xE0 -> 0xA0 <= byte_to_Z b2) ->
  (byte_to_Z b1 = 0xED -> byte_to_Z b2 < 0xA0) ->
  utf8_decode_replace (b1 :: b2 :: b3 :: s)
  = (byte_to_Z b1 * 4096 + byte_to_Z b2 * 64 + byte_to_Z b3
     - (0xE0 * 4096 + 0x80 * 64 + 0x80))
    :: utf8_decode_replace s.
Proof.
  intros H1 H2 H3 HE0 HED. rewrite utf8_decode_replace_equation.
  rewrite (is_continuation_true _ H2), (is_continuation_true _ H3).
  cbn [negb orb].
  decide_ltb; reflexivity.
Qed.

Lemma utf8_decode_4 (b1 b2 b3 b4 : byte) (s : list byte) :
  0xF0 <= byte_to_Z b1 < 0xF5 ->
  0x80 <= byte_to_Z b2 < 0xC0 -> 0x80 <= byte_to_Z b3 < 0xC0 ->
  0x80 <= byte_to_Z b4 < 0xC0 ->
  (byte_to_Z b1 = 0xF0 -> 0x90 <= byte_to_Z b2) ->
  (byte_to_Z b1 = 0xF4 -> byte_to_Z b2 < 0x90) ->
  utf8_decode_replace (b1 :: b2 :: b3 :: b4 :: s)
  = (byte_to_Z b1 * 262144 + byte_to_Z b2 * 4096 + byte_to_Z b3 * 64
     + byte_to_Z b4 - (0xF0 * 262144 + 0x80 * 4096 + 0x80 * 64 + 0x80))
    :: utf8_decode_replace s.
Proof.
  intros H1 H2 H3 H4 HF0 HF4. rewrite utf8_decode_replace_equation.
  rewrite (is_continuation_true _ H2), (is_continuation_true _ H3),
    (is_continuation_true _ H4).
  cbn [negb orb].
  decide_ltb; reflexivity.
Qed.

Ltac utf8_arith :=
  rewrite ?byte_to_Z_low8_small by (Z.div_mod_to_equations; lia);
  try f_equal; Z.div_mod_to_equations; lia.

(** Decoding the bytes of one encoded character gives the character back
    and leaves the bytes after it. *)
Lemma utf8_decode_encode_char (c : Z) (head tail : list byte) :
  utf8_encode_char c = Ok head ->
  utf8_decode_replace (head ++ tail) = c :: utf8_decode_replace tail.
Proof.
  unfold utf8_encode_char.
  destruct (Z.ltb_spec c 0); [discriminate |].
  destruct (Z.ltb_spec c 0x80).
  { intros [= <-]. cbn [app]. rewrite utf8_decode_1; utf8_arith. }
  destruct (Z.ltb_spec c 0x800).
  { intros [= <-]. cbn [app]. rewrite utf8_decode_2; utf8_arith. }
  destruct (Z.ltb_spec c 0x10000).
  { destruct (Z.leb_spec 0xD800 c); destruct (Z.leb_spec c 0xDFFF);
      cbn [andb]; try discriminate;
      intros [= <-]; cbn [app]; rewrite utf8_decode_3; utf8_arith. }
  destruct (Z.ltb_spec c 0x110000); [| discriminate].
  intros [= <-]. cbn [app]. rewrite utf8_decode_4; utf8_arith.
Qed.

Lemma utf8_decode_encode (s : list Z) (encoded : list byte) :
  utf8_encode s = Ok encoded -> utf8_decode_replace encoded = s.
Proof.
  revert encoded. induction s as [| c rest IH]; intros encoded; cbn [utf8_encode].
  - now intros [= <-].
  - destruct (utf8_encode_char c) as [head |] eqn:Hc; [| discriminate].
    rewrite result_bind_Ok.
    destruct (utf8_encode rest) as [tail |] eqn:Hrest; [| discriminate].
    rewrite result_bind_Ok. intros [= <-].
    rewrite (utf8_decode_encode_char c head tail Hc).
    now rewrite (IH tail).
Qed.

Lemma utf8_encode_char_raises (c : Z) (e : exn) :
  utf8_encode_char c = Raise e -> e = UnicodeEncodeError.
Proof.
  unfold utf8_encode_char.
  repeat match goal with
         | |- context [if ?b then _ else _] => destruct b
         end; congruence.
Qed.

Lemma utf8_encode_raises (s : list Z) (e : exn) :
  utf8_encode s = Raise e -> e = UnicodeEncodeError.
Proof.
  induction s as [| c rest IH]; cbn [utf8_encode]; [discriminate |].
  destruct (utf8_encode_char c) as [head | e1] eqn:Hc.
  - rewrite result_bind_Ok.
    destruct (utf8_encode rest) as [tail | e2]; [discriminate |].
    rewrite result_bind_Raise. intros [= <-]. now apply IH.
  - rewrite result_bind_Raise. intros [= <-].
    exact (utf8_encode_char_raises c e1 Hc).
Qed.

(** ** Running methods *)

Lemma ST_bind_Ok {S A B} (m : ST S A) (f : A -> ST S B) (s s' : S) (a : A) :
  m s = (Ok a, s') -> (m ≫= f) s = f a s'.
Proof. intros H. unfold mbind, ST_bind. now rewrite H. Qed.

Lemma ST_bind_Raise {S A B} (m : ST S A) (f : A -> ST S B) (s s' : S) (e : exn) :
  m s = (Raise e, s') -> (m ≫= f) s = (Raise e, s').
Proof. intros H. unfold mbind, ST_bind. now rewrite H. Qed.

Lemma bytearray_append_low8 (buf : list byte) (v : Z) :
  bytearray_append buf (Z.land v 0xFF) = Ok (buf ++ [byte_of_low8 v]).
Proof.
  unfold bytearray_append, byte_of_low8.
  destruct (byte_of_Z_in_range (Z.land v 0xFF)) as (b & -> & _);
    [rewrite land_255; apply Z.mod_pos_bound; lia | reflexivity].
Qed.

Lemma bytearray_append_small (buf : list byte) (v : Z) :
  0 <= v < 256 -> bytearray_append buf v = Ok (buf ++ [byte_of_low8 v]).
Proof.
  intros Hv. rewrite <- bytearray_append_low8.
  now rewrite land_255, Z.mod_small.
Qed.

Section Bytearray_facts.
Variables (h : heap) (l : loc) (buf : list byte).
Hypothesis Hbuf : h !! l = Some buf.

Lemma Bytearray_contents_eq : Bytearray.contents l h = (Ok buf, h).
Proof. unfold Bytearray.contents. now rewrite Hbuf. Qed.

Lemma Bytearray_length_eq : Bytearray.length l h = (Ok (len buf), h).
Proof.
  unfold Bytearray.length.
  now rewrite (ST_bind_Ok _ _ _ _ _ Bytearray_contents_eq).
Qed.

Lemma Bytearray_extend_eq (data : list byte) :
  Bytearray.extend l data h = (Ok tt, <[l := buf ++ data]> h).
Proof.
  unfold Bytearray.extend.
  now rewrite (ST_bind_Ok _ _ _ _ _ Bytearray_contents_eq).
Qed.

Lemma Bytearray_append_eq (v : Z) (buf' : list byte) :
  bytearray_append buf v = Ok buf' ->
  Bytearray.append l v h = (Ok tt, <[l := buf']> h).
Proof.
  intros Hv. unfold Bytearray.append.
  rewrite (ST_bind_Ok _ _ _ _ _ Bytearray_contents_eq).
  unfold lift at 1, mbind, ST_bind. now rewrite Hv.
Qed.

Lemma Bytearray_to_bytes_eq : Bytearray.to_bytes l h = (Ok buf, h).
Proof. exact Bytearray_contents_eq. Qed.
End Bytearray_facts.

(** What each append does to a builder whose buffer holds [buf]. *)
Section Builder_facts.
Context `{FC : FloatCodec}.
Variables (self : PayloadBuilder.t) (h : heap) (buf : list byte).
Hypothesis Hbuf : h !! PayloadBuilder.buffer self = Some buf.

Let l := PayloadBuilder.buffer self.
Let cap := PayloadBuilder.max_size self.

(** The shared shape of the fixed-width appends that go through
    [struct.pack]. *)
Lemma add_packed_eq (width : Z) (packed : result (list byte)) :
  (n ← Bytearray.length l;
   if cap <? n + width then mret false else
   p ← lift packed;
   _ ← Bytearray.extend l p;
   mret true) h
  = if cap <? len buf + width then (Ok false, h)
    else match packed with
         | Ok p => (Ok true, <[l := buf ++ p]> h)
         | Raise e => (Raise e, h)
         end.
Proof.
  rewrite (ST_bind_Ok _ _ _ _ _ (Bytearray_length_eq h l buf Hbuf)).
  destruct (cap <? len buf + width); [reflexivity |].
  destruct packed as [p | e]; [| reflexivity].
  rewrite (ST_bind_Ok _ _ h h p) by reflexivity.
  now rewrite (ST_bind_Ok _ _ _ _ _ (Bytearray_extend_eq h l buf Hbuf p)).
Qed.

Lemma add_uint8_eq (value : Z) :
  PayloadBuilder.add_uint8 self value h
  = if cap <? len buf + 1 then (Ok false, h)
    else (Ok true, <[l := buf ++ [byte_of_low8 value]]> h).
Proof.
  unfold PayloadBuilder.add_uint8.
  rewrite (ST_bind_Ok _ _ _ _ _ (Bytearray_length_eq h l buf Hbuf)).
  fold cap. destruct (cap <? len buf + 1); [reflexivity |].
  now rewrite (ST_bind_Ok _ _ _ _ _
                 (Bytearray_append_eq h l buf Hbuf _ _
                    (bytearray_append_low8 buf value))).
Qed.

Lemma add_int16_eq (value : Z) :
  PayloadBuilder.add_int16 self value h
  = if cap <? len buf + 2 then (Ok false, h)
    else match pack_h value with
         | Ok p => (Ok true, <[l := buf ++ p]> h)
         | Raise e => (Raise e, h)
         end.
Proof. apply add_packed_eq. Qed.

Lemma add_uint16_eq (value : Z) :
  PayloadBuilder.add_uint16 self value h
  = if cap <? len buf + 2 then (Ok false, h)
    else match pack_H value with
         | Ok p => (Ok true, <[l := buf ++ p]> h)
         | Raise e => (Raise e, h)
         end.
Proof. apply add_packed_eq. Qed.

Lemma add_int32_eq (value : Z) :
  PayloadBuilder.add_int32 self value h
  = if cap <? len buf + 4 then (Ok false, h)
    else match pack_i value with
         | Ok p => (Ok true, <[l := buf ++ p]> h)
         | Raise e => (Raise e, h)
         end.
Proof. apply add_packed_eq. Qed.

Lemma add_float_eq (value : pyfloat) :
  PayloadBuilder.add_float self value h
  = if cap <? len buf + 4 then (Ok false, h)
    else match pack_f value with
         | Ok p => (Ok true, <[l := buf ++ p]> h)
         | Raise e => (Raise e, h)
         end.
Proof. apply add_packed_eq. Qed.

Lemma add_bytes_eq (data : list byte) :
  PayloadBuilder.add_bytes self data h
  = if cap <? len buf + len data then (Ok false, h)
    else (Ok true, <[l := buf ++ data]> h).
Proof.
  unfold PayloadBuilder.add_bytes.
  rewrite (ST_bind_Ok _ _ _ _ _ (Bytearray_length_eq h l buf Hbuf)).
  fold cap. destruct (cap <? len buf + len data); [reflexivity |].
  now rewrite (ST_bind_Ok _ _ _ _ _ (Bytearray_extend_eq h l buf Hbuf data)).
Qed.

Lemma add_string_eq (value : list Z) :
  PayloadBuilder.add_string self value h
  = match utf8_encode value with
    | Raise e => (Raise e, h)
    | Ok encoded =>
        if cap <? len buf + 1 + len encoded then (Ok false, h)
        else if 255 <? len encoded then (Ok false, h)
        else (Ok true,
              <[l := buf ++ byte_of_low8 (len encoded) :: encoded]> h)
    end.
Proof.
  unfold PayloadBuilder.add_string.
  destruct (utf8_encode value) as [encoded | e]; [| reflexivity].
  rewrite (ST_bind_Ok _ _ h h encoded) by reflexivity.
  rewrite (ST_bind_Ok _ _ _ _ _ (Bytearray_length_eq h l buf Hbuf)).
  fold cap. destruct (cap <? len buf + 1 + len encoded); [reflexivity |].
  destruct (Z.ltb_spec 255 (len encoded)); [reflexivity |].
  pose proof (len_nonneg encoded).
  rewrite (ST_bind_Ok _ _ _ _ _
             (Bytearray_append_eq h l buf Hbuf _ _
                (bytearray_append_small buf (len encoded) ltac:(lia)))).
  erewrite ST_bind_Ok
    by (apply Bytearray_extend_eq; fold l; apply lookup_insert_eq).
  fold l. rewrite insert_insert_eq, <- app_assoc. reflexivity.
Qed.
End Builder_facts.

Lemma pack_H_length (v : Z) (p : list byte) : pack_H v = Ok p -> len p = 2.
Proof.
  unfold pack_H. destruct (_ && _); [| discriminate]. now intros [= <-].
Qed.

Lemma pack_h_length (v : Z) (p : list byte) : pack_h v = Ok p -> len p = 2.
Proof.
  unfold pack_h. destruct (_ && _); [| discriminate]. now intros [= <-].
Qed.

Lemma pack_i_length (v : Z) (p : list byte) : pack_i v = Ok p -> len p = 4.
Proof.
  unfold pack_i. destruct (_ && _); [| discriminate]. now intros [= <-].
Qed.

Lemma pack_f_length `{FC : FloatCodec} (v : pyfloat) (p : list byte) :
  pack_f v = Ok p -> len p = 4.
Proof.
  unfold pack_f. destruct (encode_f32 v) as [bs |] eqn:Hv; [| discriminate].
  intros [= <-]. unfold len. now rewrite (encode_f32_length v bs Hv).
Qed.

(** A successful append writes exactly the bytes of its value after the
    bytes already in the buffer, and touches no other object. *)
Lemma append_success `{FC : FloatCodec} (c : PayloadBuilder.call)
    (self : PayloadBuilder.t) (h h' : heap) (buf : list byte) :
  h !! PayloadBuilder.buffer self = Some buf ->
  PayloadBuilder.run c self h = (Ok true, h') ->
  exists written,
    h' = <[PayloadBuilder.buffer self := buf ++ written]> h
    /\ PayloadBuilder.appended_size c = Ok (len written)
    /\ len buf + len written <= PayloadBuilder.max_size self.
Proof.
  intros Hbuf.
  destruct c as [v | v | v | v | v | v | d]; cbn [PayloadBuilder.run].
  - rewrite (add_uint8_eq self h buf Hbuf).
    destruct (Z.ltb_spec (PayloadBuilder.max_size self) (len buf + 1));
      [discriminate |].
    intros [= <-]. eexists. split; [reflexivity |]. split; [reflexivity |].
    len_lia.
  - rewrite (add_uint16_eq self h buf Hbuf).
    destruct (Z.ltb_spec (PayloadBuilder.max_size self) (len buf + 2));
      [discriminate |].
    destruct (pack_H v) as [p | e] eqn:Hp; [| discriminate].
    intros [= <-]. exists p. rewrite (pack_H_length v p Hp).
    split; [reflexivity |]. split; [reflexivity | lia].
  - rewrite (add_int16_eq self h buf Hbuf).
    destruct (Z.ltb_spec (PayloadBuilder.max_size self) (len buf + 2));
      [discriminate |].
    destruct (pack_h v) as [p | e] eqn:Hp; [| discriminate].
    intros [= <-]. exists p. rewrite (pack_h_length v p Hp).
    split; [reflexivity |]. split; [reflexivity | lia].
  - rewrite (add_int32_eq self h buf Hbuf).
    destruct (Z.ltb_spec (PayloadBuilder.max_size self) (len buf + 4));
      [discriminate |].
    destruct (pack_i v) as [p | e] eqn:Hp; [| discriminate].
    intros [= <-]. exists p. rewrite (pack_i_length v p Hp).
    split; [reflexivity |]. split; [reflexivity | lia].
  - rewrite (add_float_eq self h buf Hbuf).
    destruct (Z.ltb_spec (PayloadBuilder.max_size self) (len buf + 4));
      [discriminate |].
    destruct (pack_f v) as [p | e] eqn:Hp; [| discriminate].
    intros [= <-]. exists p. rewrite (pack_f_length v p Hp).
    split; [reflexivity |]. split; [reflexivity | lia].
  - rewrite (add_string_eq self h buf Hbuf). cbn [PayloadBuilder.appended_size].
    destruct (utf8_encode v) as [encoded | e]; [| discriminate].
    destruct (Z.ltb_spec (PayloadBuilder.max_size self)
                (len buf + 1 + len encoded)); [discriminate |].
    destruct (255 <? len encoded); [discriminate |].
    intros [= <-]. eexists. split; [reflexivity |].
    rewrite result_bind_Ok, len_cons. split; [reflexivity | lia].
  - rewrite (add_bytes_eq self h buf Hbuf).
    destruct (Z.ltb_spec (PayloadBuilder.max_size self) (len buf + len d));
      [discriminate |].
    intros [= <-]. exists d. split; [reflexivity |]. split; [reflexivity | lia].
Qed.

(** A new builder owns a buffer that is empty and that no object of the
    store it was created in shares. *)
Lemma new_builder_buffer (m : Z) (h : heap) :
  exists self h',
    PayloadBuilder.new m h = (Ok self, h')
    /\ PayloadBuilder.max_size self = m
    /\ h !! PayloadBuilder.buffer self = None
    /\ h' = <[PayloadBuilder.buffer self := []]> h.
Proof.
  eexists _, _. split; [reflexivity |].
  cbn [PayloadBuilder.max_size PayloadBuilder.buffer].
  split; [reflexivity |]. split; [| reflexivity].
  apply not_elem_of_dom, is_fresh.
Qed.

(** An append whose value has a size: when the bytes the call would add
    do not fit under the configured maximum size, the call returns False
    and the store, hence the buffer, is exactly as it was. *)
Lemma append_overflow_returns_false `{FC : FloatCodec}
    (c : PayloadBuilder.call) (self : PayloadBuilder.t) (h : heap)
    (buf : list byte) (n : Z) :
  h !! PayloadBuilder.buffer self = Some buf ->
  PayloadBuilder.appended_size c = Ok n ->
  PayloadBuilder.max_size self < len buf + n ->
  PayloadBuilder.run c self h = (Ok false, h).
Proof.
  intros Hbuf Hn Hover.
  destruct c as [v | v | v | v | v | v | d];
    cbn [PayloadBuilder.run PayloadBuilder.appended_size] in *.
  - injection Hn as <-. rewrite (add_uint8_eq self h buf Hbuf).
    destruct (Z.ltb_spec (PayloadBuilder.max_size self) (len buf + 1));
      [reflexivity | lia].
  - injection Hn as <-. rewrite (add_uint16_eq self h buf Hbuf).
    destruct (Z.ltb_spec (PayloadBuilder.max_size self) (len buf + 2));
      [reflexivity | lia].
  - injection Hn as <-. rewrite (add_int16_eq self h buf Hbuf).
    destruct (Z.ltb_spec (PayloadBuilder.max_size self) (len buf + 2));
      [reflexivity | lia].
  - injection Hn as <-. rewrite (add_int32_eq self h buf Hbuf).
    destruct (Z.ltb_spec (PayloadBuilder.max_size self) (len buf + 4));
      [reflexivity | lia].
  - injection Hn as <-. rewrite (add_float_eq self h buf Hbuf).
    destruct (Z.ltb_spec (PayloadBuilder.max_size self) (len buf + 4));
      [reflexivity | lia].
  - rewrite (add_string_eq self h buf Hbuf).
    destruct (utf8_encode v) as [encoded | e]; [| discriminate].
    rewrite result_bind_Ok in Hn. injection Hn as <-.
    destruct (Z.ltb_spec (PayloadBuilder.max_size self)
                (len buf + 1 + len encoded)); [reflexivity | lia].
  - injection Hn as <-. rewrite (add_bytes_eq self h buf Hbuf).
    destruct (Z.ltb_spec (PayloadBuilder.max_size self) (len buf + len d));
      [reflexivity | lia].
Qed.

(** The calls whose value has no size are [add_string] on a str that has
    no UTF-8 encoding; they raise before any size check. *)
Lemma append_without_size_raises `{FC : FloatCodec}
    (c : PayloadBuilder.call) (self : PayloadBuilder.t) (h : heap)
    (buf : list byte) (e : exn) :
  h !! PayloadBuilder.buffer self = Some buf ->
  PayloadBuilder.appended_size c = Raise e ->
  (exists value,
     c = PayloadBuilder.Add_string value
     /\ utf8_encode value = Raise UnicodeEncodeError)
  /\ PayloadBuilder.run c self h = (Raise UnicodeEncodeError, h).
Proof.
  intros Hbuf Hsize.
  destruct c as [v | v | v | v | v | v | d];
    cbn [PayloadBuilder.appended_size] in Hsize; try discriminate.
  destruct (utf8_encode v) as [encoded | e'] eqn:Henc; [discriminate |].
  pose proof (utf8_encode_raises v e' Henc) as ->.
  split; [now exists v |].
  cbn [PayloadBuilder.run]. rewrite (add_string_eq self h buf Hbuf).
  now rewrite Henc.
Qed.

(** C6 as stated fails for [add_string]: on a full builder, where not
    even the length byte fits, a str holding a lone surrogate makes the
    call raise UnicodeEncodeError; it does not return False. The buffer
    is unchanged all the same. *)
Lemma add_string_unencodable_on_full_builder :
  let self := {| PayloadBuilder.buffer := 1%positive;
                 PayloadBuilder.max_size := 2 |} in
  let h : heap := {[ 1%positive := [x01; x02] ]} in
  let c := PayloadBuilder.Add_string (FC := f32_bits) [0xD800] in
  h !! PayloadBuilder.buffer self = Some [x01; x02]
  /\ PayloadBuilder.max_size self < len [x01; x02] + 1
  /\ PayloadBuilder.run c self h = (Raise UnicodeEncodeError, h)
  /\ PayloadBuilder.run c self h <> (Ok false, h).
Proof.
  intros self h c.
  assert (Hbuf : h !! PayloadBuilder.buffer self = Some [x01; x02])
    by reflexivity.
  assert (Hrun : PayloadBuilder.run c self h = (Raise UnicodeEncodeError, h))
    by (subst c; cbn [PayloadBuilder.run];
        rewrite (add_string_eq self h _ Hbuf); reflexivity).
  split; [exact Hbuf |]. split; [reflexivity |]. split; [exact Hrun |].
  rewrite Hrun. discriminate.
Qed.

(** C6, amended. For every append operation of [PayloadBuilder]: when
    the bytes the call would add do not fit under the configured maximum
    size, the call returns False and the store, hence the buffer, is
    exactly as it was. The one kind of call whose value has no byte size,
    [add_string] on a str that has no UTF-8 encoding, raises
    UnicodeEncodeError instead, on a full builder as on any other, and
    also leaves the store exactly as it was. *)
Theorem append_beyond_max_size_leaves_buffer `{FC : FloatCodec}
    (c : PayloadBuilder.call) (self : PayloadBuilder.t) (h : heap)
    (buf : list byte) :
  h !! PayloadBuilder.buffer self = Some buf ->
  (forall n,
     PayloadBuilder.appended_size c = Ok n ->
     PayloadBuilder.max_size self < len buf + n ->
     PayloadBuilder.run c self h = (Ok false, h))
  /\ (forall e,
        PayloadBuilder.appended_size c = Raise e ->
        (exists value,
           c = PayloadBuilder.Add_string value
           /\ utf8_encode value = Raise UnicodeEncodeError)
        /\ PayloadBuilder.run c self h = (Raise UnicodeEncodeError, h)).
Proof.
  intros Hbuf. split.
  - intros n Hn Hover.
    exact (append_overflow_returns_false c self h buf n Hbuf Hn Hover).
  - intros e He. exact (append_without_size_raises c self h buf e Hbuf He).
Qed.

Lemma append_beyond_max_size_leaves_buffer_witness :
  let self := {| PayloadBuilder.buffer := 1%positive;
                 PayloadBuilder.max_size := 3 |} in
  let h : heap := {[ 1%positive := [x01; x02] ]} in
  h !! PayloadBuilder.buffer self = Some [x01; x02]
  /\ PayloadBuilder.appended_size (FC := f32_bits)
       (PayloadBuilder.Add_int16 7) = Ok 2
  /\ PayloadBuilder.max_size self < len [x01; x02] + 2
  /\ PayloadBuilder.run (FC := f32_bits) (PayloadBuilder.Add_int16 7) self h
     = (Ok false, h)
  /\ PayloadBuilder.appended_size (FC := f32_bits)
       (PayloadBuilder.Add_string [0xDFFF]) = Raise UnicodeEncodeError
  /\ PayloadBuilder.run (FC := f32_bits) (PayloadBuilder.Add_string [0xDFFF])
       self h
     = (Raise UnicodeEncodeError, h).
Proof.
  intros self h.
  assert (Hbuf : h !! PayloadBuilder.buffer self = Some [x01; x02])
    by reflexivity.
  split; [exact Hbuf |]. split; [reflexivity |]. split; [reflexivity |].
  split; [| split; [reflexivity |]].
  - apply (proj1 (append_beyond_max_size_leaves_buffer (FC := f32_bits)
                    (PayloadBuilder.Add_int16 7) self h [x01; x02] Hbuf) 2);
      reflexivity.
  - apply (proj2 (append_beyond_max_size_leaves_buffer (FC := f32_bits)
                    (PayloadBuilder.Add_string [0xDFFF]) self h [x01; x02]
                    Hbuf) UnicodeEncodeError).
    reflexivity.
Defined.

(** C9. [get_payload] is a read: it returns the bytes accumulated so
    far as a value of its own and leaves the store, hence the builder's
    buffer, as it was; the builder's capacity is a field no method
    assigns. An append that succeeds after it extends the content that
    was returned: in the sequence finalize, append, finalize, the first
    result is the content before the append and stays so, and the second
    is that content followed by the bytes of the appended value. *)
Theorem get_payload_is_a_read `{FC : FloatCodec}
    (self : PayloadBuilder.t) (h : heap) (buf : list byte) :
  h !! PayloadBuilder.buffer self = Some buf ->
  PayloadBuilder.get_payload self h = (Ok buf, h)
  /\ forall (c : PayloadBuilder.call) (h' : heap),
       PayloadBuilder.run c self h = (Ok true, h') ->
       exists written,
         PayloadBuilder.appended_size c = Ok (len written)
         /\ (snapshot ← PayloadBuilder.get_payload self;
             _ ← PayloadBuilder.run c self;
             after ← PayloadBuilder.get_payload self;
             mret (snapshot, after)) h
            = (Ok (buf, buf ++ written), h').
Proof.
  intros Hbuf.
  assert (Hget : PayloadBuilder.get_payload self h = (Ok buf, h))
    by (apply Bytearray_to_bytes_eq, Hbuf).
  split; [exact Hget |].
  intros c h' Hrun.
  destruct (append_success c self h h' buf Hbuf Hrun)
    as (written & Hh' & Hsize & _).
  exists written. split; [exact Hsize |].
  rewrite (ST_bind_Ok _ _ _ _ _ Hget), (ST_bind_Ok _ _ _ _ _ Hrun).
  erewrite ST_bind_Ok; [reflexivity |].
  subst h'. apply Bytearray_to_bytes_eq, lookup_insert_eq.
Qed.

Lemma get_payload_is_a_read_witness :
  let self := {| PayloadBuilder.buffer := 1%positive;
                 PayloadBuilder.max_size := PROTO_MAX_PAYLOAD |} in
  let h : heap := {[ 1%positive := [x01; xf4] ]} in
  let h' : heap := {[ 1%positive := [x01; xf4; x07] ]} in
  let c := PayloadBuilder.Add_uint8 (FC := f32_bits) 7 in
  h !! PayloadBuilder.buffer self = Some [x01; xf4]
  /\ PayloadBuilder.run c self h = (Ok true, h')
  /\ PayloadBuilder.get_payload self h = (Ok [x01; xf4], h)
  /\ exists written,
       PayloadBuilder.appended_size c = Ok (len written)
       /\ (snapshot ← PayloadBuilder.get_payload self;
           _ ← PayloadBuilder.run c self;
           after ← PayloadBuilder.get_payload self;
           mret (snapshot, after)) h
          = (Ok ([x01; xf4], [x01; xf4] ++ written), h').
Proof.
  intros self h h' c.
  assert (Hbuf : h !! PayloadBuilder.buffer self = Some [x01; xf4])
    by reflexivity.
  assert (Hrun : PayloadBuilder.run c self h = (Ok true, h'))
    by (subst c; cbn [PayloadBuilder.run];
        rewrite (add_uint8_eq self h _ Hbuf); vm_compute; reflexivity).
  destruct (get_payload_is_a_read (FC := f32_bits) self h [x01; xf4] Hbuf)
    as [Hget Hnext].
  split; [exact Hbuf |]. split; [exact Hrun |]. split; [exact Hget |].
  exact (Hnext c h' Hrun).
Defined.

(** ** The parser *)

Section Parser_facts.
Variable self : PayloadParser.t.

Let buf := PayloadParser.buffer self.
Let pos := PayloadParser.position self.

(** The shared shape of the fixed-width reads that go through
    [struct.unpack]. *)
Lemma read_fixed_eq {A} (w : Z) (unpack : list byte -> result A) :
  (b ← PayloadParser.get_buffer; p ← PayloadParser.get_position;
   if len b <? p + w then mret None else
   value ← lift (unpack (py_slice b p (p + w)));
   _ ← PayloadParser.set_position (p + w);
   mret (Some value)) self
  = if len buf <? pos + w then (Ok None, self)
    else match unpack (py_slice buf pos (pos + w)) with
         | Ok v => (Ok (Some v), PayloadParser.advance self w)
         | Raise e => (Raise e, self)
         end.
Proof.
  unfold mbind, ST_bind, PayloadParser.get_buffer, PayloadParser.get_position.
  fold buf pos. destruct (len buf <? pos + w); [reflexivity |].
  unfold lift. destruct (unpack _); reflexivity.
Qed.

Lemma read_uint8_eq :
  PayloadParser.read_uint8 self
  = if len buf <? pos + 1 then (Ok None, self)
    else match py_getitem buf pos with
         | Ok v => (Ok (Some v), PayloadParser.advance self 1)
         | Raise e => (Raise e, self)
         end.
Proof.
  unfold PayloadParser.read_uint8, mbind, ST_bind,
    PayloadParser.get_buffer, PayloadParser.get_position.
  fold buf pos. destruct (len buf <? pos + 1); [reflexivity |].
  unfold lift. destruct (py_getitem _ _); reflexivity.
Qed.

Lemma read_bytes_eq (n : Z) :
  PayloadParser.read_bytes n self
  = if len buf <? pos + n then (Ok None, self)
    else (Ok (Some (py_slice buf pos (pos + n))),
          PayloadParser.advance self n).
Proof.
  unfold PayloadParser.read_bytes, mbind, ST_bind,
    PayloadParser.get_buffer, PayloadParser.get_position.
  fold buf pos. destruct (len buf <? pos + n); reflexivity.
Qed.

Lemma read_string_eq :
  PayloadParser.read_string self
  = match PayloadParser.read_uint8 self with
    | (Raise e, self1) => (Raise e, self1)
    | (Ok None, self1) => (Ok None, self1)
    | (Ok (Some n), self1) =>
        let buf1 := PayloadParser.buffer self1 in
        let pos1 := PayloadParser.position self1 in
        if len buf1 <? pos1 + n then (Ok None, self1)
        else (Ok (Some (utf8_decode_replace (py_slice buf1 pos1 (pos1 + n)))),
              PayloadParser.advance self1 n)
    end.
Proof.
  unfold PayloadParser.read_string. unfold mbind at 1, ST_bind at 1.
  destruct (PayloadParser.read_uint8 self) as [[[n |] | e] self1];
    try reflexivity.
  unfold mbind, ST_bind, PayloadParser.get_buffer, PayloadParser.get_position.
  cbn zeta. destruct (len _ <? _); reflexivity.
Qed.

(** Reading one byte where there is one. *)
Lemma read_uint8_at (b : byte) :
  0 <= pos -> buf !! Z.to_nat pos = Some b ->
  PayloadParser.read_uint8 self
  = (Ok (Some (byte_to_Z b)), PayloadParser.advance self 1).
Proof.
  intros Hpos Hb. rewrite read_uint8_eq.
  pose proof (lookup_lt_Some _ _ _ Hb) as Hlt.
  destruct (Z.ltb_spec (len buf) (pos + 1)); [unfold len in *; lia |].
  now rewrite (py_getitem_lookup buf pos b Hpos Hb).
Qed.

Lemma read_uint8_end :
  len buf <= pos -> PayloadParser.read_uint8 self = (Ok None, self).
Proof.
  intros H. rewrite read_uint8_eq.
  destruct (Z.ltb_spec (len buf) (pos + 1)); [reflexivity | lia].
Qed.
End Parser_facts.

Lemma py_slice_two {A} (l : list A) (p : Z) (a b : A) :
  0 <= p -> l !! Z.to_nat p = Some a -> l !! Z.to_nat (p + 1) = Some b ->
  py_slice l p (p + 2) = [a; b].
Proof.
  intros Hp Ha Hb.
  pose proof (lookup_lt_Some _ _ _ Hb) as Hlt.
  rewrite py_slice_inside by (unfold len; lia).
  replace (Z.to_nat (p + 2 - p)) with 2%nat by lia.
  replace (Z.to_nat (p + 1)) with (S (Z.to_nat p)) in Hb by lia.
  rewrite (drop_S _ _ _ Ha), (drop_S _ _ _ Hb). reflexivity.
Qed.

Lemma read_int16_at (self : PayloadParser.t) (hi lo : byte) :
  let buf := PayloadParser.buffer self in
  let pos := PayloadParser.position self in
  0 <= pos ->
  buf !! Z.to_nat pos = Some hi -> buf !! Z.to_nat (pos + 1) = Some lo ->
  PayloadParser.read_int16 self
  = (unpack_h [hi; lo] ≫= fun v => Ok (Some v), PayloadParser.advance self 2).
Proof.
  intros buf pos Hpos Hhi Hlo.
  unfold PayloadParser.read_int16. rewrite read_fixed_eq. fold buf pos.
  pose proof (lookup_lt_Some _ _ _ Hlo) as Hlt.
  destruct (Z.ltb_spec (len buf) (pos + 2)); [unfold len in *; lia |].
  now rewrite (py_slice_two buf pos hi lo Hpos Hhi Hlo).
Qed.

Lemma read_int16_end (self : PayloadParser.t) :
  len (PayloadParser.buffer self) < PayloadParser.position self + 2 ->
  PayloadParser.read_int16 self = (Ok None, self).
Proof.
  intros H. unfold PayloadParser.read_int16. rewrite read_fixed_eq.
  destruct (Z.ltb_spec (len (PayloadParser.buffer self))
              (PayloadParser.position self + 2)); [reflexivity | lia].
Qed.

(** [parse_encoder_data] on each shape of payload. *)
Lemma parse_encoder_data_short (payload : list byte) :
  len payload < 2 -> parse_encoder_data payload = Ok None.
Proof.
  intros H. destruct payload as [| a [| b rest]]; [reflexivity | reflexivity |].
  exfalso. len_lia.
Qed.

Lemma parse_encoder_data_long (hi lo : byte) (rest : list byte) :
  parse_encoder_data (hi :: lo :: rest)
  = Ok (Some {| position :=
                  (let u := 256 * byte_to_Z hi + byte_to_Z lo in
                   if 0x8000 <=? u then u - 0x10000 else u);
                velocity := match rest with
                            | v :: _ => byte_to_Z v
                            | [] => 0
                            end;
                button_pressed := match rest with
                                  | _ :: b :: _ => byte_to_Z b =? 1
                                  | _ => false
                                  end |}).
Proof.
  destruct rest as [| v [| b rest]]; [reflexivity | reflexivity |].
  unfold parse_encoder_data.
  set (p0 := PayloadParser.new (hi :: lo :: v :: b :: rest)).
  unfold mbind at 1, ST_bind at 1.
  rewrite (read_int16_at p0 hi lo) by (reflexivity || (cbn; lia)).
  cbn [unpack_h]. rewrite result_bind_Ok.
  unfold mbind at 1, ST_bind at 1.
  rewrite (read_uint8_at (PayloadParser.advance p0 2) v)
    by (reflexivity || (cbn; lia)).
  unfold mbind at 1, ST_bind at 1.
  rewrite (read_uint8_at (PayloadParser.advance (PayloadParser.advance p0 2) 1) b)
    by (reflexivity || (cbn; lia)).
  reflexivity.
Qed.

(** C8. [parse_encoder_data] returns [None] exactly when the leading
    position field cannot be read, that is when [read_int16] on the fresh
    parser returns [None]. When the position is readable the parse
    succeeds whatever follows: the velocity is the third byte, or 0 when
    there is none; [button_pressed] is whether the fourth byte equals 1,
    or False when there is none. *)
Theorem parse_encoder_data_defaults (payload : list byte) :
  returns (parse_encoder_data payload)
  /\ (parse_encoder_data payload = Ok None
      <-> fst (PayloadParser.read_int16 (PayloadParser.new payload)) = Ok None)
  /\ (forall hi lo rest, payload = hi :: lo :: rest ->
      parse_encoder_data payload
      = Ok (Some {| position :=
                      (let u := 256 * byte_to_Z hi + byte_to_Z lo in
                       if 0x8000 <=? u then u - 0x10000 else u);
                    velocity := match rest with
                                | v :: _ => byte_to_Z v
                                | [] => 0
                                end;
                    button_pressed := match rest with
                                      | _ :: b :: _ => byte_to_Z b =? 1
                                      | _ => false
                                      end |})).
Proof.
  destruct payload as [| hi [| lo rest]].
  - split; [now eexists |]. split; [now split | discriminate].
  - split; [now eexists |]. split; [now split | discriminate].
  - rewrite parse_encoder_data_long.
    split; [now eexists |]. split.
    + rewrite (read_int16_at (PayloadParser.new (hi :: lo :: rest)) hi lo)
        by (reflexivity || (cbn; lia)).
      cbn [unpack_h]. rewrite result_bind_Ok. cbn [fst].
      split; discriminate.
    + intros hi' lo' rest' [= <- <- <-]. reflexivity.
Qed.

Lemma parse_encoder_data_defaults_witness :
  parse_encoder_data [x00; x2a; x05; x01]
  = Ok (Some {| position := 42; velocity := 5; button_pressed := true |}).
Proof.
  destruct (parse_encoder_data_defaults [x00; x2a; x05; x01])
    as (_ & _ & H).
  apply (H x00 x2a [x05; x01]). reflexivity.
Defined.

(** Reading back a string that sits in a buffer after [before]: one
    length byte, then the UTF-8 bytes. *)
Lemma read_string_encoded (before encoded suffix : list byte) (value : list Z) :
  utf8_encode value = Ok encoded -> len encoded <= 255 ->
  let payload := before ++ byte_of_low8 (len encoded) :: encoded in
  PayloadParser.read_string
    {| PayloadParser.buffer := payload ++ suffix;
       PayloadParser.position := len before |}
  = (Ok (Some value),
     {| PayloadParser.buffer := payload ++ suffix;
        PayloadParser.position := len payload |}).
Proof.
  intros Henc H255 payload.
  pose proof (len_nonneg encoded) as Hnn.
  pose proof (len_nonneg before) as Hnb.
  set (b := byte_of_low8 (len encoded)) in *.
  assert (Hb : byte_to_Z b = len encoded)
    by (apply byte_to_Z_low8_small; lia).
  assert (Hshape : payload ++ suffix = (before ++ [b]) ++ encoded ++ suffix)
    by (subst payload; now rewrite <- !app_assoc).
  rewrite read_string_eq.
  rewrite (read_uint8_at _ b); cbn [PayloadParser.buffer PayloadParser.position].
  - cbn zeta. cbn [PayloadParser.advance PayloadParser.buffer
                   PayloadParser.position].
    rewrite Hb.
    destruct (Z.ltb_spec (len (payload ++ suffix))
                (len before + 1 + len encoded));
      [subst payload; exfalso; len_lia |].
    rewrite Hshape at 1.
    rewrite (py_slice_app_mid (before ++ [b]) encoded suffix) by len_lia.
    rewrite (utf8_decode_encode value encoded Henc).
    f_equal. unfold PayloadParser.advance.
    cbn [PayloadParser.buffer PayloadParser.position].
    f_equal. subst payload. len_lia.
  - lia.
  - subst payload. rewrite <- app_assoc. cbn [app].
    apply list_lookup_middle. unfold len. lia.
Qed.

(** C7. When the UTF-8 encoding of a string is longer than 255 bytes,
    [add_string] returns False and writes nothing. When [add_string]
    returns True, the encoding is at most 255 bytes and [read_string] at
    the position where the string was appended returns the original
    text and moves the cursor to the end of the string, whatever
    follows it in the buffer. *)
Theorem add_string_bound_and_read_back
    (self : PayloadBuilder.t) (h : heap) (buf : list byte)
    (value : list Z) (encoded : list byte) :
  h !! PayloadBuilder.buffer self = Some buf ->
  utf8_encode value = Ok encoded ->
  (255 < len encoded ->
   PayloadBuilder.add_string self value h = (Ok false, h))
  /\ (forall h',
        PayloadBuilder.add_string self value h = (Ok true, h') ->
        len encoded <= 255
        /\ exists payload,
             PayloadBuilder.get_payload self h' = (Ok payload, h')
             /\ forall suffix,
                  PayloadParser.read_string
                    {| PayloadParser.buffer := payload ++ suffix;
                       PayloadParser.position := len buf |}
                  = (Ok (Some value),
                     {| PayloadParser.buffer := payload ++ suffix;
                        PayloadParser.position := len payload |})).
Proof.
  intros Hbuf Henc. rewrite (add_string_eq self h buf Hbuf), Henc.
  split.
  - intros Hlong.
    destruct (_ <? len buf + 1 + len encoded); [reflexivity |].
    destruct (Z.ltb_spec 255 (len encoded)); [reflexivity | lia].
  - intros h'.
    destruct (_ <? len buf + 1 + len encoded); [discriminate |].
    destruct (Z.ltb_spec 255 (len encoded)); [discriminate |].
    intros [= <-]. split; [lia |].
    exists (buf ++ byte_of_low8 (len encoded) :: encoded). split.
    + apply Bytearray_to_bytes_eq, lookup_insert_eq.
    + intros suffix. now apply read_string_encoded.
Qed.

Lemma add_string_bound_and_read_back_witness :
  let self := {| PayloadBuilder.buffer := 1%positive;
                 PayloadBuilder.max_size := PROTO_MAX_PAYLOAD |} in
  let h : heap := {[ 1%positive := [x0a; x14] ]} in
  let h' : heap := {[ 1%positive := [x0a; x14; x02; x48; x69] ]} in
  h !! PayloadBuilder.buffer self = Some [x0a; x14]
  /\ utf8_encode [0x48; 0x69] = Ok [x48; x69]
  /\ PayloadBuilder.add_string self [0x48; 0x69] h = (Ok true, h')
  /\ PayloadParser.read_string
       {| PayloadParser.buffer := [x0a; x14; x02; x48; x69];
          PayloadParser.position := 2 |}
     = (Ok (Some [0x48; 0x69]),
        {| PayloadParser.buffer := [x0a; x14; x02; x48; x69];
           PayloadParser.position := 5 |}).
Proof.
  intros self h h'.
  assert (Hbuf : h !! PayloadBuilder.buffer self = Some [x0a; x14])
    by reflexivity.
  assert (Henc : utf8_encode [0x48; 0x69] = Ok [x48; x69]) by reflexivity.
  assert (Hadd : PayloadBuilder.add_string self [0x48; 0x69] h = (Ok true, h'))
    by (rewrite (add_string_eq self h _ Hbuf); vm_compute; reflexivity).
  split; [exact Hbuf |]. split; [exact Henc |]. split; [exact Hadd |].
  destruct (add_string_bound_and_read_back self h _ _ _ Hbuf Henc)
    as [_ Hread].
  destruct (Hread h' Hadd) as (_ & payload & Hget & Hback).
  assert (Hpayload : payload = [x0a; x14; x02; x48; x69])
    by (vm_compute in Hget; congruence).
  subst payload. specialize (Hback []). rewrite app_nil_r in Hback.
  exact Hback.
Defined.

(** ** Reads and the cursor *)

Lemma py_slice_exact {A} (l : list A) (p w : Z) :
  0 <= p -> 0 <= w -> p + w <= len l ->
  length (py_slice l p (p + w)) = Z.to_nat w.
Proof.
  intros Hp Hw Hfit.
  pose proof (py_slice_length l p (p + w) Hp ltac:(lia) Hfit) as H.
  unfold len in H. lia.
Qed.

Lemma unpack_H_total (l : list byte) : length l = 2%nat -> returns (unpack_H l).
Proof.
  destruct l as [| a [| b [| c l]]]; try discriminate. intros _. now eexists.
Qed.

Lemma unpack_h_total (l : list byte) : length l = 2%nat -> returns (unpack_h l).
Proof.
  destruct l as [| a [| b [| c l]]]; try discriminate. intros _. now eexists.
Qed.

Lemma unpack_i_total (l : list byte) : length l = 4%nat -> returns (unpack_i l).
Proof.
  destruct l as [| a [| b [| c [| d [| e l]]]]]; try discriminate.
  intros _. now eexists.
Qed.

Lemma unpack_f_total `{FC : FloatCodec} (l : list byte) :
  length l = 4%nat -> returns (unpack_f l).
Proof.
  destruct l as [| a [| b [| c [| d [| e l]]]]]; try discriminate.
  intros _. now eexists.
Qed.

Lemma run_map {S A B} (m : ST S (option A)) (f : A -> B) (s : S) :
  (v ← m; mret (f <$> v)) s
  = match m s with
    | (Ok v, s') => (Ok (f <$> v), s')
    | (Raise e, s') => (Raise e, s')
    end.
Proof. unfold mbind, ST_bind. now destruct (m s) as [[v | e] s']. Qed.

(** A fixed-width read through [struct.unpack], at a cursor that is not
    negative: nothing and no move, or a value and a move by the width. *)
Lemma read_fixed_all_or_nothing {A} (self : PayloadParser.t) (w : Z)
    (unpack : list byte -> result A) :
  (forall l, length l = Z.to_nat w -> returns (unpack l)) ->
  0 <= w -> 0 <= PayloadParser.position self ->
  let r := if len (PayloadParser.buffer self)
              <? PayloadParser.position self + w
           then (Ok None, self)
           else match unpack (py_slice (PayloadParser.buffer self)
                                (PayloadParser.position self)
                                (PayloadParser.position self + w)) with
                | Ok v => (Ok (Some v), PayloadParser.advance self w)
                | Raise e => (Raise e, self)
                end in
  r = (Ok None, self)
  \/ exists v, r = (Ok (Some v), PayloadParser.advance self w).
Proof.
  intros Htotal Hw Hpos r. subst r.
  destruct (Z.ltb_spec (len (PayloadParser.buffer self))
              (PayloadParser.position self + w)); [now left |].
  right.
  destruct (Htotal (py_slice (PayloadParser.buffer self)
                      (PayloadParser.position self)
                      (PayloadParser.position self + w))) as [v ->].
  - apply py_slice_exact; lia.
  - now exists v.
Qed.

(** X25. Every read other than [read_string], at a cursor that is not
    negative and for a length that is not negative, either returns
    [None] and leaves the parser as it was, or returns a value and moves
    the cursor by exactly the width of the read. *)
Lemma fixed_width_reads_all_or_nothing `{FC : FloatCodec}
    (c : PayloadParser.call) (w : Z) (self : PayloadParser.t) :
  PayloadParser.width c = Some w -> 0 <= w ->
  0 <= PayloadParser.position self ->
  PayloadParser.run c self = (Ok None, self)
  \/ exists v,
       PayloadParser.run c self = (Ok (Some v), PayloadParser.advance self w).
Proof.
  intros Hw Hw0 Hpos.
  destruct c; cbn [PayloadParser.width] in Hw; try discriminate;
    injection Hw as <-; cbn [PayloadParser.run]; rewrite run_map.
  - rewrite read_uint8_eq.
    destruct (Z.ltb_spec (len (PayloadParser.buffer self))
                (PayloadParser.position self + 1)); [now left |].
    destruct (py_getitem_inside (PayloadParser.buffer self)
                (PayloadParser.position self)) as (b & _ & ->); [lia |].
    right. now eexists.
  - unfold PayloadParser.read_uint16. rewrite read_fixed_eq.
    destruct (read_fixed_all_or_nothing self 2 unpack_H unpack_H_total
                Hw0 Hpos) as [-> | [v ->]]; [now left | right; now eexists].
  - unfold PayloadParser.read_int16. rewrite read_fixed_eq.
    destruct (read_fixed_all_or_nothing self 2 unpack_h unpack_h_total
                Hw0 Hpos) as [-> | [v ->]]; [now left | right; now eexists].
  - unfold PayloadParser.read_int32. rewrite read_fixed_eq.
    destruct (read_fixed_all_or_nothing self 4 unpack_i unpack_i_total
                Hw0 Hpos) as [-> | [v ->]]; [now left | right; now eexists].
  - unfold PayloadParser.read_float. rewrite read_fixed_eq.
    destruct (read_fixed_all_or_nothing self 4 unpack_f unpack_f_total
                Hw0 Hpos) as [-> | [v ->]]; [now left | right; now eexists].
  - rewrite read_bytes_eq.
    destruct (_ <? _); [now left | right; now eexists].
Qed.


(** C5 fails for [read_string]: on the one-byte buffer 05 the length
    byte is read, five more bytes are missing, and the call returns
    [None] with the cursor moved from 0 to 1. *)
Theorem read_string_failure_moves_cursor :
  let before := PayloadParser.new [x05] in
  PayloadParser.read_string before
  = (Ok None, PayloadParser.advance before 1)
  /\ PayloadParser.position before = 0
  /\ PayloadParser.position (PayloadParser.advance before 1) = 1.
Proof. repeat split. Qed.

(** A negative length is not rejected by [read_bytes]: the slice bound
    counts from the end and the cursor moves backwards. *)
Example read_bytes_negative_length :
  PayloadParser.read_bytes (-3) (PayloadParser.new [x01; x02; x03; x04; x05])
  = (Ok (Some [x01; x02]),
     {| PayloadParser.buffer := [x01; x02; x03; x04; x05];
        PayloadParser.position := -3 |}).
Proof. reflexivity. Qed.

(** ** The scenarios of the protocol description *)

Example scenario_ping :
  build_ping = Ok [xaa; x01; x00; x00; xfb; xac].
Proof. vm_compute. reflexivity. Qed.

Example scenario_led_blink :
  exists frame,
    fst (build_led_blink 500 ∅) = Ok frame
    /\ len frame = 8
    /\ decode_frame frame = Ok (Some (CMD_LED_BLINK, [x01; xf4])).
Proof.
  exists [xaa; x11; x00; x02; x01; xf4; x4d; xcd].
  vm_compute. repeat split.
Qed.

Example scenario_oled_text :
  exists frame payload,
    fst (build_oled_text 10 20 [0x48; 0x69] ∅) = Ok frame
    /\ decode_frame frame = Ok (Some (CMD_OLED_TEXT, payload))
    /\ payload = [x0a; x14; x02; x48; x69]
    /\ fst ((x ← PayloadParser.read_uint8;
             y ← PayloadParser.read_uint8;
             text ← PayloadParser.read_string;
             mret (x, y, text)) (PayloadParser.new payload))
       = Ok (Some 10, Some 20, Some [0x48; 0x69]).
Proof.
  exists [xaa; x41; x00; x05; x0a; x14; x02; x48; x69; x43; x4e],
    [x0a; x14; x02; x48; x69].
  vm_compute. repeat split.
Qed.

Example scenario_corrupted_frame :
  decode_frame [xaa; x11; x00; x02; x01; xf4; x4d; xcd]
  = Ok (Some (CMD_LED_BLINK, [x01; xf4]))
  /\ decode_frame [xaa; x11; x00; x02; x01; xf5; x4d; xcd] = Ok None.
Proof. vm_compute. split; reflexivity. Qed.

(** * Further properties *)

(** ** When [encode_frame] returns *)

Lemma bytearray_append_out_of_range (buf : list byte) (v : Z) :
  ~ 0 <= v < 256 -> bytearray_append buf v = Raise ValueError.
Proof.
  intros Hv. unfold bytearray_append.
  now rewrite (byte_of_Z_out_of_range v Hv).
Qed.

Lemma encode_frame_oversized_raises_any (command_id : Z) (payload : list byte) :
  PROTO_MAX_PAYLOAD < len payload ->
  encode_frame command_id payload = Raise ValueError.
Proof.
  intros H. unfold encode_frame.
  destruct (Z.ltb_spec PROTO_MAX_PAYLOAD (len payload)); [reflexivity | lia].
Qed.

(** X1. [encode_frame] returns a frame exactly when the command id is
    in range(256) and the payload has at most 1024 bytes; in every other
    case it raises ValueError, and nothing else is ever raised. *)
Theorem encode_frame_returns_iff (command_id : Z) (payload : list byte) :
  (returns (encode_frame command_id payload)
   <-> 0 <= command_id < 256 /\ len payload <= PROTO_MAX_PAYLOAD)
  /\ (encode_frame command_id payload = Raise ValueError
      <-> ~ (0 <= command_id < 256 /\ len payload <= PROTO_MAX_PAYLOAD)).
Proof.
  destruct (Z.lt_ge_cases PROTO_MAX_PAYLOAD (len payload)) as [Hbig | Hfit].
  { rewrite (encode_frame_oversized_raises_any command_id payload Hbig).
    split; split; try lia; try reflexivity.
    intros [v Hv]. discriminate. }
  destruct (Z.lt_ge_cases command_id 0) as [Hneg | Hnn];
    [| destruct (Z.lt_ge_cases command_id 256) as [Hid | Hid]].
  - assert (H : encode_frame command_id payload = Raise ValueError).
    { unfold encode_frame.
      destruct (Z.ltb_spec PROTO_MAX_PAYLOAD (len payload)); [reflexivity |].
      now rewrite (bytearray_append_out_of_range [] command_id) by lia. }
    rewrite H. split; split; try lia; try reflexivity.
    intros [v Hv]. discriminate.
  - destruct (encode_frame_layout command_id payload)
      as (b1 & b2 & b3 & c0 & c1 & -> & _); [lia | lia |].
    split; split; try lia; try discriminate.
    intros _. now eexists.
  - assert (H : encode_frame command_id payload = Raise ValueError).
    { unfold encode_frame.
      destruct (Z.ltb_spec PROTO_MAX_PAYLOAD (len payload)); [reflexivity |].
      now rewrite (bytearray_append_out_of_range [] command_id) by lia. }
    rewrite H. split; split; try lia; try reflexivity.
    intros [v Hv]. discriminate.
Qed.

Lemma encode_frame_Ok_inv (command_id : Z) (payload frame : list byte) :
  encode_frame command_id payload = Ok frame ->
  0 <= command_id < 256 /\ len payload <= PROTO_MAX_PAYLOAD.
Proof.
  intros Henc.
  destruct (Z.lt_ge_cases PROTO_MAX_PAYLOAD (len payload)) as [Hbig | Hfit].
  { rewrite (encode_frame_oversized_raises_any _ _ Hbig) in Henc.
    discriminate. }
  split; [| lia].
  destruct (Z.lt_ge_cases command_id 0) as [Hneg | Hnn];
    [| destruct (Z.lt_ge_cases command_id 256) as [Hid | Hid]; [lia |]];
    exfalso; unfold encode_frame in Henc;
    destruct (Z.ltb_spec PROTO_MAX_PAYLOAD (len payload)); try lia;
    rewrite (bytearray_append_out_of_range [] command_id) in Henc by lia;
    discriminate.
Qed.

Lemma encode_frame_Ok_layout (command_id : Z) (payload frame : list byte) :
  encode_frame command_id payload = Ok frame ->
  exists b1 b2 b3 c0 c1,
    frame = xaa :: b1 :: b2 :: b3 :: payload ++ [c0; c1]
    /\ byte_to_Z b1 = command_id
    /\ 256 * byte_to_Z b2 + byte_to_Z b3 = len payload
    /\ 256 * byte_to_Z c0 + byte_to_Z c1
       = crc16_ccitt (b1 :: b2 :: b3 :: payload).
Proof.
  intros Henc.
  destruct (encode_frame_Ok_inv _ _ _ Henc) as [Hid Hlen].
  destruct (encode_frame_layout command_id payload Hid Hlen)
    as (b1 & b2 & b3 & c0 & c1 & Hf & H).
  exists b1, b2, b3, c0, c1. split; [congruence | exact H].
Qed.

Lemma decode_of_encode (command_id : Z) (payload frame : list byte) :
  encode_frame command_id payload = Ok frame ->
  decode_frame frame = Ok (Some (command_id, payload)).
Proof.
  intros Henc.
  destruct (encode_frame_Ok_layout _ _ _ Henc)
    as (b1 & b2 & b3 & c0 & c1 & -> & Hb1 & Hb23 & Hcrc).
  rewrite (decode_frame_layout xaa b1 b2 b3 payload c0 c1 [] Hb23).
  rewrite Hcrc, Hb1, !Z.eqb_refl. reflexivity.
Qed.

(** X2. A frame returned by [encode_frame] is 6 bytes longer than its
    payload and follows the wire format: start marker 0xAA, the command
    id, the payload length, the payload, and as checksum the CRC-16 of
    everything between the start marker and the checksum. *)
Theorem encode_frame_wire_format (command_id : Z) (payload frame : list byte) :
  encode_frame command_id payload = Ok frame ->
  len frame = 6 + len payload
  /\ Wire.start_marker frame = PROTO_START_BYTE
  /\ Wire.command_id frame = command_id
  /\ Wire.declared_length frame = len payload
  /\ Wire.payload frame = payload
  /\ Wire.checksum frame = crc16_ccitt (Wire.checksummed frame).
Proof.
  intros Henc.
  destruct (encode_frame_Ok_layout _ _ _ Henc)
    as (b1 & b2 & b3 & c0 & c1 & -> & Hb1 & Hb23 & Hcrc).
  destruct (wire_fields_layout xaa b1 b2 b3 payload c0 c1 [] Hb23)
    as (Hs & Hc & Hd & Hp & Hk & Hr).
  rewrite Hs, Hc, Hd, Hp, Hk, Hr.
  split; [len_lia |]. split; [reflexivity |]. split; [exact Hb1 |].
  split; [reflexivity |]. split; [reflexivity | exact Hcrc].
Qed.

Lemma encode_frame_wire_format_witness :
  encode_frame CMD_LED_BLINK [x01; xf4]
  = Ok [xaa; x11; x00; x02; x01; xf4; x4d; xcd]
  /\ len [xaa; x11; x00; x02; x01; xf4; x4d; xcd] = 6 + len [x01; xf4]
  /\ Wire.payload [xaa; x11; x00; x02; x01; xf4; x4d; xcd] = [x01; xf4].
Proof.
  assert (Henc : encode_frame CMD_LED_BLINK [x01; xf4]
                 = Ok [xaa; x11; x00; x02; x01; xf4; x4d; xcd])
    by (vm_compute; reflexivity).
  destruct (encode_frame_wire_format _ _ _ Henc) as (Hl & _ & _ & _ & Hp & _).
  split; [exact Henc |]. split; [exact Hl | exact Hp].
Defined.

Lemma two_bytes_inj (a b a' b' : byte) :
  256 * byte_to_Z a + byte_to_Z b = 256 * byte_to_Z a' + byte_to_Z b' ->
  a = a' /\ b = b'.
Proof.
  intros H.
  pose proof (byte_to_Z_range a). pose proof (byte_to_Z_range b).
  pose proof (byte_to_Z_range a'). pose proof (byte_to_Z_range b').
  split; apply byte_to_Z_inj; lia.
Qed.

(** The layout behind a successful decode. *)
Lemma decode_frame_Some_layout (data : list byte) (command_id : Z)
    (payload : list byte) :
  decode_frame data = Ok (Some (command_id, payload)) ->
  exists b1 b2 b3 c0 c1 extra,
    data = xaa :: b1 :: b2 :: b3 :: payload ++ c0 :: c1 :: extra
    /\ byte_to_Z b1 = command_id
    /\ 256 * byte_to_Z b2 + byte_to_Z b3 = len payload
    /\ 256 * byte_to_Z c0 + byte_to_Z c1
       = crc16_ccitt (b1 :: b2 :: b3 :: payload).
Proof.
  intros Hdec.
  destruct (decode_frame_cases data) as [[_ Hnone] | [Hwf _]];
    [congruence |].
  assert (H6 : 6 <= len data) by (unfold Wire.malformed in Hwf; lia).
  assert (HL : 6 + Wire.declared_length data <= len data)
    by (unfold Wire.malformed in Hwf; lia).
  destruct (buffer_layout data H6 HL)
    as (b0 & b1 & b2 & b3 & p & c0 & c1 & extra & -> & Hdecl).
  rewrite (decode_frame_layout _ _ _ _ _ _ _ _ Hdecl) in Hdec.
  unfold PROTO_START_BYTE in Hdec.
  destruct (Z.eqb_spec (byte_to_Z b0) 0xAA) as [E0 | E0]; [| discriminate].
  destruct (Z.eqb_spec (256 * byte_to_Z c0 + byte_to_Z c1)
              (crc16_ccitt (b1 :: b2 :: b3 :: p))) as [E1 | E1];
    [| discriminate].
  cbn [andb] in Hdec. injection Hdec as <- <-.
  assert (b0 = xaa) as -> by (apply byte_to_Z_inj; exact E0).
  now exists b1, b2, b3, c0, c1, extra.
Qed.

(** X3. What [decode_frame] returns can be encoded again: the command
    id is in range(256), the payload has at most 65535 bytes and lies
    within the buffer, and when the payload is within the 1024-byte limit
    [encode_frame] rebuilds exactly the first 6 + len(payload) bytes of
    the buffer that was decoded. *)
Theorem encode_decoded_frame (data : list byte) (command_id : Z)
    (payload : list byte) :
  decode_frame data = Ok (Some (command_id, payload)) ->
  0 <= command_id < 256
  /\ len payload <= 0xFFFF
  /\ 6 + len payload <= len data
  /\ (len payload <= PROTO_MAX_PAYLOAD ->
      encode_frame command_id payload
      = Ok (take (Z.to_nat (6 + len payload)) data)).
Proof.
  intros Hdec.
  destruct (decode_frame_Some_layout _ _ _ Hdec)
    as (b1 & b2 & b3 & c0 & c1 & extra & -> & Hb1 & Hb23 & Hcrc).
  pose proof (byte_to_Z_range b1). pose proof (byte_to_Z_range b2).
  pose proof (byte_to_Z_range b3).
  split; [lia |]. split; [lia |]. split; [len_lia |].
  intros Hfit.
  destruct (encode_frame_layout command_id payload ltac:(lia) Hfit)
    as (b1' & b2' & b3' & c0' & c1' & -> & Hb1' & Hb23' & Hcrc').
  assert (b1' = b1) as -> by (apply byte_to_Z_inj; congruence).
  destruct (two_bytes_inj b2' b3' b2 b3 ltac:(congruence)) as [-> ->].
  destruct (two_bytes_inj c0' c1' c0 c1 ltac:(congruence)) as [-> ->].
  f_equal.
  replace (Z.to_nat (6 + len payload)) with (4 + (length payload + 2))%nat
    by (unfold len; lia).
  cbn [Nat.add take]. do 4 f_equal.
  change (c0 :: c1 :: extra) with ([c0; c1] ++ extra).
  rewrite app_assoc.
  rewrite take_app_length'; [reflexivity |].
  rewrite length_app. reflexivity.
Qed.

Lemma encode_decoded_frame_witness :
  decode_frame [xaa; x01; x00; x00; xfb; xac; xde; xad] = Ok (Some (1, []))
  /\ encode_frame 1 [] = Ok [xaa; x01; x00; x00; xfb; xac].
Proof.
  assert (Hdec : decode_frame [xaa; x01; x00; x00; xfb; xac; xde; xad]
                 = Ok (Some (1, []))) by (vm_compute; reflexivity).
  split; [exact Hdec |].
  destruct (encode_decoded_frame _ _ _ Hdec) as (_ & _ & _ & Henc).
  apply Henc. vm_compute. discriminate.
Defined.

(** X5. Distinct messages have distinct frames: when [encode_frame]
    returns the same frame for two command ids and payloads, the command
    ids are equal and the payloads are equal. *)
Theorem encode_frame_injective (id1 id2 : Z) (payload1 payload2 frame : list byte) :
  encode_frame id1 payload1 = Ok frame ->
  encode_frame id2 payload2 = Ok frame ->
  id1 = id2 /\ payload1 = payload2.
Proof.
  intros H1 H2.
  apply decode_of_encode in H1. apply decode_of_encode in H2.
  rewrite H1 in H2. injection H2 as <- <-. now split.
Qed.

Lemma encode_frame_injective_witness :
  encode_frame CMD_PING [] = Ok [xaa; x01; x00; x00; xfb; xac]
  /\ (CMD_PING = 1 /\ @nil byte = []).
Proof.
  assert (H : encode_frame CMD_PING [] = Ok [xaa; x01; x00; x00; xfb; xac])
    by (vm_compute; reflexivity).
  split; [exact H |].
  apply (encode_frame_injective CMD_PING 1 [] [] _ H H).
Defined.

(** X4. [decode_frame] applies no limit of its own to the payload: a
    buffer laid out as a frame, with a payload of the declared length
    and the right checksum, decodes whatever that length is, also when
    it is beyond the 1024 bytes at which [encode_frame] raises. *)
Theorem decode_frame_has_no_payload_limit (b1 b2 b3 : byte)
    (payload : list byte) (c0 c1 : byte) (extra : list byte) :
  256 * byte_to_Z b2 + byte_to_Z b3 = len payload ->
  256 * byte_to_Z c0 + byte_to_Z c1 = crc16_ccitt (b1 :: b2 :: b3 :: payload) ->
  decode_frame (xaa :: b1 :: b2 :: b3 :: payload ++ c0 :: c1 :: extra)
  = Ok (Some (byte_to_Z b1, payload))
  /\ (PROTO_MAX_PAYLOAD < len payload ->
      encode_frame (byte_to_Z b1) payload = Raise ValueError).
Proof.
  intros Hdecl Hcrc. split.
  - rewrite (decode_frame_layout _ _ _ _ _ _ _ _ Hdecl).
    now rewrite Hcrc, !Z.eqb_refl.
  - apply encode_frame_oversized_raises_any.
Qed.

Lemma decode_frame_has_no_payload_limit_witness :
  let payload := replicate 1025 x00 in
  256 * byte_to_Z x04 + byte_to_Z x01 = len payload
  /\ 256 * byte_to_Z x1c + byte_to_Z xee
     = crc16_ccitt (x01 :: x04 :: x01 :: payload)
  /\ decode_frame (xaa :: x01 :: x04 :: x01 :: payload ++ [x1c; xee])
     = Ok (Some (1, payload))
  /\ encode_frame 1 payload = Raise ValueError.
Proof.
  intros payload.
  assert (Hdecl : 256 * byte_to_Z x04 + byte_to_Z x01 = len payload)
    by (vm_compute; reflexivity).
  assert (Hcrc : 256 * byte_to_Z x1c + byte_to_Z xee
                 = crc16_ccitt (x01 :: x04 :: x01 :: payload))
    by (vm_compute; reflexivity).
  destruct (decode_frame_has_no_payload_limit x01 x04 x01 payload x1c xee []
              Hdecl Hcrc) as [Hdec Henc].
  split; [exact Hdecl |]. split; [exact Hcrc |]. split; [exact Hdec |].
  apply Henc. vm_compute. reflexivity.
Defined.

(** ** The checksum as a map on registers *)

Lemma lxor_mod_pow2 (x y n : Z) :
  0 <= n -> Z.lxor x y mod 2 ^ n = Z.lxor (x mod 2 ^ n) (y mod 2 ^ n).
Proof.
  intros Hn. apply Z.bits_inj'. intros k Hk. rewrite Z.lxor_spec.
  destruct (Z.lt_ge_cases k n).
  - rewrite !Z.mod_pow2_bits_low by lia. apply Z.lxor_spec.
  - now rewrite !Z.mod_pow2_bits_high by lia.
Qed.

Lemma lxor_16bit (x y : Z) :
  0 <= x < 65536 -> 0 <= y < 65536 -> 0 <= Z.lxor x y < 65536.
Proof.
  intros Hx Hy.
  assert (H : Z.lxor x y = Z.lxor x y mod 2 ^ 16)
    by (rewrite lxor_mod_pow2 by lia; now rewrite !Z.mod_small by lia).
  rewrite H. apply Z.mod_pos_bound. lia.
Qed.

Lemma lxor_cancel_l (s x y : Z) : Z.lxor s x = Z.lxor s y -> x = y.
Proof.
  intros H.
  rewrite <- (Z.lxor_0_l x), <- (Z.lxor_0_l y), <- (Z.lxor_nilpotent s).
  now rewrite !Z.lxor_assoc, H.
Qed.

(** A round can be undone: on 16-bit registers [crc16_round] loses
    nothing. *)
Lemma crc16_unround_round (c : Z) :
  0 <= c < 65536 -> crc16_unround (crc16_round c) = c.
Proof.
  intros Hc. rewrite crc16_round_ref.
  unfold CCITT_FALSE.round, CCITT_FALSE.high_bit, CCITT_FALSE.poly,
    crc16_unround.
  assert (Hbit : Z.testbit c 15 = (32768 <=? c)).
  { rewrite Z.testbit_eqb by lia. change (2 ^ 15) with 32768.
    destruct (Z.leb_spec 32768 c).
    - replace (c / 32768) with 1 by (Z.div_mod_to_equations; lia).
      reflexivity.
    - replace (c / 32768) with 0 by (Z.div_mod_to_equations; lia).
      reflexivity. }
  rewrite Hbit.
  assert (Heven : forall r, Z.odd (2 * r) = false)
    by (intros r; rewrite Z.odd_mul; reflexivity).
  destruct (Z.leb_spec 32768 c) as [Hhi | Hlo].
  - set (r := c - 32768).
    assert (H2c : (2 * c) mod 2 ^ 16 = 2 * r)
      by (subst r; change (2 ^ 16) with 65536; Z.div_mod_to_equations; lia).
    assert (Hx : Z.lxor (2 * c) 4129 mod 2 ^ 16 = Z.lxor (2 * r) 4129).
    { rewrite lxor_mod_pow2 by lia. rewrite H2c. reflexivity. }
    rewrite Hx.
    assert (Hodd : Z.odd (Z.lxor (2 * r) 4129) = true).
    { rewrite <- Z.bit0_odd, Z.lxor_spec, !Z.bit0_odd, Heven. reflexivity. }
    rewrite Hodd.
    rewrite Z.lxor_assoc, Z.lxor_nilpotent, Z.lxor_0_r.
    rewrite Z.shiftr_div_pow2 by lia. change (2 ^ 1) with 2.
    subst r. Z.div_mod_to_equations. lia.
  - assert (H2c : (2 * c) mod 2 ^ 16 = 2 * c)
      by (change (2 ^ 16) with 65536; Z.div_mod_to_equations; lia).
    rewrite H2c, Heven.
    rewrite Z.shiftr_div_pow2 by lia. change (2 ^ 1) with 2.
    Z.div_mod_to_equations. lia.
Qed.

Lemma crc16_round_inj (c d : Z) :
  0 <= c < 65536 -> 0 <= d < 65536 ->
  crc16_round c = crc16_round d -> c = d.
Proof.
  intros Hc Hd H.
  rewrite <- (crc16_unround_round c Hc), <- (crc16_unround_round d Hd).
  now rewrite H.
Qed.

Lemma crc16_rounds_inj (n : nat) (c d : Z) :
  0 <= c < 65536 -> 0 <= d < 65536 ->
  Nat.iter n crc16_round c = Nat.iter n crc16_round d -> c = d.
Proof.
  intros Hc Hd. induction n as [| n IH]; cbn [Nat.iter]; [trivial |].
  intros H. apply IH. apply crc16_round_inj; [| | exact H].
  - destruct n; [exact Hc | apply crc16_round_range].
  - destruct n; [exact Hd | apply crc16_round_range].
Qed.

Lemma shifted_byte_range (b : byte) : 0 <= Z.shiftl (byte_to_Z b) 8 < 65536.
Proof.
  pose proof (byte_to_Z_range b).
  rewrite Z.shiftl_mul_pow2 by lia. change (2 ^ 8) with 256. lia.
Qed.

(** Feeding one byte: different registers stay different, and different
    bytes drive one register apart. *)
Lemma crc16_byte_inj_register (c d : Z) (b : byte) :
  0 <= c < 65536 -> 0 <= d < 65536 ->
  crc16_byte c b = crc16_byte d b -> c = d.
Proof.
  intros Hc Hd H. unfold crc16_byte in H.
  pose proof (shifted_byte_range b) as Hb.
  apply crc16_rounds_inj in H; try (apply lxor_16bit; assumption).
  rewrite (Z.lxor_comm c), (Z.lxor_comm d) in H.
  now apply lxor_cancel_l in H.
Qed.

Lemma crc16_byte_inj_byte (c : Z) (a b : byte) :
  0 <= c < 65536 -> crc16_byte c a = crc16_byte c b -> a = b.
Proof.
  intros Hc H. unfold crc16_byte in H.
  apply crc16_rounds_inj in H;
    try (apply lxor_16bit; [assumption | apply shifted_byte_range]).
  apply lxor_cancel_l in H.
  rewrite !Z.shiftl_mul_pow2 in H by lia.
  apply byte_to_Z_inj. lia.
Qed.

Lemma crc16_fold_inj (data : list byte) (c d : Z) :
  0 <= c < 65536 -> 0 <= d < 65536 ->
  fold_left crc16_byte data c = fold_left crc16_byte data d -> c = d.
Proof.
  revert c d. induction data as [| b rest IH]; intros c d Hc Hd; cbn [fold_left].
  - trivial.
  - intros H. apply IH in H; try apply crc16_byte_range.
    now apply crc16_byte_inj_register in H.
Qed.

(** Two inputs that differ in exactly one byte have different
    checksums. *)
Lemma crc16_ccitt_one_byte (pre post : list byte) (a b : byte) :
  crc16_ccitt (pre ++ a :: post) = crc16_ccitt (pre ++ b :: post) -> a = b.
Proof.
  unfold crc16_ccitt. rewrite !fold_left_app. cbn [fold_left].
  intros H.
  assert (Hs : 0 <= fold_left crc16_byte pre 0xFFFF < 65536)
    by (apply crc16_fold_range; lia).
  apply crc16_fold_inj in H; try apply crc16_byte_range.
  now apply crc16_byte_inj_byte in H.
Qed.

(** X6. [decode_frame] detects every corruption of a single byte other
    than a length byte: in a buffer that decodes, overwriting the start
    marker, the command id, one payload byte or one checksum byte with a
    different value makes [decode_frame] return [None]. *)
Theorem decode_frame_detects_one_corrupted_byte
    (data : list byte) (command_id : Z) (payload : list byte)
    (i : nat) (x x' : byte) :
  decode_frame data = Ok (Some (command_id, payload)) ->
  data !! i = Some x -> x' <> x ->
  Z.of_nat i < 6 + len payload -> i <> 2%nat -> i <> 3%nat ->
  decode_frame (<[i := x']> data) = Ok None.
Proof.
  intros Hdec Hx Hne Hi Hi2 Hi3.
  destruct (decode_frame_Some_layout _ _ _ Hdec)
    as (b1 & b2 & b3 & c0 & c1 & extra & -> & Hb1 & Hb23 & Hcrc).
  destruct i as [| [| [| [| j]]]]; try congruence.
  - (* the start marker *)
    cbn in Hx. injection Hx as <-. cbn [insert list_insert].
    rewrite (decode_frame_layout _ _ _ _ _ _ _ _ Hb23).
    destruct (Z.eqb_spec (byte_to_Z x') PROTO_START_BYTE) as [E | E];
      [| reflexivity].
    exfalso. apply Hne, byte_to_Z_inj. exact E.
  - (* the command id *)
    cbn in Hx. injection Hx as <-. cbn [insert list_insert].
    rewrite (decode_frame_layout _ _ _ _ _ _ _ _ Hb23).
    destruct (Z.eqb_spec (256 * byte_to_Z c0 + byte_to_Z c1)
                (crc16_ccitt (x' :: b2 :: b3 :: payload))) as [E | E];
      [| now rewrite andb_false_r].
    exfalso. apply Hne. rewrite Hcrc in E.
    symmetry in E. exact (crc16_ccitt_one_byte [] _ _ _ E).
  - change ((payload ++ c0 :: c1 :: extra) !! j = Some x) in Hx.
    change (<[S (S (S (S j))) := x']>
              (xaa :: b1 :: b2 :: b3 :: payload ++ c0 :: c1 :: extra))
      with (xaa :: b1 :: b2 :: b3 :: <[j := x']> (payload ++ c0 :: c1 :: extra)).
    destruct (Nat.lt_ge_cases j (length payload)) as [Hj | Hj].
    + (* a payload byte *)
      rewrite lookup_app_l in Hx by exact Hj.
      rewrite insert_app_l by exact Hj.
      assert (Hlen : 256 * byte_to_Z b2 + byte_to_Z b3
                     = len (<[j := x']> payload))
        by (unfold len in *; now rewrite length_insert).
      rewrite (decode_frame_layout _ _ _ _ _ _ _ _ Hlen).
      destruct (Z.eqb_spec (256 * byte_to_Z c0 + byte_to_Z c1)
                  (crc16_ccitt (b1 :: b2 :: b3 :: <[j := x']> payload)))
        as [E | E]; [| now rewrite andb_false_r].
      exfalso. apply Hne. rewrite Hcrc in E.
      rewrite insert_take_drop in E by exact Hj.
      rewrite <- (take_drop_middle payload j x Hx) in E at 1.
      symmetry in E.
      exact (crc16_ccitt_one_byte (b1 :: b2 :: b3 :: take j payload) _ _ _ E).
    + (* a checksum byte *)
      replace j with (length payload + (j - length payload))%nat in * by lia.
      rewrite lookup_app_r in Hx by lia.
      rewrite insert_app_r.
      replace (length payload + (j - length payload) - length payload)%nat
        with (j - length payload)%nat in Hx by lia.
      destruct (j - length payload)%nat as [| [| k]] eqn:Hk.
      * cbn in Hx. injection Hx as <-. cbn [insert list_insert].
        rewrite (decode_frame_layout _ _ _ _ _ _ _ _ Hb23).
        destruct (Z.eqb_spec (256 * byte_to_Z x' + byte_to_Z c1)
                    (crc16_ccitt (b1 :: b2 :: b3 :: payload))) as [E | E];
          [| now rewrite andb_false_r].
        exfalso. apply Hne.
        now destruct (two_bytes_inj x' c1 c0 c1 ltac:(congruence)).
      * cbn in Hx. injection Hx as <-. cbn [insert list_insert].
        rewrite (decode_frame_layout _ _ _ _ _ _ _ _ Hb23).
        destruct (Z.eqb_spec (256 * byte_to_Z c0 + byte_to_Z x')
                    (crc16_ccitt (b1 :: b2 :: b3 :: payload))) as [E | E];
          [| now rewrite andb_false_r].
        exfalso. apply Hne.
        now destruct (two_bytes_inj c0 x' c0 c1 ltac:(congruence)).
      * exfalso. unfold len in Hi. lia.
Qed.

Lemma decode_frame_detects_one_corrupted_byte_witness :
  let frame := [xaa; x11; x00; x02; x01; xf4; x4d; xcd] in
  decode_frame frame = Ok (Some (CMD_LED_BLINK, [x01; xf4]))
  /\ frame !! 4%nat = Some x01
  /\ decode_frame (<[4%nat := xfe]> frame) = Ok None.
Proof.
  intros frame.
  assert (Hdec : decode_frame frame = Ok (Some (CMD_LED_BLINK, [x01; xf4])))
    by (vm_compute; reflexivity).
  split; [exact Hdec |]. split; [reflexivity |].
  apply (decode_frame_detects_one_corrupted_byte frame CMD_LED_BLINK
           [x01; xf4] 4 x01 xfe Hdec); try reflexivity; try discriminate.
Defined.

Lemma crc16_round_small (x : Z) : 0 <= x < 32768 -> crc16_round x = 2 * x.
Proof.
  intros Hx. rewrite crc16_round_ref.
  unfold CCITT_FALSE.round, CCITT_FALSE.high_bit.
  assert (Hbit : Z.testbit x 15 = false).
  { rewrite Z.testbit_eqb by lia. change (2 ^ 15) with 32768.
    replace (x / 32768) with 0 by (Z.div_mod_to_equations; lia).
    reflexivity. }
  rewrite Hbit. change (2 ^ 16) with 65536. Z.div_mod_to_equations. lia.
Qed.

Lemma crc16_rounds_low_byte (x : Z) :
  0 <= x < 256 -> Nat.iter 8 crc16_round x = 256 * x.
Proof.
  intros Hx. simpl Nat.iter.
  rewrite (crc16_round_small x) by lia.
  rewrite (crc16_round_small (2 * x)) by lia.
  rewrite (crc16_round_small (2 * (2 * x))) by lia.
  rewrite (crc16_round_small (2 * (2 * (2 * x)))) by lia.
  rewrite (crc16_round_small (2 * (2 * (2 * (2 * x))))) by lia.
  rewrite (crc16_round_small (2 * (2 * (2 * (2 * (2 * x)))))) by lia.
  rewrite (crc16_round_small (2 * (2 * (2 * (2 * (2 * (2 * x))))))) by lia.
  rewrite (crc16_round_small (2 * (2 * (2 * (2 * (2 * (2 * (2 * x))))))))
    by lia.
  lia.
Qed.

Lemma lxor_high_byte (s : Z) :
  0 <= s -> Z.lxor s (Z.shiftl (s / 256) 8) = s mod 256.
Proof.
  intros Hs. apply Z.bits_inj'. intros k Hk.
  change 256 with (2 ^ 8). rewrite <- Z.shiftr_div_pow2 by lia.
  rewrite Z.lxor_spec.
  destruct (Z.lt_ge_cases k 8).
  - rewrite Z.shiftl_spec_low by lia.
    rewrite Z.mod_pow2_bits_low by lia. apply xorb_false_r.
  - rewrite Z.shiftl_spec by lia. rewrite Z.shiftr_spec by lia.
    rewrite Z.mod_pow2_bits_high by lia.
    replace (k - 8 + 8) with k by lia. apply xorb_nilpotent.
Qed.

(** Feeding a register its own two bytes, high byte first, empties it. *)
Lemma crc16_feed_own_bytes (s : Z) (hi lo : byte) :
  0 <= s < 65536 -> 256 * byte_to_Z hi + byte_to_Z lo = s ->
  crc16_byte (crc16_byte s hi) lo = 0.
Proof.
  intros Hs Hbytes.
  pose proof (byte_to_Z_range hi). pose proof (byte_to_Z_range lo).
  assert (Hhi : byte_to_Z hi = s / 256) by (Z.div_mod_to_equations; lia).
  assert (Hlo : byte_to_Z lo = s mod 256) by (Z.div_mod_to_equations; lia).
  assert (H1 : crc16_byte s hi = 256 * byte_to_Z lo).
  { unfold crc16_byte. rewrite Hhi, lxor_high_byte by lia.
    rewrite <- Hlo. apply crc16_rounds_low_byte. lia. }
  rewrite H1. unfold crc16_byte.
  rewrite Z.shiftl_mul_pow2 by lia. change (2 ^ 8) with 256.
  rewrite (Z.mul_comm (byte_to_Z lo) 256), Z.lxor_nilpotent.
  reflexivity.
Qed.

Lemma crc16_ccitt_app_checksum (data : list byte) (hi lo : byte) :
  256 * byte_to_Z hi + byte_to_Z lo = crc16_ccitt data ->
  crc16_ccitt (data ++ [hi; lo]) = 0.
Proof.
  intros H. unfold crc16_ccitt at 1. rewrite fold_left_app. cbn [fold_left].
  apply crc16_feed_own_bytes; [apply crc16_ccitt_range | exact H].
Qed.

(** X7. The checksum of a message followed by its own checksum, high
    byte first, is 0. So in every frame [encode_frame] returns, the
    CRC-16 of all the bytes after the start marker, the two checksum
    bytes included, is 0. *)
Theorem crc16_ccitt_residue_is_zero :
  (forall data : list byte,
     exists packed,
       pack_H (crc16_ccitt data) = Ok packed
       /\ crc16_ccitt (data ++ packed) = 0)
  /\ (forall (command_id : Z) (payload frame : list byte),
        encode_frame command_id payload = Ok frame ->
        crc16_ccitt (drop 1 frame) = 0).
Proof.
  split.
  - intros data.
    destruct (pack_H_bytes (crc16_ccitt data)) as (hi & lo & Hp & Hv);
      [pose proof (crc16_ccitt_range data); lia |].
    exists [hi; lo]. split; [exact Hp |].
    now apply crc16_ccitt_app_checksum.
  - intros command_id payload frame Henc.
    destruct (encode_frame_Ok_layout _ _ _ Henc)
      as (b1 & b2 & b3 & c0 & c1 & -> & _ & _ & Hcrc).
    cbn [drop].
    change (b1 :: b2 :: b3 :: payload ++ [c0; c1])
      with ((b1 :: b2 :: b3 :: payload) ++ [c0; c1]).
    now apply crc16_ccitt_app_checksum.
Qed.

Lemma crc16_ccitt_residue_is_zero_witness :
  encode_frame CMD_LED_BLINK [x01; xf4]
  = Ok [xaa; x11; x00; x02; x01; xf4; x4d; xcd]
  /\ crc16_ccitt [x11; x00; x02; x01; xf4; x4d; xcd] = 0.
Proof.
  assert (Henc : encode_frame CMD_LED_BLINK [x01; xf4]
                 = Ok [xaa; x11; x00; x02; x01; xf4; x4d; xcd])
    by (vm_compute; reflexivity).
  split; [exact Henc |].
  exact (proj2 crc16_ccitt_residue_is_zero _ _ _ Henc).
Defined.

(** ** Appends: outcomes and invariants *)

Lemma pack_H_outcome (v : Z) :
  (0 <= v <= 0xFFFF /\ exists p, pack_H v = Ok p /\ len p = 2)
  \/ (~ 0 <= v <= 0xFFFF /\ pack_H v = Raise StructError).
Proof.
  unfold pack_H.
  destruct (Z.leb_spec 0 v); destruct (Z.leb_spec v 0xFFFF); cbn [andb];
    try (right; split; [lia | reflexivity]).
  left. split; [lia |]. now eexists.
Qed.

Lemma pack_h_outcome (v : Z) :
  (-0x8000 <= v <= 0x7FFF /\ exists p, pack_h v = Ok p /\ len p = 2)
  \/ (~ -0x8000 <= v <= 0x7FFF /\ pack_h v = Raise StructError).
Proof.
  unfold pack_h.
  destruct (Z.leb_spec (-0x8000) v); destruct (Z.leb_spec v 0x7FFF);
    cbn [andb]; try (right; split; [lia | reflexivity]).
  left. split; [lia |]. now eexists.
Qed.

Lemma pack_i_outcome (v : Z) :
  (-0x80000000 <= v <= 0x7FFFFFFF /\ exists p, pack_i v = Ok p /\ len p = 4)
  \/ (~ -0x80000000 <= v <= 0x7FFFFFFF /\ pack_i v = Raise StructError).
Proof.
  unfold pack_i.
  destruct (Z.leb_spec (-0x80000000) v); destruct (Z.leb_spec v 0x7FFFFFFF);
    cbn [andb]; try (right; split; [lia | reflexivity]).
  left. split; [lia |]. now eexists.
Qed.

Lemma pack_f_outcome `{FC : FloatCodec} (v : pyfloat) :
  (exists p, pack_f v = Ok p /\ len p = 4) \/ pack_f v = Raise OverflowError.
Proof.
  destruct (pack_f v) as [p | e] eqn:Hp.
  - left. exists p. split; [reflexivity | exact (pack_f_length v p Hp)].
  - right. unfold pack_f in Hp. destruct (encode_f32 v); congruence.
Qed.

(** The outcomes of an append: True with the bytes of the value written
    after the old content, or the store exactly as it was and either
    False or one of three exceptions. *)
Lemma append_outcome `{FC : FloatCodec} (c : PayloadBuilder.call)
    (self : PayloadBuilder.t) (h : heap) (buf : list byte) :
  h !! PayloadBuilder.buffer self = Some buf ->
  (exists written,
     PayloadBuilder.run c self h
     = (Ok true, <[PayloadBuilder.buffer self := buf ++ written]> h)
     /\ PayloadBuilder.appended_size c = Ok (len written)
     /\ len buf + len written <= PayloadBuilder.max_size self)
  \/ (exists r,
        PayloadBuilder.run c self h = (r, h)
        /\ (r = Ok false \/ r = Raise StructError
            \/ r = Raise OverflowError \/ r = Raise UnicodeEncodeError)).
Proof.
  intros Hbuf.
  destruct c as [v | v | v | v | v | v | d];
    cbn [PayloadBuilder.run PayloadBuilder.appended_size].
  - rewrite (add_uint8_eq self h buf Hbuf).
    destruct (Z.ltb_spec (PayloadBuilder.max_size self) (len buf + 1)).
    + right. eexists. split; [reflexivity | now left].
    + left. eexists. split; [reflexivity |]. split; [reflexivity | len_lia].
  - rewrite (add_uint16_eq self h buf Hbuf).
    destruct (Z.ltb_spec (PayloadBuilder.max_size self) (len buf + 2)).
    + right. eexists. split; [reflexivity | now left].
    + destruct (pack_H_outcome v) as [(_ & p & -> & Hp) | [_ ->]].
      * left. exists p. rewrite Hp. split; [reflexivity |].
        split; [reflexivity | lia].
      * right. eexists. split; [reflexivity | tauto].
  - rewrite (add_int16_eq self h buf Hbuf).
    destruct (Z.ltb_spec (PayloadBuilder.max_size self) (len buf + 2)).
    + right. eexists. split; [reflexivity | now left].
    + destruct (pack_h_outcome v) as [(_ & p & -> & Hp) | [_ ->]].
      * left. exists p. rewrite Hp. split; [reflexivity |].
        split; [reflexivity | lia].
      * right. eexists. split; [reflexivity | tauto].
  - rewrite (add_int32_eq self h buf Hbuf).
    destruct (Z.ltb_spec (PayloadBuilder.max_size self) (len buf + 4)).
    + right. eexists. split; [reflexivity | now left].
    + destruct (pack_i_outcome v) as [(_ & p & -> & Hp) | [_ ->]].
      * left. exists p. rewrite Hp. split; [reflexivity |].
        split; [reflexivity | lia].
      * right. eexists. split; [reflexivity | tauto].
  - rewrite (add_float_eq self h buf Hbuf).
    destruct (Z.ltb_spec (PayloadBuilder.max_size self) (len buf + 4)).
    + right. eexists. split; [reflexivity | now left].
    + destruct (pack_f_outcome v) as [(p & -> & Hp) | ->].
      * left. exists p. rewrite Hp. split; [reflexivity |].
        split; [reflexivity | lia].
      * right. eexists. split; [reflexivity | tauto].
  - rewrite (add_string_eq self h buf Hbuf).
    destruct (utf8_encode v) as [encoded | e] eqn:Henc.
    + destruct (Z.ltb_spec (PayloadBuilder.max_size self)
                  (len buf + 1 + len encoded)).
      { right. eexists. split; [reflexivity | now left]. }
      destruct (255 <? len encoded).
      { right. eexists. split; [reflexivity | now left]. }
      left. eexists. split; [reflexivity |].
      rewrite result_bind_Ok, len_cons. split; [reflexivity | lia].
    + right. eexists. split; [reflexivity |].
      rewrite (utf8_encode_raises v e Henc). tauto.
  - rewrite (add_bytes_eq self h buf Hbuf).
    destruct (Z.ltb_spec (PayloadBuilder.max_size self) (len buf + len d)).
    + right. eexists. split; [reflexivity | now left].
    + left. exists d. split; [reflexivity |]. split; [reflexivity | lia].
Qed.

Lemma pack_i_bytes (v : Z) (p : list byte) :
  pack_i v = Ok p ->
  len p = 4 /\ big_endian p = v mod 2 ^ 32 /\ - 2 ^ 31 <= v < 2 ^ 31.
Proof.
  unfold pack_i.
  destruct (Z.leb_spec (-0x80000000) v); destruct (Z.leb_spec v 0x7FFFFFFF);
    cbn [andb]; try discriminate.
  intros [= <-]. split; [reflexivity |]. split; [| lia].
  unfold big_endian. cbn [fold_left].
  rewrite !byte_to_Z_low8, !Z.shiftr_div_pow2 by lia.
  change (2 ^ 24) with 16777216. change (2 ^ 16) with 65536.
  change (2 ^ 8) with 256. change (2 ^ 32) with 4294967296.
  Z.div_mod_to_equations. lia.
Qed.

Lemma big_endian_app (bs : list byte) (b : byte) :
  big_endian (bs ++ [b]) = 256 * big_endian bs + byte_to_Z b.
Proof. unfold big_endian. now rewrite fold_left_app. Qed.

Lemma big_endian_inj (bs bs' : list byte) :
  length bs = length bs' -> big_endian bs = big_endian bs' -> bs = bs'.
Proof.
  revert bs'. induction bs as [| b bs IH] using rev_ind;
    intros bs'; destruct bs' as [| b' bs' _] using rev_ind;
    rewrite ?length_app; cbn [length]; try lia; [reflexivity |].
  intros Hlen. rewrite !big_endian_app. intros Hval.
  pose proof (byte_to_Z_range b). pose proof (byte_to_Z_range b').
  assert (byte_to_Z b = byte_to_Z b') as Hb by lia.
  rewrite (byte_to_Z_inj b b' Hb), (IH bs'); [reflexivity | lia | lia].
Qed.

(** The bytes of a value are determined by the call. *)
Lemma value_bytes_unique `{FC : FloatCodec} (c : PayloadBuilder.call)
    (written written' : list byte) :
  value_bytes c written -> value_bytes c written' -> written = written'.
Proof.
  destruct c as [v | v | v | v | v | v | d]; cbn [value_bytes].
  - intros (Hl & Hv) (Hl' & Hv').
    apply big_endian_inj; [unfold len in *; lia | congruence].
  - intros (Hl & Hv & _) (Hl' & Hv' & _).
    apply big_endian_inj; [unfold len in *; lia | congruence].
  - intros (Hl & Hv & _) (Hl' & Hv' & _).
    apply big_endian_inj; [unfold len in *; lia | congruence].
  - intros (Hl & Hv & _) (Hl' & Hv' & _).
    apply big_endian_inj; [unfold len in *; lia | congruence].
  - congruence.
  - intros (n & encoded & Henc & _ & Hn & ->)
           (n' & encoded' & Henc' & _ & Hn' & ->).
    rewrite Henc in Henc'. injection Henc' as <-.
    f_equal. apply byte_to_Z_inj. congruence.
  - congruence.
Qed.

(** The bytes a successful append writes are the bytes of its value. *)
Lemma append_writes_value_bytes `{FC : FloatCodec} (c : PayloadBuilder.call)
    (self : PayloadBuilder.t) (h h' : heap) (buf : list byte) :
  h !! PayloadBuilder.buffer self = Some buf ->
  PayloadBuilder.run c self h = (Ok true, h') ->
  exists written,
    h' = <[PayloadBuilder.buffer self := buf ++ written]> h
    /\ value_bytes c written.
Proof.
  intros Hbuf.
  destruct c as [v | v | v | v | v | v | d];
    cbn [PayloadBuilder.run value_bytes].
  - rewrite (add_uint8_eq self h buf Hbuf).
    destruct (_ <? _); [discriminate |]. intros [= <-].
    eexists. split; [reflexivity |]. split; [reflexivity |].
    unfold big_endian. cbn [fold_left]. rewrite byte_to_Z_low8.
    change (2 ^ 8) with 256. lia.
  - rewrite (add_uint16_eq self h buf Hbuf).
    destruct (_ <? _); [discriminate |].
    destruct (pack_H_outcome v) as [(Hv & _) | [_ ->]]; [| discriminate].
    destruct (pack_H_bytes v Hv) as (b0 & b1 & -> & Hval).
    intros [= <-]. eexists. split; [reflexivity |].
    split; [reflexivity |]. unfold big_endian. cbn [fold_left].
    change (2 ^ 16) with 65536. lia.
  - rewrite (add_int16_eq self h buf Hbuf).
    destruct (_ <? _); [discriminate |].
    destruct (pack_h_outcome v) as [(Hv & _) | [_ ->]]; [| discriminate].
    destruct (pack_h_bytes v Hv) as (b0 & b1 & -> & Hval).
    intros [= <-]. eexists. split; [reflexivity |].
    split; [reflexivity |]. unfold big_endian. cbn [fold_left].
    change (2 ^ 16) with 65536. change (2 ^ 15) with 32768.
    change 0x10000 with 65536 in Hval. lia.
  - rewrite (add_int32_eq self h buf Hbuf).
    destruct (_ <? _); [discriminate |].
    destruct (pack_i v) as [p | e] eqn:Hp; [| discriminate].
    intros [= <-]. exists p. split; [reflexivity |].
    exact (pack_i_bytes v p Hp).
  - rewrite (add_float_eq self h buf Hbuf).
    destruct (_ <? _); [discriminate |].
    unfold pack_f. destruct (encode_f32 v) as [p |]; [| discriminate].
    intros [= <-]. now exists p.
  - rewrite (add_string_eq self h buf Hbuf).
    destruct (utf8_encode v) as [encoded | e] eqn:Henc; [| discriminate].
    destruct (_ <? _); [discriminate |].
    destruct (Z.ltb_spec 255 (len encoded)); [discriminate |].
    intros [= <-]. eexists. split; [reflexivity |].
    exists (byte_of_low8 (len encoded)), encoded.
    split; [reflexivity |]. split; [assumption |]. split; [| reflexivity].
    apply byte_to_Z_low8_small. pose proof (len_nonneg encoded). lia.
  - rewrite (add_bytes_eq self h buf Hbuf).
    destruct (_ <? _); [discriminate |]. intros [= <-].
    now exists d.
Qed.

(** X8. An append is all or nothing, whatever its outcome. Either it
    returns True and the buffer is the old content followed by the bytes
    of the value (the big-endian bytes of the integer, the four bytes of
    the float, the length byte and UTF-8 bytes of the string, the span
    itself), still within the maximum size; or the store is exactly as
    before the call, and the call returned False or raised struct.error,
    OverflowError or UnicodeEncodeError. No other object of the store is
    touched. *)
Theorem append_is_all_or_nothing `{FC : FloatCodec}
    (c : PayloadBuilder.call) (self : PayloadBuilder.t) (h h' : heap)
    (buf : list byte) (r : result bool) :
  h !! PayloadBuilder.buffer self = Some buf ->
  PayloadBuilder.run c self h = (r, h') ->
  (r = Ok true
   /\ exists written,
        h' = <[PayloadBuilder.buffer self := buf ++ written]> h
        /\ value_bytes c written
        /\ PayloadBuilder.appended_size c = Ok (len written)
        /\ len buf + len written <= PayloadBuilder.max_size self)
  \/ (h' = h
      /\ (r = Ok false \/ r = Raise StructError
          \/ r = Raise OverflowError \/ r = Raise UnicodeEncodeError)).
Proof.
  intros Hbuf Hrun.
  destruct (append_outcome c self h buf Hbuf)
    as [(written & Hw & Hsize & Hfit) | (r' & Hr & Hwhich)];
    rewrite Hrun in *.
  - injection Hw as -> ->. left. split; [reflexivity |].
    destruct (append_writes_value_bytes c self h _ buf Hbuf Hrun)
      as (written' & Heq & Hbytes).
    assert (written' = written) as ->.
    { apply (f_equal (fun m => m !! PayloadBuilder.buffer self)) in Heq.
      rewrite !lookup_insert_eq in Heq. injection Heq as Heq.
      symmetry. exact (app_inv_head _ _ _ Heq). }
    now exists written.
  - injection Hr as -> ->. right. now split.
Qed.

Lemma append_is_all_or_nothing_witness :
  let self := {| PayloadBuilder.buffer := 1%positive;
                 PayloadBuilder.max_size := PROTO_MAX_PAYLOAD |} in
  let h : heap := {[ 1%positive := [x01] ]} in
  let h' : heap := {[ 1%positive := [x01; xfb; x2e] ]} in
  let bad := PayloadBuilder.Add_uint16 (FC := f32_bits) 70000 in
  let good := PayloadBuilder.Add_int16 (FC := f32_bits) (-1234) in
  h !! PayloadBuilder.buffer self = Some [x01]
  /\ PayloadBuilder.run bad self h = (Raise StructError, h)
  /\ PayloadBuilder.run good self h = (Ok true, h')
  /\ exists written,
       h' = <[PayloadBuilder.buffer self := [x01] ++ written]> h
       /\ value_bytes good written
       /\ PayloadBuilder.appended_size good = Ok (len written)
       /\ len [x01] + len written <= PayloadBuilder.max_size self.
Proof.
  intros self h h' bad good.
  assert (Hbuf : h !! PayloadBuilder.buffer self = Some [x01]) by reflexivity.
  assert (Hbad : PayloadBuilder.run bad self h = (Raise StructError, h))
    by (subst bad; cbn [PayloadBuilder.run];
        rewrite (add_uint16_eq self h _ Hbuf); vm_compute; reflexivity).
  assert (Hgood : PayloadBuilder.run good self h = (Ok true, h'))
    by (subst good; cbn [PayloadBuilder.run];
        rewrite (add_int16_eq self h _ Hbuf); vm_compute; reflexivity).
  split; [exact Hbuf |]. split; [exact Hbad |]. split; [exact Hgood |].
  destruct (append_is_all_or_nothing good self h h' [x01] _ Hbuf Hgood)
    as [[_ H] | [_ [H | [H | [H | H]]]]];
    [exact H | discriminate H..].
Defined.

(** X9. Values out of range. [add_uint8] never raises: it keeps the low
    eight bits of any integer, so with room for one byte it returns True
    and the buffer is the old content followed by the one byte of value
    [v mod 256], and without room it returns False and leaves the store
    as it was. When there is room for the value, [add_uint16],
    [add_int16] and [add_int32] return True exactly for the values of
    their format and raise struct.error for every other integer. *)
Theorem fixed_width_append_range (self : PayloadBuilder.t) (h : heap)
    (buf : list byte) (v : Z) :
  h !! PayloadBuilder.buffer self = Some buf ->
  (exists b,
     byte_to_Z b = v mod 2 ^ 8
     /\ PayloadBuilder.add_uint8 self v h
        = if PayloadBuilder.max_size self <? len buf + 1
          then (Ok false, h)
          else (Ok true, <[PayloadBuilder.buffer self := buf ++ [b]]> h))
  /\ (len buf + 2 <= PayloadBuilder.max_size self ->
      (fst (PayloadBuilder.add_uint16 self v h) = Ok true
       <-> 0 <= v <= 0xFFFF)
      /\ (fst (PayloadBuilder.add_uint16 self v h) = Raise StructError
          <-> ~ 0 <= v <= 0xFFFF)
      /\ (fst (PayloadBuilder.add_int16 self v h) = Ok true
          <-> -0x8000 <= v <= 0x7FFF)
      /\ (fst (PayloadBuilder.add_int16 self v h) = Raise StructError
          <-> ~ -0x8000 <= v <= 0x7FFF))
  /\ (len buf + 4 <= PayloadBuilder.max_size self ->
      (fst (PayloadBuilder.add_int32 self v h) = Ok true
       <-> -0x80000000 <= v <= 0x7FFFFFFF)
      /\ (fst (PayloadBuilder.add_int32 self v h) = Raise StructError
          <-> ~ -0x80000000 <= v <= 0x7FFFFFFF)).
Proof.
  intros Hbuf. split; [| split].
  - exists (byte_of_low8 v). split.
    + rewrite byte_to_Z_low8. change (2 ^ 8) with 256. reflexivity.
    + exact (add_uint8_eq self h buf Hbuf v).
  - intros Hroom.
    rewrite (add_uint16_eq self h buf Hbuf), (add_int16_eq self h buf Hbuf).
    destruct (Z.ltb_spec (PayloadBuilder.max_size self) (len buf + 2));
      [lia |].
    destruct (pack_H_outcome v) as [(HH & pH & -> & _) | [HH ->]];
      destruct (pack_h_outcome v) as [(Hh & ph & -> & _) | [Hh ->]];
      cbn [fst]; repeat split; intros; try tauto; try discriminate.
  - intros Hroom. rewrite (add_int32_eq self h buf Hbuf).
    destruct (Z.ltb_spec (PayloadBuilder.max_size self) (len buf + 4));
      [lia |].
    destruct (pack_i_outcome v) as [(Hi & p & -> & _) | [Hi ->]];
      cbn [fst]; repeat split; intros; try tauto; try discriminate.
Qed.

Lemma fixed_width_append_range_witness :
  let self := {| PayloadBuilder.buffer := 1%positive;
                 PayloadBuilder.max_size := PROTO_MAX_PAYLOAD |} in
  let h : heap := {[ 1%positive := [] ]} in
  h !! PayloadBuilder.buffer self = Some []
  /\ len (@nil byte) + 2 <= PayloadBuilder.max_size self
  /\ fst (PayloadBuilder.add_int16 self (-1234) h) = Ok true
  /\ fst (PayloadBuilder.add_int16 self 40000 h) = Raise StructError.
Proof.
  intros self h.
  assert (Hbuf : h !! PayloadBuilder.buffer self = Some []) by reflexivity.
  assert (Hroom : len (@nil byte) + 2 <= PayloadBuilder.max_size self)
    by (vm_compute; discriminate).
  split; [exact Hbuf |]. split; [exact Hroom |]. split.
  - destruct (fixed_width_append_range self h [] (-1234) Hbuf)
      as (_ & H16 & _).
    destruct (H16 Hroom) as (_ & _ & Hok & _). apply Hok. lia.
  - destruct (fixed_width_append_range self h [] 40000 Hbuf)
      as (_ & H16 & _).
    destruct (H16 Hroom) as (_ & _ & _ & Hbad). apply Hbad. lia.
Defined.

(** Along any sequence of calls the buffer only grows at its end. *)
Lemma builder_steps_buffer `{FC : FloatCodec} (self : PayloadBuilder.t)
    (h h' : heap) (buf : list byte) :
  h !! PayloadBuilder.buffer self = Some buf ->
  builder_steps self h h' ->
  exists written,
    h' = <[PayloadBuilder.buffer self := buf ++ written]> h
    /\ (len buf <= PayloadBuilder.max_size self ->
        len (buf ++ written) <= PayloadBuilder.max_size self).
Proof.
  intros Hbuf Hsteps.
  induction Hsteps as [h | h h1 h2 c r _ IH Hrun | h h1 h2 r _ IH Hget].
  - exists []. rewrite app_nil_r. split; [| trivial].
    symmetry. now apply insert_id.
  - destruct (IH Hbuf) as (w1 & -> & Hfit1).
    assert (Hbuf1 : <[PayloadBuilder.buffer self := buf ++ w1]> h
                    !! PayloadBuilder.buffer self = Some (buf ++ w1))
      by apply lookup_insert_eq.
    destruct (append_outcome c self _ _ Hbuf1)
      as [(w2 & Hw & _ & Hfit2) | (r' & Hr & _)];
      rewrite Hrun in *.
    + injection Hw as _ ->. exists (w1 ++ w2).
      rewrite insert_insert_eq, <- app_assoc. split; [reflexivity |].
      intros _. rewrite app_assoc. len_lia.
    + injection Hr as _ ->. now exists w1.
  - destruct (IH Hbuf) as (w1 & -> & Hfit1).
    unfold PayloadBuilder.get_payload, Bytearray.to_bytes in Hget.
    rewrite (Bytearray_contents_eq _ _ (buf ++ w1)) in Hget
      by apply lookup_insert_eq.
    injection Hget as _ <-. now exists w1.
Qed.

(** X10. Whatever sequence of appends and [get_payload] calls is made
    on a builder, whatever they return or raise: the buffer is its
    earlier content followed by the bytes written since, no other object
    of the store is changed, and a buffer within the maximum size stays
    within it. *)
Theorem builder_buffer_only_grows `{FC : FloatCodec}
    (self : PayloadBuilder.t) (h h' : heap) (buf : list byte) :
  h !! PayloadBuilder.buffer self = Some buf ->
  builder_steps self h h' ->
  exists written,
    h' !! PayloadBuilder.buffer self = Some (buf ++ written)
    /\ (forall l, l <> PayloadBuilder.buffer self -> h' !! l = h !! l)
    /\ (len buf <= PayloadBuilder.max_size self ->
        len (buf ++ written) <= PayloadBuilder.max_size self).
Proof.
  intros Hbuf Hsteps.
  destruct (builder_steps_buffer self h h' buf Hbuf Hsteps)
    as (written & -> & Hfit).
  exists written. split; [apply lookup_insert_eq |]. split; [| exact Hfit].
  intros l Hl. now apply lookup_insert_ne.
Qed.

Lemma builder_buffer_only_grows_witness :
  let self := {| PayloadBuilder.buffer := 1%positive;
                 PayloadBuilder.max_size := 3 |} in
  let h : heap := {[ 1%positive := [x01] ]} in
  let h' : heap := {[ 1%positive := [x01; x00; x07] ]} in
  h !! PayloadBuilder.buffer self = Some [x01]
  /\ builder_steps (FC := f32_bits) self h h'
  /\ exists written,
       h' !! PayloadBuilder.buffer self = Some ([x01] ++ written)
       /\ (forall l, l <> PayloadBuilder.buffer self -> h' !! l = h !! l)
       /\ (len [x01] <= PayloadBuilder.max_size self ->
           len ([x01] ++ written) <= PayloadBuilder.max_size self).
Proof.
  intros self h h'.
  assert (Hbuf : h !! PayloadBuilder.buffer self = Some [x01]) by reflexivity.
  assert (Hsteps : builder_steps (FC := f32_bits) self h h').
  { apply (steps_append self h h' h' (PayloadBuilder.Add_uint8 9) (Ok false)).
    - apply (steps_append self h h h' (PayloadBuilder.Add_int16 7) (Ok true)).
      + apply steps_none.
      + cbn [PayloadBuilder.run]. rewrite (add_int16_eq self h _ Hbuf).
        vm_compute. reflexivity.
    - cbn [PayloadBuilder.run].
      rewrite (add_uint8_eq self h' [x01; x00; x07]) by reflexivity.
      vm_compute. reflexivity. }
  split; [exact Hbuf |]. split; [exact Hsteps |].
  exact (builder_buffer_only_grows self h h' [x01] Hbuf Hsteps).
Defined.

(** X11. A payload cannot outgrow its builder: whatever is appended to
    a new builder whose maximum size is between 0 and 1024, the default,
    [get_payload] returns at most that many bytes, and [encode_frame]
    accepts them under every command id in range(256). *)
Theorem built_payload_is_encodable `{FC : FloatCodec}
    (max_size : Z) (h0 h1 h2 h3 : heap) (self : PayloadBuilder.t)
    (r : result (list byte)) (command_id : Z) :
  0 <= max_size <= PROTO_MAX_PAYLOAD ->
  PayloadBuilder.new max_size h0 = (Ok self, h1) ->
  builder_steps self h1 h2 ->
  PayloadBuilder.get_payload self h2 = (r, h3) ->
  0 <= command_id < 256 ->
  exists payload,
    r = Ok payload /\ h3 = h2 /\ len payload <= max_size
    /\ returns (encode_frame command_id payload).
Proof.
  intros Hmax Hnew Hsteps Hget Hid.
  destruct (new_builder_buffer max_size h0)
    as (self' & h1' & Hnew' & Hcap & _ & Hh1).
  rewrite Hnew in Hnew'. injection Hnew' as <- <-.
  assert (Hbuf : h1 !! PayloadBuilder.buffer self = Some [])
    by (rewrite Hh1; apply lookup_insert_eq).
  destruct (builder_steps_buffer self h1 h2 [] Hbuf Hsteps)
    as (written & -> & Hfit).
  unfold PayloadBuilder.get_payload, Bytearray.to_bytes in Hget.
  rewrite (Bytearray_contents_eq _ _ ([] ++ written)) in Hget
    by apply lookup_insert_eq.
  injection Hget as <- <-. cbn [app] in *.
  exists written. split; [reflexivity |]. split; [reflexivity |].
  assert (Hlen : len written <= max_size)
    by (rewrite <- Hcap; apply Hfit; rewrite Hcap, len_nil; lia).
  split; [exact Hlen |].
  destruct (encode_frame_layout command_id written Hid ltac:(lia))
    as (b1 & b2 & b3 & c0 & c1 & -> & _).
  now eexists.
Qed.

Lemma built_payload_is_encodable_witness :
  let self := {| PayloadBuilder.buffer := 1%positive;
                 PayloadBuilder.max_size := PROTO_MAX_PAYLOAD |} in
  let h1 : heap := {[ 1%positive := [] ]} in
  let h2 : heap := {[ 1%positive := [x01; xf4] ]} in
  0 <= PROTO_MAX_PAYLOAD <= PROTO_MAX_PAYLOAD
  /\ PayloadBuilder.new PROTO_MAX_PAYLOAD ∅ = (Ok self, h1)
  /\ builder_steps (FC := f32_bits) self h1 h2
  /\ PayloadBuilder.get_payload self h2 = (Ok [x01; xf4], h2)
  /\ 0 <= CMD_LED_BLINK < 256
  /\ exists payload,
       Ok [x01; xf4] = Ok payload /\ h2 = h2
       /\ len payload <= PROTO_MAX_PAYLOAD
       /\ returns (encode_frame CMD_LED_BLINK payload).
Proof.
  intros self h1 h2.
  assert (Hmax : 0 <= PROTO_MAX_PAYLOAD <= PROTO_MAX_PAYLOAD)
    by (unfold PROTO_MAX_PAYLOAD; lia).
  assert (Hnew : PayloadBuilder.new PROTO_MAX_PAYLOAD ∅ = (Ok self, h1))
    by (vm_compute; reflexivity).
  assert (Hsteps : builder_steps (FC := f32_bits) self h1 h2).
  { apply (steps_append self h1 h1 h2 (PayloadBuilder.Add_uint16 500)
             (Ok true)); [apply steps_none |].
    cbn [PayloadBuilder.run].
    rewrite (add_uint16_eq self h1 []) by reflexivity.
    vm_compute. reflexivity. }
  assert (Hget : PayloadBuilder.get_payload self h2 = (Ok [x01; xf4], h2))
    by reflexivity.
  assert (Hid : 0 <= CMD_LED_BLINK < 256) by (unfold CMD_LED_BLINK; lia).
  split; [exact Hmax |]. split; [exact Hnew |]. split; [exact Hsteps |].
  split; [exact Hget |]. split; [exact Hid |].
  exact (built_payload_is_encodable PROTO_MAX_PAYLOAD ∅ h1 h2 h2 self _
           CMD_LED_BLINK Hmax Hnew Hsteps Hget Hid).
Defined.

(** ** Writing values and reading them back *)

Lemma unpack_of_pack_H (v : Z) (p : list byte) :
  pack_H v = Ok p -> unpack_H p = Ok v.
Proof.
  intros Hp. destruct (pack_H_outcome v) as [[Hv _] | [_ Hr]]; [| congruence].
  pose proof (unpack_pack_H v Hv) as H. now rewrite Hp in H.
Qed.

Lemma unpack_of_pack_h (v : Z) (p : list byte) :
  pack_h v = Ok p -> unpack_h p = Ok v.
Proof.
  intros Hp. destruct (pack_h_outcome v) as [[Hv _] | [_ Hr]]; [| congruence].
  pose proof (unpack_pack_h v Hv) as H. now rewrite Hp in H.
Qed.

Lemma unpack_of_pack_i (v : Z) (p : list byte) :
  pack_i v = Ok p -> unpack_i p = Ok v.
Proof.
  unfold pack_i.
  destruct (Z.leb_spec (-0x80000000) v); destruct (Z.leb_spec v 0x7FFFFFFF);
    cbn [andb]; try discriminate.
  intros [= <-]. cbn [unpack_i]. f_equal.
  rewrite !byte_to_Z_low8, !Z.shiftr_div_pow2 by lia.
  change (2 ^ 24) with 16777216. change (2 ^ 16) with 65536.
  change (2 ^ 8) with 256.
  match goal with
  | |- (if ?a <=? ?u then _ else _) = _ =>
      assert (Hu : u = v mod 4294967296) by (Z.div_mod_to_equations; lia);
      rewrite Hu
  end.
  destruct (Z.leb_spec 2147483648 (v mod 4294967296));
    Z.div_mod_to_equations; lia.
Qed.

Lemma unpack_of_pack_f `{FC : FloatCodec} (v : pyfloat) (p : list byte) :
  pack_f v = Ok p -> unpack_f p = Ok (decode_f32 p).
Proof.
  intros Hp. pose proof (pack_f_length v p Hp) as Hlen.
  destruct p as [| a [| b [| c [| d [| e p]]]]]; try (exfalso; len_lia).
  reflexivity.
Qed.

(** A fixed-width read finds the bytes written at its cursor. *)
Lemma read_fixed_written {A} (w : Z) (unpack : list byte -> result A)
    (before written suffix : list byte) (v : A) :
  len written = w -> unpack written = Ok v ->
  (b ← PayloadParser.get_buffer; p ← PayloadParser.get_position;
   if len b <? p + w then mret None else
   value ← lift (unpack (py_slice b p (p + w)));
   _ ← PayloadParser.set_position (p + w);
   mret (Some value))
    {| PayloadParser.buffer := (before ++ written) ++ suffix;
       PayloadParser.position := len before |}
  = (Ok (Some v),
     {| PayloadParser.buffer := (before ++ written) ++ suffix;
        PayloadParser.position := len (before ++ written) |}).
Proof.
  intros Hw Hv. rewrite read_fixed_eq.
  cbn [PayloadParser.buffer PayloadParser.position].
  destruct (Z.ltb_spec (len ((before ++ written) ++ suffix)) (len before + w));
    [exfalso; len_lia |].
  rewrite <- app_assoc.
  rewrite (py_slice_app_mid before written suffix) by lia.
  rewrite Hv. unfold PayloadParser.advance.
  cbn [PayloadParser.buffer PayloadParser.position].
  do 3 f_equal. len_lia.
Qed.

(** A value that was appended is found again by the mirror read at the
    offset where it was written, whatever follows it. *)
Lemma append_then_read `{FC : FloatCodec} (c : PayloadBuilder.call)
    (self : PayloadBuilder.t) (h h' : heap) (buf : list byte) :
  h !! PayloadBuilder.buffer self = Some buf ->
  PayloadBuilder.run c self h = (Ok true, h') ->
  exists written v,
    h' = <[PayloadBuilder.buffer self := buf ++ written]> h
    /\ read_back c = Some v
    /\ forall suffix,
         PayloadParser.run (reader c)
           {| PayloadParser.buffer := (buf ++ written) ++ suffix;
              PayloadParser.position := len buf |}
         = (Ok (Some v),
            {| PayloadParser.buffer := (buf ++ written) ++ suffix;
               PayloadParser.position := len (buf ++ written) |}).
Proof.
  intros Hbuf.
  destruct c as [v | v | v | v | v | v | d];
    cbn [PayloadBuilder.run reader read_back PayloadParser.run].
  - rewrite (add_uint8_eq self h buf Hbuf).
    destruct (_ <? _); [discriminate |]. intros [= <-].
    eexists _, _. split; [reflexivity |]. split; [reflexivity |].
    intros suffix. rewrite run_map.
    rewrite (read_uint8_at _ (byte_of_low8 v));
      cbn [PayloadParser.buffer PayloadParser.position].
    + rewrite byte_to_Z_low8. unfold PayloadParser.advance.
      cbn [PayloadParser.buffer PayloadParser.position fmap option_fmap
             option_map].
      do 3 f_equal. len_lia.
    + apply len_nonneg.
    + rewrite <- app_assoc. cbn [app].
      apply list_lookup_middle. unfold len. lia.
  - rewrite (add_uint16_eq self h buf Hbuf).
    destruct (_ <? _); [discriminate |].
    destruct (pack_H v) as [p | e] eqn:Hp; [| discriminate]. intros [= <-].
    eexists _, _. split; [reflexivity |]. split; [reflexivity |].
    intros suffix. rewrite run_map. unfold PayloadParser.read_uint16.
    now rewrite (read_fixed_written 2 unpack_H buf p suffix v
                   (pack_H_length v p Hp) (unpack_of_pack_H v p Hp)).
  - rewrite (add_int16_eq self h buf Hbuf).
    destruct (_ <? _); [discriminate |].
    destruct (pack_h v) as [p | e] eqn:Hp; [| discriminate]. intros [= <-].
    eexists _, _. split; [reflexivity |]. split; [reflexivity |].
    intros suffix. rewrite run_map. unfold PayloadParser.read_int16.
    now rewrite (read_fixed_written 2 unpack_h buf p suffix v
                   (pack_h_length v p Hp) (unpack_of_pack_h v p Hp)).
  - rewrite (add_int32_eq self h buf Hbuf).
    destruct (_ <? _); [discriminate |].
    destruct (pack_i v) as [p | e] eqn:Hp; [| discriminate]. intros [= <-].
    eexists _, _. split; [reflexivity |]. split; [reflexivity |].
    intros suffix. rewrite run_map. unfold PayloadParser.read_int32.
    now rewrite (read_fixed_written 4 unpack_i buf p suffix v
                   (pack_i_length v p Hp) (unpack_of_pack_i v p Hp)).
  - rewrite (add_float_eq self h buf Hbuf).
    destruct (_ <? _); [discriminate |].
    destruct (pack_f v) as [p | e] eqn:Hp; [| discriminate]. intros [= <-].
    assert (Henc : encode_f32 v = Some p)
      by (unfold pack_f in Hp; destruct (encode_f32 v); congruence).
    eexists _, _. split; [reflexivity |].
    split; [rewrite Henc; reflexivity |].
    intros suffix. rewrite run_map. unfold PayloadParser.read_float.
    now rewrite (read_fixed_written 4 unpack_f buf p suffix _
                   (pack_f_length v p Hp) (unpack_of_pack_f v p Hp)).
  - rewrite (add_string_eq self h buf Hbuf).
    destruct (utf8_encode v) as [encoded | e] eqn:Henc; [| discriminate].
    destruct (_ <? _); [discriminate |].
    destruct (Z.ltb_spec 255 (len encoded)); [discriminate |].
    intros [= <-].
    eexists _, _. split; [reflexivity |]. split; [reflexivity |].
    intros suffix. rewrite run_map.
    now rewrite (read_string_encoded buf encoded suffix v Henc).
  - rewrite (add_bytes_eq self h buf Hbuf).
    destruct (_ <? _); [discriminate |]. intros [= <-].
    eexists _, _. split; [reflexivity |]. split; [reflexivity |].
    intros suffix. rewrite run_map, read_bytes_eq.
    cbn [PayloadParser.buffer PayloadParser.position].
    destruct (Z.ltb_spec (len ((buf ++ d) ++ suffix)) (len buf + len d));
      [exfalso; len_lia |].
    rewrite <- app_assoc.
    rewrite (py_slice_app_mid buf d suffix) by lia.
    unfold PayloadParser.advance.
    cbn [PayloadParser.buffer PayloadParser.position fmap option_fmap
           option_map].
    do 3 f_equal. len_lia.
Qed.

Lemma ST_mapM_cons {S A B} (f : A -> ST S B) (x : A) (l : list A) (s : S) :
  mapM f (x :: l) s
  = match f x s with
    | (Ok y, s1) =>
        match mapM f l s1 with
        | (Ok k, s2) => (Ok (y :: k), s2)
        | (Raise e, s2) => (Raise e, s2)
        end
    | (Raise e, s1) => (Raise e, s1)
    end.
Proof.
  cbn [mapM]. unfold mbind at 1, ST_bind at 1.
  destruct (f x s) as [[y | e] s1]; [| reflexivity].
  unfold mbind, ST_bind. now destruct (mapM f l s1) as [[k | e] s2].
Qed.

Lemma appends_then_reads `{FC : FloatCodec} (cs : list PayloadBuilder.call)
    (self : PayloadBuilder.t) :
  forall (h h' : heap) (buf : list byte) (oks : list bool),
    h !! PayloadBuilder.buffer self = Some buf ->
    mapM (fun c => PayloadBuilder.run c self) cs h = (Ok oks, h') ->
    Forall (fun ok => ok = true) oks ->
    exists written,
      h' = <[PayloadBuilder.buffer self := buf ++ written]> h
      /\ forall suffix,
           mapM PayloadParser.run (reader <$> cs)
             {| PayloadParser.buffer := (buf ++ written) ++ suffix;
                PayloadParser.position := len buf |}
           = (Ok (read_back <$> cs),
              {| PayloadParser.buffer := (buf ++ written) ++ suffix;
                 PayloadParser.position := len (buf ++ written) |}).
Proof.
  induction cs as [| c cs IH]; intros h h' buf oks Hbuf Hrun Hoks.
  - injection Hrun as <- <-. exists []. split.
    + rewrite app_nil_r. symmetry. now apply insert_id.
    + intros suffix. now rewrite app_nil_r.
  - rewrite ST_mapM_cons in Hrun.
    destruct (PayloadBuilder.run c self h) as [[ok | e] h1] eqn:Hc;
      [| discriminate].
    destruct (mapM (M := ST heap) (fun c0 => PayloadBuilder.run c0 self) cs h1)
      as [[k | e] h2] eqn:Hcs; [| discriminate].
    injection Hrun as <- <-.
    apply Forall_cons in Hoks. destruct Hoks as [-> Hk].
    destruct (append_then_read c self h h1 buf Hbuf Hc)
      as (w1 & v & -> & Hv & Hread1).
    destruct (IH _ _ (buf ++ w1) k (lookup_insert_eq _ _ _) Hcs Hk)
      as (w2 & -> & Hread2).
    exists (w1 ++ w2). split.
    + now rewrite insert_insert_eq, app_assoc.
    + intros suffix. rewrite fmap_cons, ST_mapM_cons, fmap_cons.
      replace ((buf ++ w1 ++ w2) ++ suffix)
        with ((buf ++ w1) ++ w2 ++ suffix) by now rewrite <- !app_assoc.
      rewrite (Hread1 (w2 ++ suffix)).
      replace ((buf ++ w1) ++ w2 ++ suffix)
        with (((buf ++ w1) ++ w2) ++ suffix) by now rewrite <- !app_assoc.
      rewrite (Hread2 suffix), Hv.
      now rewrite <- !app_assoc.
Qed.

(** X12. Values come back as they were written. When a sequence of
    appends on a builder all return True, the mirror sequence of reads,
    started at the offset where the first value was written, returns
    the values in order and ends at the end of the last one: integers of
    the fixed-width formats unchanged, the low eight bits for
    [add_uint8], strings and byte spans unchanged, a float as its four
    bytes decode. *)
Theorem serialized_values_read_back `{FC : FloatCodec}
    (cs : list PayloadBuilder.call) (self : PayloadBuilder.t)
    (h h' : heap) (buf : list byte) (oks : list bool) :
  h !! PayloadBuilder.buffer self = Some buf ->
  mapM (fun c => PayloadBuilder.run c self) cs h = (Ok oks, h') ->
  Forall (fun ok => ok = true) oks ->
  exists payload,
    PayloadBuilder.get_payload self h' = (Ok payload, h')
    /\ forall suffix,
         mapM PayloadParser.run (reader <$> cs)
           {| PayloadParser.buffer := payload ++ suffix;
              PayloadParser.position := len buf |}
         = (Ok (read_back <$> cs),
            {| PayloadParser.buffer := payload ++ suffix;
               PayloadParser.position := len payload |}).
Proof.
  intros Hbuf Hrun Hoks.
  destruct (appends_then_reads cs self h h' buf oks Hbuf Hrun Hoks)
    as (written & -> & Hreads).
  exists (buf ++ written). split; [| exact Hreads].
  apply Bytearray_to_bytes_eq, lookup_insert_eq.
Qed.

Lemma serialized_values_read_back_witness :
  let self := {| PayloadBuilder.buffer := 1%positive;
                 PayloadBuilder.max_size := PROTO_MAX_PAYLOAD |} in
  let h : heap := {[ 1%positive := @nil byte ]} in
  let payload := [xff; xfb; x2e; x00; x0f; x42; x40; x02; x48; x69;
                  x01; x02] in
  let h' : heap := {[ 1%positive := payload ]} in
  let cs := [PayloadBuilder.Add_uint8 (FC := f32_bits) 255;
             PayloadBuilder.Add_int16 (-1234);
             PayloadBuilder.Add_int32 1000000;
             PayloadBuilder.Add_string [0x48; 0x69];
             PayloadBuilder.Add_bytes [x01; x02]] in
  h !! PayloadBuilder.buffer self = Some (@nil byte)
  /\ mapM (M := ST heap) (fun c => PayloadBuilder.run c self) cs h
     = (Ok [true; true; true; true; true], h')
  /\ mapM (M := ST PayloadParser.t) (PayloadParser.run (FC := f32_bits))
       (reader (FC := f32_bits) <$> cs)
       (PayloadParser.new payload)
     = (Ok [Some (PayloadParser.Int (FC := f32_bits) 255); Some (PayloadParser.Int (-1234));
            Some (PayloadParser.Int 1000000);
            Some (PayloadParser.Str [0x48; 0x69]);
            Some (PayloadParser.Bytes [x01; x02])],
        {| PayloadParser.buffer := payload;
           PayloadParser.position := len payload |}).
Proof.
  intros self h payload h' cs.
  assert (Hbuf : h !! PayloadBuilder.buffer self = Some (@nil byte))
    by reflexivity.
  assert (Hrun : mapM (M := ST heap) (fun c => PayloadBuilder.run c self) cs h
                 = (Ok [true; true; true; true; true], h'))
    by (vm_compute; reflexivity).
  split; [exact Hbuf |]. split; [exact Hrun |].
  destruct (serialized_values_read_back cs self h h' [] _ Hbuf Hrun)
    as (payload' & Hget & Hreads).
  - repeat constructor.
  - assert (Hp : payload' = payload)
      by (vm_compute in Hget; injection Hget as <-; reflexivity).
    rewrite Hp in Hreads.
    specialize (Hreads []). rewrite app_nil_r in Hreads. exact Hreads.
Defined.

(** ** Reads: the cursor and the values *)

Lemma unpack_H_range (l : list byte) (v : Z) :
  unpack_H l = Ok v -> 0 <= v <= 0xFFFF.
Proof.
  destruct l as [| a [| b [| c l]]]; try discriminate. intros [= <-].
  pose proof (byte_to_Z_range a). pose proof (byte_to_Z_range b). lia.
Qed.

Lemma unpack_h_range (l : list byte) (v : Z) :
  unpack_h l = Ok v -> -0x8000 <= v <= 0x7FFF.
Proof.
  destruct l as [| a [| b [| c l]]]; try discriminate. intros [= <-].
  pose proof (byte_to_Z_range a). pose proof (byte_to_Z_range b).
  destruct (Z.leb_spec 0x8000 (256 * byte_to_Z a + byte_to_Z b)); lia.
Qed.

Lemma unpack_i_range (l : list byte) (v : Z) :
  unpack_i l = Ok v -> -0x80000000 <= v <= 0x7FFFFFFF.
Proof.
  destruct l as [| a [| b [| c [| d [| e l]]]]]; try discriminate.
  intros [= <-].
  pose proof (byte_to_Z_range a). pose proof (byte_to_Z_range b).
  pose proof (byte_to_Z_range c). pose proof (byte_to_Z_range d).
  match goal with
  | |- context [if ?x <=? ?u then _ else _] => destruct (Z.leb_spec x u)
  end; lia.
Qed.

Lemma py_getitem_range (l : list byte) (i v : Z) :
  py_getitem l i = Ok v -> 0 <= v <= 255.
Proof.
  unfold py_getitem. destruct (_ || _); [discriminate |].
  destruct (l !! _) as [b |]; [| discriminate]. intros [= <-].
  pose proof (byte_to_Z_range b). lia.
Qed.

(** X14. The values reads return are values of their format:
    [read_uint8] gives 0..255, [read_uint16] 0..65535, [read_int16]
    -32768..32767, [read_int32] -2^31..2^31-1, and [read_bytes] of a
    length that is not negative, at a cursor that is not negative, gives
    exactly that many bytes. *)
Theorem read_values_in_range (self self' : PayloadParser.t) :
  (forall v, PayloadParser.read_uint8 self = (Ok (Some v), self') ->
             0 <= v <= 255)
  /\ (forall v, PayloadParser.read_uint16 self = (Ok (Some v), self') ->
                0 <= v <= 0xFFFF)
  /\ (forall v, PayloadParser.read_int16 self = (Ok (Some v), self') ->
                -0x8000 <= v <= 0x7FFF)
  /\ (forall v, PayloadParser.read_int32 self = (Ok (Some v), self') ->
                -0x80000000 <= v <= 0x7FFFFFFF)
  /\ (forall n d, 0 <= n -> 0 <= PayloadParser.position self ->
                  PayloadParser.read_bytes n self = (Ok (Some d), self') ->
                  len d = n).
Proof.
  split; [| split; [| split; [| split]]].
  - intros v H. rewrite read_uint8_eq in H.
    destruct (_ <? _); [discriminate |].
    destruct (py_getitem _ _) as [x | e] eqn:Hx; [| discriminate].
    injection H as <- _. exact (py_getitem_range _ _ _ Hx).
  - intros v H. unfold PayloadParser.read_uint16 in H.
    rewrite read_fixed_eq in H. destruct (_ <? _); [discriminate |].
    destruct (unpack_H _) as [x | e] eqn:Hx; [| discriminate].
    injection H as <- _. exact (unpack_H_range _ _ Hx).
  - intros v H. unfold PayloadParser.read_int16 in H.
    rewrite read_fixed_eq in H. destruct (_ <? _); [discriminate |].
    destruct (unpack_h _) as [x | e] eqn:Hx; [| discriminate].
    injection H as <- _. exact (unpack_h_range _ _ Hx).
  - intros v H. unfold PayloadParser.read_int32 in H.
    rewrite read_fixed_eq in H. destruct (_ <? _); [discriminate |].
    destruct (unpack_i _) as [x | e] eqn:Hx; [| discriminate].
    injection H as <- _. exact (unpack_i_range _ _ Hx).
  - intros n d Hn Hpos H. rewrite read_bytes_eq in H.
    destruct (Z.ltb_spec (len (PayloadParser.buffer self))
                (PayloadParser.position self + n)); [discriminate |].
    injection H as <- _.
    rewrite py_slice_length by lia. lia.
Qed.

Lemma read_values_in_range_witness :
  PayloadParser.read_int16 (PayloadParser.new [xfb; x2e])
  = (Ok (Some (-1234)),
     PayloadParser.advance (PayloadParser.new [xfb; x2e]) 2)
  /\ -0x8000 <= -1234 <= 0x7FFF.
Proof.
  assert (H : PayloadParser.read_int16 (PayloadParser.new [xfb; x2e])
              = (Ok (Some (-1234)),
                 PayloadParser.advance (PayloadParser.new [xfb; x2e]) 2))
    by reflexivity.
  split; [exact H |].
  destruct (read_values_in_range (PayloadParser.new [xfb; x2e])
              (PayloadParser.advance (PayloadParser.new [xfb; x2e]) 2))
    as (_ & _ & H16 & _).
  exact (H16 (-1234) H).
Defined.

Lemma remaining_eq (self : PayloadParser.t) :
  PayloadParser.remaining self
  = (Ok (len (PayloadParser.buffer self) - PayloadParser.position self), self).
Proof. reflexivity. Qed.

Lemma read_fixed_inside {A} (self self' : PayloadParser.t) (w : Z)
    (unpack : list byte -> result A) (r : result (option A)) :
  (forall l, length l = Z.to_nat w -> returns (unpack l)) ->
  0 <= w ->
  0 <= PayloadParser.position self <= len (PayloadParser.buffer self) ->
  (if len (PayloadParser.buffer self) <? PayloadParser.position self + w
   then (Ok None, self)
   else match unpack (py_slice (PayloadParser.buffer self)
                        (PayloadParser.position self)
                        (PayloadParser.position self + w)) with
        | Ok v => (Ok (Some v), PayloadParser.advance self w)
        | Raise e => (Raise e, self)
        end) = (r, self') ->
  returns r
  /\ PayloadParser.buffer self' = PayloadParser.buffer self
  /\ PayloadParser.position self <= PayloadParser.position self'
     <= len (PayloadParser.buffer self).
Proof.
  intros Htotal Hw Hpos.
  destruct (Z.ltb_spec (len (PayloadParser.buffer self))
              (PayloadParser.position self + w)).
  - intros [= <- <-]. split; [now eexists |]. split; [reflexivity | lia].
  - destruct (Htotal (py_slice (PayloadParser.buffer self)
                        (PayloadParser.position self)
                        (PayloadParser.position self + w))) as [v ->];
      [apply py_slice_exact; lia |].
    intros [= <- <-]. split; [now eexists |]. split; [reflexivity |].
    cbn [PayloadParser.advance PayloadParser.position]. lia.
Qed.

Lemma read_uint8_inside (self self' : PayloadParser.t) (r : result (option Z)) :
  0 <= PayloadParser.position self <= len (PayloadParser.buffer self) ->
  PayloadParser.read_uint8 self = (r, self') ->
  returns r
  /\ PayloadParser.buffer self' = PayloadParser.buffer self
  /\ PayloadParser.position self <= PayloadParser.position self'
     <= len (PayloadParser.buffer self).
Proof.
  intros Hpos. rewrite read_uint8_eq.
  destruct (Z.ltb_spec (len (PayloadParser.buffer self))
              (PayloadParser.position self + 1)).
  - intros [= <- <-]. split; [now eexists |]. split; [reflexivity | lia].
  - destruct (py_getitem_inside (PayloadParser.buffer self)
                (PayloadParser.position self)) as (b & _ & ->); [lia |].
    intros [= <- <-]. split; [now eexists |]. split; [reflexivity |].
    cbn [PayloadParser.advance PayloadParser.position]. lia.
Qed.

Lemma read_uint8_value_range (self self' : PayloadParser.t) (v : Z) :
  PayloadParser.read_uint8 self = (Ok (Some v), self') -> 0 <= v <= 255.
Proof.
  intros H. rewrite read_uint8_eq in H.
  destruct (_ <? _); [discriminate |].
  destruct (py_getitem _ _) as [x | e] eqn:Hx; [| discriminate].
  injection H as <- _. exact (py_getitem_range _ _ _ Hx).
Qed.

Lemma read_string_inside (self self' : PayloadParser.t)
    (r : result (option (list Z))) :
  0 <= PayloadParser.position self <= len (PayloadParser.buffer self) ->
  PayloadParser.read_string self = (r, self') ->
  returns r
  /\ PayloadParser.buffer self' = PayloadParser.buffer self
  /\ PayloadParser.position self <= PayloadParser.position self'
     <= len (PayloadParser.buffer self).
Proof.
  intros Hpos. rewrite read_string_eq.
  destruct (PayloadParser.read_uint8 self) as [r1 self1] eqn:H1.
  destruct (read_uint8_inside self self1 r1 Hpos H1)
    as ([n Hn] & Hbuf1 & Hpos1).
  subst r1. destruct n as [n |].
  - cbn zeta. rewrite Hbuf1.
    pose proof H1 as Hrange.
    destruct (read_uint8_value_range self self1 n Hrange) as [Hn0 _].
    destruct (Z.ltb_spec (len (PayloadParser.buffer self))
                (PayloadParser.position self1 + n)).
    + intros [= <- <-]. split; [now eexists |]. split; [exact Hbuf1 | lia].
    + intros [= <- <-]. split; [now eexists |].
      cbn [PayloadParser.advance PayloadParser.buffer PayloadParser.position].
      split; [exact Hbuf1 | lia].
  - intros [= <- <-]. split; [now eexists |]. split; [exact Hbuf1 | lia].
Qed.

(** X13. Reads stay inside the buffer. From a parser whose cursor lies
    between 0 and the end of its buffer, as in a new parser, every read
    (with a length that is not negative for [read_bytes]) returns and
    never raises, also on bytes that are not valid UTF-8; it leaves the
    buffer as it is and the cursor where it was or further on, never
    beyond the end. So [remaining] never grows and never goes below 0. *)
Theorem reads_stay_inside_buffer `{FC : FloatCodec}
    (c : PayloadParser.call) (self self' : PayloadParser.t)
    (r : result (option PayloadParser.value)) :
  0 <= PayloadParser.position self <= len (PayloadParser.buffer self) ->
  (forall n, c = PayloadParser.Read_bytes n -> 0 <= n) ->
  PayloadParser.run c self = (r, self') ->
  returns r
  /\ PayloadParser.buffer self' = PayloadParser.buffer self
  /\ PayloadParser.position self <= PayloadParser.position self'
     <= len (PayloadParser.buffer self')
  /\ exists k k',
       PayloadParser.remaining self = (Ok k, self)
       /\ PayloadParser.remaining self' = (Ok k', self')
       /\ 0 <= k' <= k.
Proof.
  intros Hpos Hn Hrun.
  assert (H : returns r
              /\ PayloadParser.buffer self' = PayloadParser.buffer self
              /\ PayloadParser.position self <= PayloadParser.position self'
                 <= len (PayloadParser.buffer self)).
  { destruct c as [| | | | | | n]; cbn [PayloadParser.run] in Hrun;
      rewrite run_map in Hrun.
    - destruct (PayloadParser.read_uint8 self) as [r1 s1] eqn:H1.
      destruct (read_uint8_inside self s1 r1 Hpos H1) as ([v ->] & Hb & Hp).
      injection Hrun as <- <-. split; [now eexists | now split].
    - unfold PayloadParser.read_uint16 in Hrun. rewrite read_fixed_eq in Hrun.
      match type of Hrun with
      | match ?m with _ => _ end = _ => destruct m as [r1 s1] eqn:H1
      end.
      destruct (read_fixed_inside self s1 2 unpack_H r1 unpack_H_total
                  ltac:(lia) Hpos H1) as ([v ->] & Hb & Hp).
      injection Hrun as <- <-. split; [now eexists | now split].
    - unfold PayloadParser.read_int16 in Hrun. rewrite read_fixed_eq in Hrun.
      match type of Hrun with
      | match ?m with _ => _ end = _ => destruct m as [r1 s1] eqn:H1
      end.
      destruct (read_fixed_inside self s1 2 unpack_h r1 unpack_h_total
                  ltac:(lia) Hpos H1) as ([v ->] & Hb & Hp).
      injection Hrun as <- <-. split; [now eexists | now split].
    - unfold PayloadParser.read_int32 in Hrun. rewrite read_fixed_eq in Hrun.
      match type of Hrun with
      | match ?m with _ => _ end = _ => destruct m as [r1 s1] eqn:H1
      end.
      destruct (read_fixed_inside self s1 4 unpack_i r1 unpack_i_total
                  ltac:(lia) Hpos H1) as ([v ->] & Hb & Hp).
      injection Hrun as <- <-. split; [now eexists | now split].
    - unfold PayloadParser.read_float in Hrun. rewrite read_fixed_eq in Hrun.
      match type of Hrun with
      | match ?m with _ => _ end = _ => destruct m as [r1 s1] eqn:H1
      end.
      destruct (read_fixed_inside self s1 4 unpack_f r1 unpack_f_total
                  ltac:(lia) Hpos H1) as ([v ->] & Hb & Hp).
      injection Hrun as <- <-. split; [now eexists | now split].
    - destruct (PayloadParser.read_string self) as [r1 s1] eqn:H1.
      destruct (read_string_inside self s1 r1 Hpos H1) as ([v ->] & Hb & Hp).
      injection Hrun as <- <-. split; [now eexists | now split].
    - rewrite read_bytes_eq in Hrun. specialize (Hn n eq_refl).
      destruct (Z.ltb_spec (len (PayloadParser.buffer self))
                  (PayloadParser.position self + n)).
      + injection Hrun as <- <-. split; [now eexists |].
        split; [reflexivity | lia].
      + injection Hrun as <- <-. split; [now eexists |].
        cbn [PayloadParser.advance PayloadParser.buffer
               PayloadParser.position].
        split; [reflexivity | lia]. }
  destruct H as (Hr & Hb & Hp).
  split; [exact Hr |]. split; [exact Hb |]. rewrite Hb.
  split; [exact Hp |].
  eexists _, _. rewrite !remaining_eq, Hb.
  split; [reflexivity |]. split; [reflexivity | lia].
Qed.

Lemma reads_stay_inside_buffer_witness :
  let self := PayloadParser.new [x02; xff; xfe] in
  let self' := {| PayloadParser.buffer := [x02; xff; xfe];
                  PayloadParser.position := 3 |} in
  0 <= PayloadParser.position self <= len (PayloadParser.buffer self)
  /\ PayloadParser.run (FC := f32_bits) PayloadParser.Read_string self
     = (Ok (Some (PayloadParser.Str [0xFFFD; 0xFFFD])), self')
  /\ PayloadParser.position self <= PayloadParser.position self'
     <= len (PayloadParser.buffer self').
Proof.
  intros self self'.
  assert (Hpos : 0 <= PayloadParser.position self
                 <= len (PayloadParser.buffer self))
    by (vm_compute; split; discriminate).
  assert (Hrun : PayloadParser.run (FC := f32_bits) PayloadParser.Read_string
                   self
                 = (Ok (Some (PayloadParser.Str [0xFFFD; 0xFFFD])), self'))
    by reflexivity.
  split; [exact Hpos |]. split; [exact Hrun |].
  destruct (reads_stay_inside_buffer (FC := f32_bits)
              PayloadParser.Read_string self self' _
              Hpos ltac:(intros n Hn; discriminate Hn) Hrun)
    as (_ & _ & H & _).
  exact H.
Defined.

Lemma fixed_width_reads_all_or_nothing_witness :
  let self := {| PayloadParser.buffer := [x01; xf4; x07];
                 PayloadParser.position := 2 |} in
  PayloadParser.width PayloadParser.Read_uint16 = Some 2
  /\ 0 <= PayloadParser.position self
  /\ (PayloadParser.run (FC := f32_bits) PayloadParser.Read_uint16 self
      = (Ok None, self)
      \/ exists v,
           PayloadParser.run (FC := f32_bits) PayloadParser.Read_uint16 self
           = (Ok (Some v), PayloadParser.advance self 2)).
Proof.
  intros self. split; [reflexivity |]. split; [cbn; lia |].
  apply (fixed_width_reads_all_or_nothing (FC := f32_bits)
           PayloadParser.Read_uint16 2 self); [reflexivity | lia | cbn; lia].
Defined.


(** ** Response parsers and command builders *)

Lemma parse_sensor_data_long (id hi lo : byte)
    (rest : list byte) :
  parse_sensor_data (id :: hi :: lo :: rest)
  = Ok (Some {| sensor_id := byte_to_Z id;
                value :=
                  (let u := 256 * byte_to_Z hi + byte_to_Z lo in
                   if 0x8000 <=? u then u - 0x10000 else u) |}).
Proof.
  unfold parse_sensor_data.
  set (p0 := PayloadParser.new (id :: hi :: lo :: rest)).
  unfold mbind at 1, ST_bind at 1.
  rewrite (read_uint8_at p0 id) by (reflexivity || (cbn; lia)).
  unfold mbind at 1, ST_bind at 1.
  rewrite (read_int16_at (PayloadParser.advance p0 1) hi lo)
    by (reflexivity || (cbn; lia)).
  reflexivity.
Qed.

(** X15. [parse_sensor_data] needs all of its fields: it returns the
    record of the first byte and the big-endian signed 16-bit value of
    the next two when the payload has at least three bytes, whatever
    follows, and [None] for every shorter payload. It never raises. *)
Theorem parse_sensor_data_needs_three_bytes (payload : list byte) :
  parse_sensor_data payload
  = Ok match payload with
       | id :: hi :: lo :: _ =>
           Some {| sensor_id := byte_to_Z id;
                   value :=
                     (let u := 256 * byte_to_Z hi + byte_to_Z lo in
                      if 0x8000 <=? u then u - 0x10000 else u) |}
       | _ => None
       end.
Proof.
  destruct payload as [| id [| hi [| lo rest]]]; try reflexivity.
  apply parse_sensor_data_long.
Qed.

(** Running the first appends of a new default builder. *)
Lemma new_default_builder (h : heap) :
  exists self,
    PayloadBuilder.new PROTO_MAX_PAYLOAD h
    = (Ok self, <[PayloadBuilder.buffer self := []]> h)
    /\ PayloadBuilder.max_size self = PROTO_MAX_PAYLOAD.
Proof.
  destruct (new_builder_buffer PROTO_MAX_PAYLOAD h)
    as (self & h' & Hnew & Hcap & _ & ->).
  now exists self.
Qed.

Lemma add_uint8_fits (self : PayloadBuilder.t) (h : heap) (buf : list byte)
    (v : Z) :
  h !! PayloadBuilder.buffer self = Some buf ->
  len buf + 1 <= PayloadBuilder.max_size self ->
  PayloadBuilder.add_uint8 self v h
  = (Ok true, <[PayloadBuilder.buffer self := buf ++ [byte_of_low8 v]]> h).
Proof.
  intros Hbuf Hfit. rewrite (add_uint8_eq self h buf Hbuf).
  destruct (Z.ltb_spec (PayloadBuilder.max_size self) (len buf + 1));
    [lia | reflexivity].
Qed.

Lemma add_int16_fits (self : PayloadBuilder.t) (h : heap) (buf : list byte)
    (v : Z) (p : list byte) :
  h !! PayloadBuilder.buffer self = Some buf ->
  len buf + 2 <= PayloadBuilder.max_size self ->
  pack_h v = Ok p ->
  PayloadBuilder.add_int16 self v h
  = (Ok true, <[PayloadBuilder.buffer self := buf ++ p]> h).
Proof.
  intros Hbuf Hfit Hp. rewrite (add_int16_eq self h buf Hbuf), Hp.
  destruct (Z.ltb_spec (PayloadBuilder.max_size self) (len buf + 2));
    [lia | reflexivity].
Qed.

Lemma signed16_of_bytes (v : Z) (hi lo : byte) :
  -0x8000 <= v <= 0x7FFF ->
  256 * byte_to_Z hi + byte_to_Z lo = v mod 0x10000 ->
  (let u := 256 * byte_to_Z hi + byte_to_Z lo in
   if 0x8000 <=? u then u - 0x10000 else u) = v.
Proof.
  intros Hv Hu. cbn zeta. rewrite Hu.
  destruct (Z.leb_spec 0x8000 (v mod 0x10000)); Z.div_mod_to_equations; lia.
Qed.

(** X16. Encoder data survive the whole path. For a position in the
    int16 range and any velocity and button integers: the payload built
    by [add_int16], [add_uint8], [add_uint8] on a new builder is encoded
    under CMD_ENCODER_DATA, decoded to the same payload, and parsed to
    the position, the low eight bits of the velocity, and whether the
    low eight bits of the button are 1. *)
Theorem encoder_data_round_trip (pos vel btn : Z) (h : heap) :
  -0x8000 <= pos <= 0x7FFF ->
  exists payload h' frame,
    (builder ← PayloadBuilder.new PROTO_MAX_PAYLOAD;
     _ ← PayloadBuilder.add_int16 builder pos;
     _ ← PayloadBuilder.add_uint8 builder vel;
     _ ← PayloadBuilder.add_uint8 builder btn;
     PayloadBuilder.get_payload builder) h = (Ok payload, h')
    /\ encode_frame CMD_ENCODER_DATA payload = Ok frame
    /\ decode_frame frame = Ok (Some (CMD_ENCODER_DATA, payload))
    /\ parse_encoder_data payload
       = Ok (Some {| position := pos;
                     velocity := vel mod 256;
                     button_pressed := (btn mod 256 =? 1) |}).
Proof.
  intros Hpos.
  destruct (new_default_builder h) as (self & Hnew & Hcap).
  destruct (pack_h_bytes pos Hpos) as (hi & lo & Hp & Hv).
  set (l := PayloadBuilder.buffer self) in *.
  set (payload := [hi; lo; byte_of_low8 vel; byte_of_low8 btn]).
  exists payload, (<[l := payload]> h).
  assert (Hrun :
    (builder ← PayloadBuilder.new PROTO_MAX_PAYLOAD;
     _ ← PayloadBuilder.add_int16 builder pos;
     _ ← PayloadBuilder.add_uint8 builder vel;
     _ ← PayloadBuilder.add_uint8 builder btn;
     PayloadBuilder.get_payload builder) h = (Ok payload, <[l := payload]> h)).
  { rewrite (ST_bind_Ok _ _ _ _ _ Hnew).
    erewrite ST_bind_Ok
      by (apply (add_int16_fits self _ [] pos [hi; lo]);
          [apply lookup_insert_eq | rewrite Hcap; vm_compute; discriminate
          | exact Hp]).
    fold l. rewrite insert_insert_eq.
    erewrite ST_bind_Ok
      by (apply (add_uint8_fits self _ [hi; lo] vel);
          [apply lookup_insert_eq | rewrite Hcap; vm_compute; discriminate]).
    fold l. rewrite insert_insert_eq.
    erewrite ST_bind_Ok
      by (apply (add_uint8_fits self _ [hi; lo; byte_of_low8 vel] btn);
          [apply lookup_insert_eq | rewrite Hcap; vm_compute; discriminate]).
    fold l. rewrite insert_insert_eq.
    apply Bytearray_to_bytes_eq, lookup_insert_eq. }
  destruct (encode_frame_layout CMD_ENCODER_DATA payload)
    as (b1 & b2 & b3 & c0 & c1 & Henc & Hb);
    [unfold CMD_ENCODER_DATA; lia | vm_compute; discriminate |].
  eexists. split; [exact Hrun |]. split; [exact Henc |].
  split; [exact (decode_of_encode _ _ _ Henc) |].
  subst payload. rewrite parse_encoder_data_long.
  rewrite (signed16_of_bytes pos hi lo Hpos Hv), !byte_to_Z_low8.
  reflexivity.
Qed.

Lemma encoder_data_round_trip_witness :
  -0x8000 <= 42 <= 0x7FFF
  /\ exists payload h' frame,
       (builder ← PayloadBuilder.new PROTO_MAX_PAYLOAD;
        _ ← PayloadBuilder.add_int16 builder 42;
        _ ← PayloadBuilder.add_uint8 builder 5;
        _ ← PayloadBuilder.add_uint8 builder 1;
        PayloadBuilder.get_payload builder) (∅ : heap) = (Ok payload, h')
       /\ encode_frame CMD_ENCODER_DATA payload = Ok frame
       /\ decode_frame frame = Ok (Some (CMD_ENCODER_DATA, payload))
       /\ parse_encoder_data payload
          = Ok (Some {| position := 42;
                        velocity := 5 mod 256;
                        button_pressed := (1 mod 256 =? 1) |}).
Proof.
  split; [lia |].
  apply (encoder_data_round_trip 42 5 1 ∅). lia.
Defined.

(** X17. Sensor data survive the builder and the parser. For any
    sensor id integer and a value in the int16 range, the payload built
    by [add_uint8], [add_int16] on a new builder parses to the low eight
    bits of the id and the value. *)
Theorem sensor_data_round_trip (id v : Z) (h : heap) :
  -0x8000 <= v <= 0x7FFF ->
  exists payload h',
    (builder ← PayloadBuilder.new PROTO_MAX_PAYLOAD;
     _ ← PayloadBuilder.add_uint8 builder id;
     _ ← PayloadBuilder.add_int16 builder v;
     PayloadBuilder.get_payload builder) h = (Ok payload, h')
    /\ parse_sensor_data payload
       = Ok (Some {| sensor_id := id mod 256; value := v |}).
Proof.
  intros Hv.
  destruct (new_default_builder h) as (self & Hnew & Hcap).
  destruct (pack_h_bytes v Hv) as (hi & lo & Hp & Hval).
  set (l := PayloadBuilder.buffer self) in *.
  exists [byte_of_low8 id; hi; lo], (<[l := [byte_of_low8 id; hi; lo]]> h).
  split.
  - rewrite (ST_bind_Ok _ _ _ _ _ Hnew).
    erewrite ST_bind_Ok
      by (apply (add_uint8_fits self _ [] id);
          [apply lookup_insert_eq | rewrite Hcap; vm_compute; discriminate]).
    fold l. rewrite insert_insert_eq.
    erewrite ST_bind_Ok
      by (apply (add_int16_fits self _ [byte_of_low8 id] v [hi; lo]);
          [apply lookup_insert_eq | rewrite Hcap; vm_compute; discriminate
          | exact Hp]).
    fold l. rewrite insert_insert_eq.
    apply Bytearray_to_bytes_eq, lookup_insert_eq.
  - rewrite parse_sensor_data_long.
    rewrite (signed16_of_bytes v hi lo Hv Hval), byte_to_Z_low8.
    reflexivity.
Qed.

Lemma sensor_data_round_trip_witness :
  -0x8000 <= -40 <= 0x7FFF
  /\ exists payload h',
       (builder ← PayloadBuilder.new PROTO_MAX_PAYLOAD;
        _ ← PayloadBuilder.add_uint8 builder 7;
        _ ← PayloadBuilder.add_int16 builder (-40);
        PayloadBuilder.get_payload builder) (∅ : heap) = (Ok payload, h')
       /\ parse_sensor_data payload
          = Ok (Some {| sensor_id := 7 mod 256; value := -40 |}).
Proof.
  split; [lia |].
  apply (sensor_data_round_trip 7 (-40) ∅). lia.
Defined.

Lemma add_uint16_fits (self : PayloadBuilder.t) (h : heap) (buf : list byte)
    (v : Z) (p : list byte) :
  h !! PayloadBuilder.buffer self = Some buf ->
  len buf + 2 <= PayloadBuilder.max_size self ->
  pack_H v = Ok p ->
  PayloadBuilder.add_uint16 self v h
  = (Ok true, <[PayloadBuilder.buffer self := buf ++ p]> h).
Proof.
  intros Hbuf Hfit Hp. rewrite (add_uint16_eq self h buf Hbuf), Hp.
  destruct (Z.ltb_spec (PayloadBuilder.max_size self) (len buf + 2));
    [lia | reflexivity].
Qed.

Lemma add_uint16_raises (self : PayloadBuilder.t) (h : heap) (buf : list byte)
    (v : Z) :
  h !! PayloadBuilder.buffer self = Some buf ->
  len buf + 2 <= PayloadBuilder.max_size self ->
  ~ 0 <= v <= 0xFFFF ->
  PayloadBuilder.add_uint16 self v h = (Raise StructError, h).
Proof.
  intros Hbuf Hfit Hv. rewrite (add_uint16_eq self h buf Hbuf).
  destruct (Z.ltb_spec (PayloadBuilder.max_size self) (len buf + 2));
    [lia |].
  destruct (pack_H_outcome v) as [[Hin _] | [_ ->]]; [tauto | reflexivity].
Qed.

(** X18. [build_led_blink] takes a duration of 0 to 65535 ms. For such
    a duration it returns an 8-byte frame that decodes to CMD_LED_BLINK
    and a payload from which [read_uint16] reads the duration back. For
    every other integer it raises struct.error: the result of
    [add_uint16] is not the False it ignores. *)
Theorem build_led_blink_duration (duration_ms : Z) (h : heap) :
  (0 <= duration_ms <= 0xFFFF ->
   exists frame payload,
     fst (build_led_blink duration_ms h) = Ok frame
     /\ len frame = 8
     /\ decode_frame frame = Ok (Some (CMD_LED_BLINK, payload))
     /\ fst (PayloadParser.read_uint16 (PayloadParser.new payload))
        = Ok (Some duration_ms))
  /\ (~ 0 <= duration_ms <= 0xFFFF ->
      fst (build_led_blink duration_ms h) = Raise StructError).
Proof.
  destruct (new_default_builder h) as (self & Hnew & Hcap).
  set (l := PayloadBuilder.buffer self) in *.
  split.
  - intros Hd.
    destruct (pack_H_bytes duration_ms Hd) as (hi & lo & Hp & Hv).
    destruct (encode_frame_layout CMD_LED_BLINK [hi; lo])
      as (b1 & b2 & b3 & c0 & c1 & Henc & Hb);
      [unfold CMD_LED_BLINK; lia | vm_compute; discriminate |].
    eexists _, [hi; lo]. split; [| split; [| split]].
    + unfold build_led_blink.
      rewrite (ST_bind_Ok _ _ _ _ _ Hnew).
      erewrite ST_bind_Ok
        by (apply (add_uint16_fits self _ [] duration_ms [hi; lo]);
            [apply lookup_insert_eq | rewrite Hcap; vm_compute; discriminate
            | exact Hp]).
      fold l. rewrite insert_insert_eq.
      erewrite ST_bind_Ok
        by (apply Bytearray_to_bytes_eq, lookup_insert_eq).
      cbn [app lift fst]. exact Henc.
    + len_lia.
    + exact (decode_of_encode _ _ _ Henc).
    + unfold PayloadParser.read_uint16. rewrite read_fixed_eq.
      change (PayloadParser.buffer (PayloadParser.new [hi; lo]))
        with [hi; lo].
      change (PayloadParser.position (PayloadParser.new [hi; lo])) with 0.
      change (len [hi; lo] <? 0 + 2) with false.
      change (py_slice [hi; lo] 0 (0 + 2)) with [hi; lo].
      cbn [unpack_H fst]. now rewrite Hv.
  - intros Hd. unfold build_led_blink.
    rewrite (ST_bind_Ok _ _ _ _ _ Hnew).
    erewrite ST_bind_Raise; [reflexivity |].
    apply (add_uint16_raises self _ []);
      [apply lookup_insert_eq | rewrite Hcap; vm_compute; discriminate
      | exact Hd].
Qed.

Lemma build_led_blink_duration_witness :
  0 <= 500 <= 0xFFFF
  /\ ~ 0 <= 70000 <= 0xFFFF
  /\ fst (build_led_blink 70000 ∅) = Raise StructError
  /\ exists frame payload,
       fst (build_led_blink 500 ∅) = Ok frame
       /\ len frame = 8
       /\ decode_frame frame = Ok (Some (CMD_LED_BLINK, payload))
       /\ fst (PayloadParser.read_uint16 (PayloadParser.new payload))
          = Ok (Some 500).
Proof.
  split; [lia |]. split; [lia |]. split.
  - apply (build_led_blink_duration 70000 ∅). lia.
  - apply (build_led_blink_duration 500 ∅). lia.
Defined.

(** X19. [build_led_set] returns, for either state, a 7-byte frame that
    decodes to CMD_LED_SET and a one-byte payload: 1 for True, 0 for
    False. *)
Theorem build_led_set_payload (state : bool) (h : heap) :
  exists frame,
    fst (build_led_set state h) = Ok frame
    /\ len frame = 7
    /\ decode_frame frame
       = Ok (Some (CMD_LED_SET, [if state then x01 else x00])).
Proof.
  destruct (new_default_builder h) as (self & Hnew & Hcap).
  set (l := PayloadBuilder.buffer self) in *.
  set (payload := [if state then x01 else x00]).
  destruct (encode_frame_layout CMD_LED_SET payload)
    as (b1 & b2 & b3 & c0 & c1 & Henc & Hb);
    [unfold CMD_LED_SET; lia | vm_compute; discriminate |].
  eexists. split; [| split].
  - unfold build_led_set.
    rewrite (ST_bind_Ok _ _ _ _ _ Hnew).
    erewrite ST_bind_Ok
      by (apply (add_uint8_fits self _ []);
          [apply lookup_insert_eq | rewrite Hcap; vm_compute; discriminate]).
    fold l. rewrite insert_insert_eq.
    erewrite ST_bind_Ok
      by (apply Bytearray_to_bytes_eq, lookup_insert_eq).
    cbn [app lift fst].
    replace [byte_of_low8 (if state then 1 else 0)] with payload
      by (subst payload; now destruct state).
    exact Henc.
  - subst payload. len_lia.
  - exact (decode_of_encode _ _ _ Henc).
Qed.

(** ** Text: sizes *)

Lemma utf8_encode_char_length (c : Z) (head : list byte) :
  utf8_encode_char c = Ok head -> 1 <= len head <= 4.
Proof.
  unfold utf8_encode_char.
  repeat match goal with
         | |- context [if ?b then _ else _] => destruct b
         end; try discriminate; intros [= <-]; autorewrite with len; lia.
Qed.

Lemma utf8_encode_length (s : list Z) (encoded : list byte) :
  utf8_encode s = Ok encoded -> len s <= len encoded <= 4 * len s.
Proof.
  revert encoded. induction s as [| c rest IH]; intros encoded;
    cbn [utf8_encode].
  - intros [= <-]. autorewrite with len. lia.
  - destruct (utf8_encode_char c) as [head |] eqn:Hc; [| discriminate].
    rewrite result_bind_Ok.
    destruct (utf8_encode rest) as [tail |] eqn:Hrest; [| discriminate].
    rewrite result_bind_Ok. intros [= <-].
    pose proof (utf8_encode_char_length c head Hc).
    pose proof (IH tail eq_refl). len_lia.
Qed.

Lemma utf8_encode_char_scalar (c : Z) :
  is_scalar_value c = true -> exists head, utf8_encode_char c = Ok head.
Proof.
  unfold is_scalar_value, utf8_encode_char. intros Hc.
  repeat match goal with
         | |- context [if ?b then _ else _] => destruct b eqn:?
         end; try (now eexists); exfalso; lia.
Qed.

Lemma utf8_encode_char_not_scalar (c : Z) :
  is_scalar_value c = false -> utf8_encode_char c = Raise UnicodeEncodeError.
Proof.
  unfold is_scalar_value, utf8_encode_char. intros Hc.
  repeat match goal with
         | |- context [if ?b then _ else _] => destruct b eqn:?
         end; try reflexivity; exfalso; lia.
Qed.

(** A str has a UTF-8 encoding exactly when none of its characters is a
    surrogate. *)
Lemma utf8_encode_scalar (s : list Z) :
  forallb is_scalar_value s = true ->
  exists encoded, utf8_encode s = Ok encoded.
Proof.
  induction s as [| c rest IH]; cbn [forallb utf8_encode]; [now eexists |].
  intros [Hc Hrest]%andb_true_iff.
  destruct (utf8_encode_char_scalar c Hc) as (head & ->).
  destruct (IH Hrest) as (tail & ->).
  rewrite !result_bind_Ok. now eexists.
Qed.

Lemma utf8_encode_not_scalar (s : list Z) :
  forallb is_scalar_value s = false ->
  utf8_encode s = Raise UnicodeEncodeError.
Proof.
  induction s as [| c rest IH]; cbn [forallb utf8_encode]; [discriminate |].
  destruct (is_scalar_value c) eqn:Hc; cbn [andb].
  - intros Hrest.
    destruct (utf8_encode_char_scalar c Hc) as (head & ->).
    rewrite result_bind_Ok, (IH Hrest). apply result_bind_Raise.
  - intros _. rewrite (utf8_encode_char_not_scalar c Hc).
    apply result_bind_Raise.
Qed.

(** X20. [add_string] by the number of characters, for every str. A str
    holding a surrogate has no UTF-8 encoding: [add_string] raises
    UnicodeEncodeError, whatever the length of the str and the room
    left, and the store is as it was. Every other str has an encoding
    of between one and four bytes per character, so one of more than 255
    characters is refused with False, the store as it was, and one of at
    most 63 characters is accepted when the buffer has room for one byte
    plus four bytes per character. *)
Theorem add_string_by_character_count (self : PayloadBuilder.t) (h : heap)
    (buf : list byte) (value : list Z) :
  h !! PayloadBuilder.buffer self = Some buf ->
  (forallb is_scalar_value value = false ->
   PayloadBuilder.add_string self value h = (Raise UnicodeEncodeError, h))
  /\ (forallb is_scalar_value value = true ->
      (exists encoded,
         utf8_encode value = Ok encoded
         /\ len value <= len encoded <= 4 * len value)
      /\ (255 < len value ->
          PayloadBuilder.add_string self value h = (Ok false, h))
      /\ (len value <= 63 ->
          len buf + 1 + 4 * len value <= PayloadBuilder.max_size self ->
          fst (PayloadBuilder.add_string self value h) = Ok true)).
Proof.
  intros Hbuf. rewrite (add_string_eq self h buf Hbuf). split.
  - intros Hbad. now rewrite (utf8_encode_not_scalar value Hbad).
  - intros Hgood.
    destruct (utf8_encode_scalar value Hgood) as (encoded & Henc).
    pose proof (utf8_encode_length value encoded Henc) as Hlen.
    rewrite Henc. split; [now exists encoded |]. split.
    + intros Hlong.
      destruct (_ <? len buf + 1 + len encoded); [reflexivity |].
      destruct (Z.ltb_spec 255 (len encoded)); [reflexivity | lia].
    + intros Hshort Hroom.
      destruct (Z.ltb_spec (PayloadBuilder.max_size self)
                  (len buf + 1 + len encoded)); [lia |].
      destruct (Z.ltb_spec 255 (len encoded)); [lia | reflexivity].
Qed.

Lemma add_string_by_character_count_witness :
  let self := {| PayloadBuilder.buffer := 1%positive;
                 PayloadBuilder.max_size := PROTO_MAX_PAYLOAD |} in
  let h : heap := {[ 1%positive := [x0a; x14] ]} in
  let long := repeat 0x41 256 in
  h !! PayloadBuilder.buffer self = Some [x0a; x14]
  /\ (forallb is_scalar_value [0x41; 0xD800] = false
      /\ PayloadBuilder.add_string self [0x41; 0xD800] h
         = (Raise UnicodeEncodeError, h))
  /\ (forallb is_scalar_value long = true
      /\ 255 < len long
      /\ PayloadBuilder.add_string self long h = (Ok false, h))
  /\ (forallb is_scalar_value [0x20AC; 0x41] = true
      /\ len [0x20AC; 0x41] <= 63
      /\ len [x0a; x14] + 1 + 4 * len [0x20AC; 0x41]
         <= PayloadBuilder.max_size self
      /\ fst (PayloadBuilder.add_string self [0x20AC; 0x41] h) = Ok true).
Proof.
  intros self h long.
  assert (Hbuf : h !! PayloadBuilder.buffer self = Some [x0a; x14])
    by reflexivity.
  assert (Hbad : forallb is_scalar_value [0x41; 0xD800] = false)
    by reflexivity.
  assert (Hlong : forallb is_scalar_value long = true)
    by (vm_compute; reflexivity).
  assert (H256 : 255 < len long) by (vm_compute; reflexivity).
  assert (Hgood : forallb is_scalar_value [0x20AC; 0x41] = true)
    by reflexivity.
  assert (H63 : len [0x20AC; 0x41] <= 63) by (vm_compute; discriminate).
  assert (Hroom : len [x0a; x14] + 1 + 4 * len [0x20AC; 0x41]
                  <= PayloadBuilder.max_size self)
    by (vm_compute; discriminate).
  split; [exact Hbuf |]. split; [| split].
  - split; [exact Hbad |].
    destruct (add_string_by_character_count self h _ [0x41; 0xD800] Hbuf)
      as (Hraise & _).
    exact (Hraise Hbad).
  - split; [exact Hlong |]. split; [exact H256 |].
    destruct (add_string_by_character_count self h _ long Hbuf)
      as (_ & Hrest).
    destruct (Hrest Hlong) as (_ & Hfalse & _). exact (Hfalse H256).
  - split; [exact Hgood |]. split; [exact H63 |]. split; [exact Hroom |].
    destruct (add_string_by_character_count self h _ [0x20AC; 0x41] Hbuf)
      as (_ & Hrest).
    destruct (Hrest Hgood) as (_ & _ & Hok). exact (Hok H63 Hroom).
Defined.

(** What [build_oled_text] builds, by the fate of the text. *)
Lemma build_oled_text_eq (x y : Z) (text : list Z) (h : heap) :
  fst (build_oled_text x y text h)
  = match utf8_encode text with
    | Raise e => Raise e
    | Ok encoded =>
        encode_frame CMD_OLED_TEXT
          (if 255 <? len encoded
           then [byte_of_low8 x; byte_of_low8 y]
           else byte_of_low8 x :: byte_of_low8 y
                :: byte_of_low8 (len encoded) :: encoded)
    end.
Proof.
  destruct (new_default_builder h) as (self & Hnew & Hcap).
  set (l := PayloadBuilder.buffer self) in *.
  unfold build_oled_text.
  rewrite (ST_bind_Ok _ _ _ _ _ Hnew).
  erewrite ST_bind_Ok
    by (apply (add_uint8_fits self _ []);
        [apply lookup_insert_eq | rewrite Hcap; vm_compute; discriminate]).
  fold l. rewrite insert_insert_eq.
  erewrite ST_bind_Ok
    by (apply (add_uint8_fits self _ [byte_of_low8 x]);
        [apply lookup_insert_eq | rewrite Hcap; vm_compute; discriminate]).
  fold l. rewrite insert_insert_eq. cbn [app].
  set (h2 := <[l := [byte_of_low8 x; byte_of_low8 y]]> h).
  assert (Hbuf : h2 !! PayloadBuilder.buffer self
                 = Some [byte_of_low8 x; byte_of_low8 y])
    by apply lookup_insert_eq.
  pose proof (add_string_eq self h2 _ Hbuf text) as Hadd.
  destruct (utf8_encode text) as [encoded | e].
  - rewrite Hcap in Hadd. unfold PROTO_MAX_PAYLOAD in Hadd.
    pose proof (len_nonneg encoded) as Hnn.
    destruct (Z.ltb_spec 255 (len encoded)) as [Hlong | Hshort].
    + assert (Hfalse : PayloadBuilder.add_string self text h2 = (Ok false, h2))
        by (rewrite Hadd; now destruct (_ <? _)).
      rewrite (ST_bind_Ok _ _ _ _ _ Hfalse).
      erewrite ST_bind_Ok by (apply Bytearray_to_bytes_eq, Hbuf).
      reflexivity.
    + destruct (Z.ltb_spec 1024
                  (len [byte_of_low8 x; byte_of_low8 y] + 1 + len encoded))
        as [Hbig | _]; [exfalso; len_lia |].
      rewrite (ST_bind_Ok _ _ _ _ _ Hadd).
      erewrite ST_bind_Ok
        by (apply Bytearray_to_bytes_eq, lookup_insert_eq).
      reflexivity.
  - now rewrite (ST_bind_Raise _ _ _ _ _ Hadd).
Qed.

(** X21. [build_oled_text] and the reads of the receiver. When the text
    has a UTF-8 encoding of at most 255 bytes, [build_oled_text] returns
    a frame that decodes to CMD_OLED_TEXT and a payload from which
    [read_uint8], [read_uint8], [read_string] read the low eight bits of
    x, the low eight bits of y, and the text. *)
Theorem build_oled_text_round_trip (x y : Z) (text : list Z)
    (encoded : list byte) (h : heap) :
  utf8_encode text = Ok encoded -> len encoded <= 255 ->
  exists frame payload,
    fst (build_oled_text x y text h) = Ok frame
    /\ decode_frame frame = Ok (Some (CMD_OLED_TEXT, payload))
    /\ fst ((x ← PayloadParser.read_uint8;
             y ← PayloadParser.read_uint8;
             text ← PayloadParser.read_string;
             mret (x, y, text)) (PayloadParser.new payload))
       = Ok (Some (x mod 256), Some (y mod 256), Some text).
Proof.
  intros Henc Hshort.
  pose proof (len_nonneg encoded) as Hnn.
  set (payload := byte_of_low8 x :: byte_of_low8 y
                  :: byte_of_low8 (len encoded) :: encoded).
  destruct (encode_frame_layout CMD_OLED_TEXT payload)
    as (b1 & b2 & b3 & c0 & c1 & Hframe & _);
    [unfold CMD_OLED_TEXT; lia
    | subst payload; unfold PROTO_MAX_PAYLOAD; len_lia |].
  eexists _, payload. split; [| split].
  - rewrite build_oled_text_eq, Henc.
    destruct (Z.ltb_spec 255 (len encoded)); [lia |]. exact Hframe.
  - exact (decode_of_encode _ _ _ Hframe).
  - set (p0 := PayloadParser.new payload).
    unfold mbind at 1, ST_bind at 1.
    rewrite (read_uint8_at p0 (byte_of_low8 x))
      by (reflexivity || (cbn; lia)).
    unfold mbind at 1, ST_bind at 1.
    rewrite (read_uint8_at (PayloadParser.advance p0 1) (byte_of_low8 y))
      by (reflexivity || (cbn; lia)).
    unfold mbind at 1, ST_bind at 1.
    change (PayloadParser.advance (PayloadParser.advance p0 1) 1)
      with {| PayloadParser.buffer := payload;
              PayloadParser.position := len [byte_of_low8 x; byte_of_low8 y] |}.
    pose proof (read_string_encoded [byte_of_low8 x; byte_of_low8 y]
                  encoded [] text Henc Hshort) as Hread.
    cbn zeta in Hread. rewrite app_nil_r in Hread.
    change ([byte_of_low8 x; byte_of_low8 y]
            ++ byte_of_low8 (len encoded) :: encoded)
      with payload in Hread.
    rewrite Hread. cbn [fst mret ST_ret].
    now rewrite !byte_to_Z_low8.
Qed.

Lemma build_oled_text_round_trip_witness :
  utf8_encode [0x48; 0x69] = Ok [x48; x69]
  /\ len [x48; x69] <= 255
  /\ exists frame payload,
       fst (build_oled_text 10 20 [0x48; 0x69] ∅) = Ok frame
       /\ decode_frame frame = Ok (Some (CMD_OLED_TEXT, payload))
       /\ fst ((x ← PayloadParser.read_uint8;
                y ← PayloadParser.read_uint8;
                text ← PayloadParser.read_string;
                mret (x, y, text)) (PayloadParser.new payload))
          = Ok (Some (10 mod 256), Some (20 mod 256), Some [0x48; 0x69]).
Proof.
  assert (Henc : utf8_encode [0x48; 0x69] = Ok [x48; x69]) by reflexivity.
  assert (Hshort : len [x48; x69] <= 255) by (vm_compute; discriminate).
  split; [exact Henc |]. split; [exact Hshort |].
  exact (build_oled_text_round_trip 10 20 [0x48; 0x69] [x48; x69] ∅
           Henc Hshort).
Defined.

(** X22. [build_oled_text] does not check what [add_string] returns.
    When the UTF-8 encoding of the text is longer than 255 bytes the
    frame is built all the same, with a payload of the two coordinate
    bytes only: the text is left out, and [read_string] after the two
    coordinates finds nothing. When the text has no UTF-8 encoding
    (a lone surrogate) the exception of the encoder reaches the caller. *)
Theorem build_oled_text_leaves_long_text_out (x y : Z) (text : list Z)
    (h : heap) :
  (forall encoded,
     utf8_encode text = Ok encoded -> 255 < len encoded ->
     exists frame,
       fst (build_oled_text x y text h) = Ok frame
       /\ len frame = 8
       /\ decode_frame frame
          = Ok (Some (CMD_OLED_TEXT, [byte_of_low8 x; byte_of_low8 y]))
       /\ fst ((x ← PayloadParser.read_uint8;
                y ← PayloadParser.read_uint8;
                text ← PayloadParser.read_string;
                mret (x, y, text))
                 (PayloadParser.new [byte_of_low8 x; byte_of_low8 y]))
          = Ok (Some (x mod 256), Some (y mod 256), None))
  /\ (forall e,
        utf8_encode text = Raise e ->
        fst (build_oled_text x y text h) = Raise UnicodeEncodeError).
Proof.
  split.
  - intros encoded Henc Hlong.
    destruct (encode_frame_layout CMD_OLED_TEXT
                [byte_of_low8 x; byte_of_low8 y])
      as (b1 & b2 & b3 & c0 & c1 & Hframe & _);
      [unfold CMD_OLED_TEXT; lia | vm_compute; discriminate |].
    eexists. split; [| split; [| split]].
    + rewrite build_oled_text_eq, Henc.
      destruct (Z.ltb_spec 255 (len encoded)); [| lia]. exact Hframe.
    + len_lia.
    + exact (decode_of_encode _ _ _ Hframe).
    + set (p0 := PayloadParser.new [byte_of_low8 x; byte_of_low8 y]).
      unfold mbind at 1, ST_bind at 1.
      rewrite (read_uint8_at p0 (byte_of_low8 x))
        by (reflexivity || (cbn; lia)).
      unfold mbind at 1, ST_bind at 1.
      rewrite (read_uint8_at (PayloadParser.advance p0 1) (byte_of_low8 y))
        by (reflexivity || (cbn; lia)).
      unfold mbind at 1, ST_bind at 1.
      rewrite read_string_eq.
      rewrite read_uint8_end by (vm_compute; discriminate).
      cbn [fst mret ST_ret].
      now rewrite !byte_to_Z_low8.
  - intros e Henc. rewrite build_oled_text_eq, Henc.
    now rewrite (utf8_encode_raises text e Henc).
Qed.

Lemma build_oled_text_leaves_long_text_out_witness :
  let text := replicate 256 0x58 in
  utf8_encode text = Ok (replicate 256 x58)
  /\ 255 < len (replicate 256 x58)
  /\ exists frame,
       fst (build_oled_text 0 0 text ∅) = Ok frame
       /\ len frame = 8
       /\ decode_frame frame
          = Ok (Some (CMD_OLED_TEXT, [byte_of_low8 0; byte_of_low8 0]))
       /\ fst ((x ← PayloadParser.read_uint8;
                y ← PayloadParser.read_uint8;
                text ← PayloadParser.read_string;
                mret (x, y, text))
                 (PayloadParser.new [byte_of_low8 0; byte_of_low8 0]))
          = Ok (Some (0 mod 256), Some (0 mod 256), None).
Proof.
  intros text.
  assert (Henc : utf8_encode text = Ok (replicate 256 x58))
    by (vm_compute; reflexivity).
  assert (Hlong : 255 < len (replicate 256 x58)) by reflexivity.
  split; [exact Henc |]. split; [exact Hlong |].
  exact (proj1 (build_oled_text_leaves_long_text_out 0 0 text ∅)
           _ Henc Hlong).
Defined.

(** ** The command vocabulary on the wire *)

(** X23. Every member of [CommandID] has a value in range(256), no two
    members share a value, and so every command travels through a frame
    unchanged: with any payload of at most 1024 bytes, [encode_frame]
    returns a frame and [decode_frame] gives back the value of the same
    member, and of no other. *)
Theorem command_ids_travel_unchanged :
  (forall c : CommandID, 0 <= CommandID_value c < 256)
  /\ (forall c c' : CommandID,
        CommandID_value c = CommandID_value c' -> c = c')
  /\ (forall (c : CommandID) (payload : list byte),
        len payload <= PROTO_MAX_PAYLOAD ->
        exists frame,
          encode_frame (CommandID_value c) payload = Ok frame
          /\ forall c',
               decode_frame frame = Ok (Some (CommandID_value c', payload))
               <-> c' = c).
Proof.
  assert (Hrange : forall c : CommandID, 0 <= CommandID_value c < 256)
    by (intros c; destruct c; cbn [CommandID_value]; lia).
  assert (Hinj : forall c c' : CommandID,
             CommandID_value c = CommandID_value c' -> c = c')
    by (intros c c'; destruct c, c'; cbn [CommandID_value];
        intros H; (reflexivity || discriminate H)).
  split; [exact Hrange |]. split; [exact Hinj |].
  intros c payload Hlen.
  destruct (encode_frame_layout (CommandID_value c) payload (Hrange c) Hlen)
    as (b1 & b2 & b3 & c0 & c1 & Henc & _).
  eexists. split; [exact Henc |].
  intros c'. rewrite (decode_of_encode _ _ _ Henc). split.
  - intros [= H]. symmetry. now apply Hinj.
  - now intros ->.
Qed.

Lemma command_ids_travel_unchanged_witness :
  len [x01; xf4] <= PROTO_MAX_PAYLOAD
  /\ exists frame,
       encode_frame (CommandID_value LED_BLINK) [x01; xf4] = Ok frame
       /\ forall c',
            decode_frame frame
            = Ok (Some (CommandID_value c', [x01; xf4]))
            <-> c' = LED_BLINK.
Proof.
  assert (Hlen : len [x01; xf4] <= PROTO_MAX_PAYLOAD)
    by (vm_compute; discriminate).
  split; [exact Hlen |].
  destruct command_ids_travel_unchanged as (_ & _ & H).
  exact (H LED_BLINK [x01; xf4] Hlen).
Defined.

(** ** Truncated buffers *)

(** X24. Nothing decodes from part of a frame. When a buffer decodes to
    a payload of N bytes, every prefix of it shorter than 6 + N bytes is
    rejected with [None]: [decode_frame] needs the whole frame and never
    reads beyond what it is given. *)
Theorem decode_frame_rejects_truncated (data : list byte) (command_id : Z)
    (payload : list byte) (n : nat) :
  decode_frame data = Ok (Some (command_id, payload)) ->
  Z.of_nat n < 6 + len payload ->
  decode_frame (take n data) = Ok None.
Proof.
  intros Hdec Hn.
  destruct (decode_frame_Some_layout _ _ _ Hdec)
    as (b1 & b2 & b3 & c0 & c1 & extra & -> & _ & Hb23 & _).
  destruct (Nat.lt_ge_cases n 6) as [Hshort | Hlong].
  - apply decode_frame_short. unfold len. rewrite length_take. lia.
  - do 4 (destruct n as [| n]; [lia |]).
    cbn [take].
    apply decode_frame_truncated.
    + unfold len. cbn [length]. rewrite length_take, length_app.
      cbn [length]. lia.
    + unfold Wire.declared_length, Wire.byte_at. cbn [nth].
      rewrite Hb23. unfold len in *. cbn [length].
      rewrite length_take. lia.
Qed.

Lemma decode_frame_rejects_truncated_witness :
  let frame := [xaa; x11; x00; x02; x01; xf4; x4d; xcd] in
  decode_frame frame = Ok (Some (CMD_LED_BLINK, [x01; xf4]))
  /\ Z.of_nat 7 < 6 + len [x01; xf4]
  /\ decode_frame (take 7 frame) = Ok None.
Proof.
  intros frame.
  assert (Hdec : decode_frame frame = Ok (Some (CMD_LED_BLINK, [x01; xf4])))
    by (vm_compute; reflexivity).
  assert (Hn : Z.of_nat 7 < 6 + len [x01; xf4]) by reflexivity.
  split; [exact Hdec |]. split; [exact Hn |].
  exact (decode_frame_rejects_truncated frame _ _ 7 Hdec Hn).
Defined.

Lemma encode_frame_returns_iff_witness :
  returns (encode_frame CMD_PING [])
  /\ encode_frame 256 [] = Raise ValueError
  /\ encode_frame (-1) [] = Raise ValueError.
Proof.
  split; [| split].
  - apply (encode_frame_returns_iff CMD_PING []).
    unfold CMD_PING, PROTO_MAX_PAYLOAD. split; [lia | vm_compute; discriminate].
  - apply (encode_frame_returns_iff 256 []). lia.
  - apply (encode_frame_returns_iff (-1) []). lia.
Defined.

(** The builders that take no argument. *)
Example builders_without_payload :
  build_oled_clear = Ok [xaa; x40; x00; x00; xd1; x31]
  /\ build_encoder_read = Ok [xaa; x30; x00; x00; x09; x39]
  /\ decode_frame [xaa; x40; x00; x00; xd1; x31]
     = Ok (Some (CMD_OLED_CLEAR, []))
  /\ decode_frame [xaa; x30; x00; x00; x09; x39]
     = Ok (Some (CMD_ENCODER_READ, [])).
Proof. vm_compute. repeat split. Qed.
